(** * pyxsi_utils: signal access, clock edges, reset and the streaming engine

    A shallow embedding of [pyxsi_utils.py]: the signal accessors
    [_find_signal], [_read_signal], [_write_signal], the edge togglers
    [toggle_neg_edge], [toggle_pos_edge], [toggle_clk], the reset sequence
    [reset_rtlsim], the handshake loop [rtlsim_multi_io] and, last, the
    build step [compile_sim_obj].

    Python values are modelled as follows: [int] is [Z], [str] is [string]
    (ASCII), a [dict] is an association list in insertion order, an
    exception is a value of [exn], and a mutable object (the simulation
    handle, the caller's [io_dict]) is a state that every operation passes
    on, also when it raises.

    The simulator itself is not part of the module. It is modelled by what
    the module uses of it: a table of ports that holds what was last set,
    until the design, an arbitrary function, changes it when time
    advances. The [while] loop of the engine is bounded by a number of
    iterations, and running into the bound is an outcome of its own. *)

From Stdlib Require Import ZArith List String Ascii Bool Lia.
Import ListNotations.

Open Scope string_scope.
Open Scope Z_scope.

(** ** Python built-ins used by the module *)

(** [str.lower()] on ASCII text. *)
Definition lower_ascii (c : ascii) : ascii :=
  let n := nat_of_ascii c in
  if ((65 <=? n) && (n <=? 90))%nat then ascii_of_nat (n + 32) else c.

Fixpoint lower (s : string) : string :=
  match s with
  | EmptyString => EmptyString
  | String c r => String (lower_ascii c) (lower r)
  end.

(** [x in signal_list] for a list of strings. *)
Definition str_in (x : string) (l : list string) : bool :=
  existsb (String.eqb x) l.

(** [int(s, 2)] on ASCII text: surrounding white space, an optional sign,
    an optional [0b] or [0B] prefix, which one underscore may follow, then
    binary digits that single underscores may separate. [None] stands for
    the [ValueError] of a malformed literal. *)
Definition is_space (c : ascii) : bool :=
  let n := nat_of_ascii c in
  (((9 <=? n) && (n <=? 13)) || (n =? 32))%nat.

Fixpoint lstrip (s : string) : string :=
  match s with
  | EmptyString => EmptyString
  | String c r => if is_space c then lstrip r else s
  end.

Fixpoint rstrip (s : string) : string :=
  match s with
  | EmptyString => EmptyString
  | String c r =>
      match rstrip r with
      | EmptyString => if is_space c then EmptyString else String c EmptyString
      | r' => String c r'
      end
  end.

Fixpoint digits2 (after_underscore : bool) (acc : Z) (s : string) : option Z :=
  match s with
  | EmptyString => if after_underscore then None else Some acc
  | String c r =>
      if Ascii.eqb c "0" then digits2 false (2 * acc) r
      else if Ascii.eqb c "1" then digits2 false (2 * acc + 1) r
      else if Ascii.eqb c "_" then
             if after_underscore then None else digits2 true acc r
      else None
  end.

Definition split_sign (s : string) : bool * string :=
  match s with
  | String c r =>
      if Ascii.eqb c "+" then (false, r)
      else if Ascii.eqb c "-" then (true, r)
      else (false, s)
  | EmptyString => (false, s)
  end.

Definition skip_prefix (s : string) : string :=
  match s with
  | String c0 (String c1 r) =>
      if Ascii.eqb c0 "0" && (Ascii.eqb c1 "b" || Ascii.eqb c1 "B") then
        match r with
        | String c2 r' => if Ascii.eqb c2 "_" then r' else r
        | EmptyString => r
        end
      else s
  | _ => s
  end.

Definition int_base2 (s : string) : option Z :=
  let (neg, body) := split_sign (rstrip (lstrip s)) in
  match skip_prefix body with
  | EmptyString => None
  | String c r =>
      if Ascii.eqb c "_" then None
      else option_map (fun z => if neg then - z else z)
                      (digits2 false 0 (String c r))
  end.

(** [f"{v:b}"]: the binary digits of a magnitude. *)
Fixpoint bin_pos (p : positive) : string :=
  match p with
  | xH => "1"
  | xO q => bin_pos q ++ "0"
  | xI q => bin_pos q ++ "1"
  end.

Fixpoint zeros (n : nat) : string :=
  match n with
  | O => EmptyString
  | S m => String "0" (zeros m)
  end.

(** [f"{v:0{w}b}"]: zero fill up to width [w], after the sign if any; a
    width of 0 asks for no padding. *)
Definition format_0b (w : nat) (v : Z) : string :=
  match v with
  | Z0 => zeros (w - 1) ++ "0"
  | Zpos p => zeros (w - String.length (bin_pos p)) ++ bin_pos p
  | Zneg p => "-" ++ zeros (w - 1 - String.length (bin_pos p)) ++ bin_pos p
  end.

Fixpoint str_drop (n : nat) (s : string) : string :=
  match n, s with
  | O, _ => s
  | S m, EmptyString => EmptyString
  | S m, String _ r => str_drop m r
  end.

(** [s[-w:]]: the last [w] characters, the whole string when it is shorter,
    and, since [-0] is [0], the whole string when [w] is 0. *)
Definition last_chars (w : nat) (s : string) : string :=
  match w with
  | O => s
  | _ => str_drop (String.length s - w) s
  end.

(** ** Dictionaries

    A Python [dict] keeps its keys in insertion order; assigning to a key
    that is present keeps its place, assigning to a new key appends it. *)
Definition dict (V : Type) : Type := list (string * V).

Fixpoint dict_get {V : Type} (k : string) (d : dict V) : option V :=
  match d with
  | [] => None
  | (k', v) :: r => if String.eqb k k' then Some v else dict_get k r
  end.

Fixpoint dict_set {V : Type} (k : string) (v : V) (d : dict V) : dict V :=
  match d with
  | [] => [(k, v)]
  | (k', v') :: r =>
      if String.eqb k k' then (k', v) :: r else (k', v') :: dict_set k v r
  end.

Definition dict_keys {V : Type} (d : dict V) : list string := map fst d.

(** ** Exceptions and results

    The module raises plain [Exception]s that differ by their message; the
    constructors name them after the error kinds they stand for.
    [ValueError] is what [int(s, 2)] raises, [KeyError] a failed lookup in a
    dictionary, [PortError] the simulator's refusal of an unknown port. *)
Inductive exn : Type :=
| SignalNotFoundError (signal_name : string)
| NegativeValueUnsupportedError
| SimulationStalledError
| ValueError (literal : string)
| KeyError (key : string)
| PortError (port_name : string)
| HookError (message : string).

Inductive result (A : Type) : Type :=
| Ok (a : A)
| Raise (e : exn).
Arguments Ok {A} a.
Arguments Raise {A} e.

(** A computation on a mutable object of type [S]: the state it leaves is
    returned on both outcomes, since what was done before an exception stays
    done. *)
Definition M (S A : Type) : Type := S -> S * result A.

Definition ret {S A : Type} (a : A) : M S A := fun s => (s, Ok a).

Definition raise {S A : Type} (e : exn) : M S A := fun s => (s, Raise e).

Definition bind {S A B : Type} (m : M S A) (f : A -> M S B) : M S B :=
  fun s =>
    match m s with
    | (s', Ok a) => f a s'
    | (s', Raise e) => (s', Raise e)
    end.

Declare Scope py_scope.
Delimit Scope py_scope with py.
Notation "x <- m ;; k" := (bind m (fun x => k))
  (at level 61, m at next level, right associativity) : py_scope.
Notation "m ;; k" := (bind m (fun _ => k))
  (at level 61, right associativity) : py_scope.

(** [for x in xs: body(x)], stopping at the first exception. *)
Fixpoint for_each {S X : Type} (xs : list X) (body : X -> M S unit) : M S unit :=
  match xs with
  | [] => ret tt
  | x :: r => bind (body x) (fun _ => for_each r body)
  end.

(** ** The simulation handle

    The handle is the [pyxsi.XSI] object: a table of named ports, each
    holding its value as a string of one character per bit, and the design
    under simulation, whose state [K] is hidden and whose reaction to the
    advance of time is [design]. [calls] records, oldest first, every call
    that drives the handle ([set_port_value] and [run]); it is the
    observation the frame and ordering properties are stated on. *)
Inductive call : Type :=
| SetPortValue (port_name value : string)
| Run (duration : Z).

Record XSI (K : Type) : Type := mkXSI {
  ports : dict string;
  kernel : K;
  design : Z -> dict string -> K -> dict string * K;
  calls : list call
}.
Arguments mkXSI {K} ports kernel design calls.
Arguments ports {K} x.
Arguments kernel {K} x.
Arguments design {K} x.
Arguments calls {K} x.

Section Handle.
Context {K : Type}.
Local Open Scope py_scope.

Definition get_port_count (sim : XSI K) : nat := List.length (ports sim).

Definition get_port_name (sim : XSI K) (i : nat) : string :=
  nth i (dict_keys (ports sim)) EmptyString.

Definition get_port_value (port_name : string) : M (XSI K) string :=
  fun sim =>
    match dict_get port_name (ports sim) with
    | Some v => (sim, Ok v)
    | None => (sim, Raise (PortError port_name))
    end.

Definition set_port_value (port_name value : string) : M (XSI K) unit :=
  fun sim =>
    match dict_get port_name (ports sim) with
    | Some _ =>
        (mkXSI (dict_set port_name value (ports sim)) (kernel sim) (design sim)
               (calls sim ++ [SetPortValue port_name value]), Ok tt)
    | None => (sim, Raise (PortError port_name))
    end.

Definition run (duration : Z) : M (XSI K) unit :=
  fun sim =>
    let (p, k) := design sim duration (ports sim) (kernel sim) in
    (mkXSI p k (design sim) (calls sim ++ [Run duration]), Ok tt).

(** ** Signal accessor *)

Definition signal_list (sim : XSI K) : list string :=
  map (get_port_name sim) (seq 0 (get_port_count sim)).

Definition _find_signal (signal_name : string) : M (XSI K) string :=
  fun sim =>
    if str_in signal_name (signal_list sim) then (sim, Ok signal_name)
    else if str_in (lower signal_name) (signal_list sim) then
           (sim, Ok (lower signal_name))
    else (sim, Raise (SignalNotFoundError signal_name)).

Definition _read_signal (signal_name : string) : M (XSI K) Z :=
  signal_name <- _find_signal signal_name ;;
  port_val <- get_port_value signal_name ;;
  match int_base2 port_val with
  | Some z => ret z
  | None => raise (ValueError port_val)
  end.

Definition _write_signal (signal_name : string) (signal_value : Z)
  : M (XSI K) unit :=
  signal_name <- _find_signal signal_name ;;
  port_val <- get_port_value signal_name ;;
  let signal_len := String.length port_val in
  if signal_value <? 0 then raise NegativeValueUnsupportedError
  else
    let signal_bin_value :=
      last_chars signal_len (format_0b signal_len signal_value) in
    set_port_value signal_name signal_bin_value.

(** ** Edge toggler *)

Definition comb_update_and_trace : M (XSI K) unit := ret tt.

Definition toggle_neg_edge (clk_name : string) : M (XSI K) unit :=
  _write_signal clk_name 0 ;;
  run 5000.

(** [for sig in signals_to_write.keys():
        _write_signal(sim, sig, signals_to_write[sig])] *)
Definition apply_writes (signals_to_write : dict Z) : M (XSI K) unit :=
  for_each (dict_keys signals_to_write)
    (fun sig =>
       match dict_get sig signals_to_write with
       | Some v => _write_signal sig v
       | None => raise (KeyError sig)
       end).

Definition toggle_pos_edge (clk_name : string) (signals_to_write : dict Z)
  : M (XSI K) unit :=
  _write_signal clk_name 1 ;;
  run 5000 ;;
  (match signals_to_write with
   | [] => ret tt
   | _ => apply_writes signals_to_write
   end) ;;
  comb_update_and_trace.

Definition toggle_clk (clk_name : string) (signals_to_write : dict Z)
  : M (XSI K) unit :=
  toggle_neg_edge clk_name ;;
  toggle_pos_edge clk_name signals_to_write.

(** ** Reset sequencer *)

Definition reset_rtlsim (rst_name : string) (active_low : bool)
    (clk_name : string) : M (XSI K) unit :=
  _write_signal clk_name 0 ;;
  _write_signal rst_name (if active_low then 0 else 1) ;;
  for_each (seq 0 2) (fun _ => toggle_clk clk_name []) ;;
  let signals_to_write := dict_set rst_name (if active_low then 1 else 0) [] in
  toggle_clk clk_name signals_to_write ;;
  toggle_clk clk_name [].

End Handle.

(** ** Streaming handshake engine *)

(** [io_dict]: the caller's mapping, with the pending words of every input
    channel and the received words of every output channel. *)
Record io : Type := mkIo {
  inputs : dict (list Z);
  outputs : dict (list Z)
}.

(** The activation of [rtlsim_multi_io]: the two mutable objects it was
    handed, which the caller still sees afterwards, and its local
    variables. *)
Record frame (K : Type) : Type := mkFrame {
  sim : XSI K;
  io_dict : io;
  output_done : bool;
  total_cycle_count : Z;
  output_count : Z;
  old_output_count : Z;
  no_change_count : Z;
  signals_to_write : dict Z
}.
Arguments mkFrame {K} sim io_dict output_done total_cycle_count output_count
  old_output_count no_change_count signals_to_write.
Arguments sim {K} f.
Arguments io_dict {K} f.
Arguments output_done {K} f.
Arguments total_cycle_count {K} f.
Arguments output_count {K} f.
Arguments old_output_count {K} f.
Arguments no_change_count {K} f.
Arguments signals_to_write {K} f.

(** How a call of the engine ends; [OutOfFuel] is the model's only, for a
    loop cut short by the bound on its iterations. *)
Inductive outcome : Type :=
| Returned (cycles : Z)
| Raised (e : exn)
| OutOfFuel.

Section Engine.
Context {K : Type}.
Local Open Scope py_scope.

Definition set_sim (f : frame K) (s : XSI K) : frame K :=
  mkFrame s (io_dict f) (output_done f) (total_cycle_count f)
          (output_count f) (old_output_count f) (no_change_count f)
          (signals_to_write f).

Definition set_io_dict (f : frame K) (d : io) : frame K :=
  mkFrame (sim f) d (output_done f) (total_cycle_count f)
          (output_count f) (old_output_count f) (no_change_count f)
          (signals_to_write f).

Definition set_output_done (f : frame K) (b : bool) : frame K :=
  mkFrame (sim f) (io_dict f) b (total_cycle_count f)
          (output_count f) (old_output_count f) (no_change_count f)
          (signals_to_write f).

Definition set_total_cycle_count (f : frame K) (n : Z) : frame K :=
  mkFrame (sim f) (io_dict f) (output_done f) n
          (output_count f) (old_output_count f) (no_change_count f)
          (signals_to_write f).

Definition set_output_count (f : frame K) (n : Z) : frame K :=
  mkFrame (sim f) (io_dict f) (output_done f) (total_cycle_count f)
          n (old_output_count f) (no_change_count f)
          (signals_to_write f).

Definition set_old_output_count (f : frame K) (n : Z) : frame K :=
  mkFrame (sim f) (io_dict f) (output_done f) (total_cycle_count f)
          (output_count f) n (no_change_count f)
          (signals_to_write f).

Definition set_no_change_count (f : frame K) (n : Z) : frame K :=
  mkFrame (sim f) (io_dict f) (output_done f) (total_cycle_count f)
          (output_count f) (old_output_count f) n
          (signals_to_write f).

Definition set_signals_to_write (f : frame K) (d : dict Z) : frame K :=
  mkFrame (sim f) (io_dict f) (output_done f) (total_cycle_count f)
          (output_count f) (old_output_count f) (no_change_count f) d.

(** A call on the handle from inside the engine. *)
Definition on_sim {A : Type} (m : M (XSI K) A) : M (frame K) A :=
  fun f => let (s, r) := m (sim f) in (set_sim f s, r).

(** [io_dict["inputs"][inp]] and its assignment, and the same for
    outputs. *)
Definition load_input (inp : string) : M (frame K) (list Z) :=
  fun f =>
    match dict_get inp (inputs (io_dict f)) with
    | Some q => (f, Ok q)
    | None => (f, Raise (KeyError inp))
    end.

Definition store_input (inp : string) (q : list Z) : M (frame K) unit :=
  fun f =>
    (set_io_dict f (mkIo (dict_set inp q (inputs (io_dict f)))
                         (outputs (io_dict f))), Ok tt).

Definition load_output (outp : string) : M (frame K) (list Z) :=
  fun f =>
    match dict_get outp (outputs (io_dict f)) with
    | Some q => (f, Ok q)
    | None => (f, Raise (KeyError outp))
    end.

Definition store_output (outp : string) (q : list Z) : M (frame K) unit :=
  fun f =>
    (set_io_dict f (mkIo (inputs (io_dict f))
                         (dict_set outp q (outputs (io_dict f)))), Ok tt).

(** [_read_signal(sim, signal_name + "TREADY") == 1 and
    _read_signal(sim, signal_name + "TVALID") == 1]: the second signal is
    read only when the first one is 1. *)
Definition handshake (signal_name : string) : M (XSI K) bool :=
  ready <- _read_signal (signal_name ++ "TREADY") ;;
  if ready =? 1 then
    valid <- _read_signal (signal_name ++ "TVALID") ;;
    ret (valid =? 1)
  else ret false.

(** The three blocks of a cycle between the falling and the rising edge. *)
Definition read_input (sname inp : string) : M (frame K) unit :=
  q <- load_input inp ;;
  let signal_name := inp ++ sname in
  accepted <- on_sim (handshake signal_name) ;;
  store_input inp (if accepted then tl q else q).

Definition read_inputs (sname : string) : M (frame K) unit :=
  fun f => for_each (dict_keys (inputs (io_dict f))) (read_input sname) f.

Definition read_output (sname outp : string) : M (frame K) unit :=
  q <- load_output outp ;;
  let signal_name := outp ++ sname in
  accepted <- on_sim (handshake signal_name) ;;
  if accepted then
    word <- on_sim (_read_signal (signal_name ++ "TDATA")) ;;
    (fun f => (set_output_count f (output_count f + 1), Ok tt)) ;;
    store_output outp (q ++ [word])
  else store_output outp q.

Definition read_outputs (sname : string) : M (frame K) unit :=
  fun f => for_each (dict_keys (outputs (io_dict f))) (read_output sname) f.

Definition stage_input (sname inp : string) : M (frame K) unit :=
  q <- load_input inp ;;
  let signal_name := inp ++ sname in
  fun f =>
    let d1 := dict_set (signal_name ++ "TVALID")
                       (if (0 <? Z.of_nat (List.length q)) then 1 else 0)
                       (signals_to_write f) in
    let d2 := dict_set (signal_name ++ "TDATA")
                       (if (0 <? Z.of_nat (List.length q)) then hd 0 q else 0)
                       d1 in
    (set_signals_to_write f d2, Ok tt).

Definition stage_inputs (sname : string) : M (frame K) unit :=
  fun f => for_each (dict_keys (inputs (io_dict f))) (stage_input sname) f.

Definition call_hook (hook : option (M (XSI K) unit)) : M (frame K) unit :=
  match hook with
  | Some h => on_sim h
  | None => ret tt
  end.

(** The bookkeeping that ends a cycle. *)
Definition count_cycle : M (frame K) unit :=
  fun f => (set_total_cycle_count f (total_cycle_count f + 1), Ok tt).

Definition update_liveness : M (frame K) unit :=
  fun f =>
    if output_count f =? old_output_count f then
      (set_no_change_count f (no_change_count f + 1), Ok tt)
    else
      (set_old_output_count (set_no_change_count f 0) (output_count f), Ok tt).

Definition check_done (num_out_values : Z) : M (frame K) unit :=
  fun f =>
    if output_count f =? num_out_values then (set_output_done f true, Ok tt)
    else (f, Ok tt).

Definition check_timeout (liveness_threshold : Z) : M (frame K) unit :=
  fun f =>
    if no_change_count f =? liveness_threshold then
      (f, Raise SimulationStalledError)
    else (f, Ok tt).

(** One iteration of the [while] loop: the hooks, the two edges and the
    three blocks between them, then the bookkeeping. *)
Definition phases (sname : string)
    (hook_preclk hook_postclk : option (M (XSI K) unit)) : M (frame K) unit :=
  call_hook hook_preclk ;;
  on_sim (toggle_neg_edge "ap_clk") ;;
  read_inputs sname ;;
  read_outputs sname ;;
  stage_inputs sname ;;
  (fun f => on_sim (toggle_pos_edge "ap_clk" (signals_to_write f)) f) ;;
  call_hook hook_postclk.

Definition bookkeeping (num_out_values liveness_threshold : Z)
  : M (frame K) unit :=
  count_cycle ;;
  update_liveness ;;
  check_done num_out_values ;;
  check_timeout liveness_threshold.

Definition cycle (num_out_values : Z) (sname : string)
    (liveness_threshold : Z) (hook_preclk hook_postclk : option (M (XSI K) unit))
  : M (frame K) unit :=
  phases sname hook_preclk hook_postclk ;;
  bookkeeping num_out_values liveness_threshold.

(** [while not output_done: ...], for at most [fuel] iterations. *)
Fixpoint while_loop (fuel : nat) (body : M (frame K) unit) (f : frame K)
  : frame K * outcome :=
  if output_done f then (f, Returned (total_cycle_count f))
  else
    match fuel with
    | O => (f, OutOfFuel)
    | S fuel' =>
        match body f with
        | (f', Ok _) => while_loop fuel' body f'
        | (f', Raise e) => (f', Raised e)
        end
    end.

Definition setup (sname : string) : M (frame K) unit :=
  fun f =>
    for_each (dict_keys (outputs (io_dict f)))
      (fun outp => on_sim (_write_signal ((outp ++ sname) ++ "TREADY") 1)) f.

(** The frame on entry: the flag and the counters as the function
    initialises them, and no staged writes. *)
Definition entry (s : XSI K) (d : io) : frame K :=
  mkFrame s d false 0 0 0 0 [].

Definition rtlsim_multi_io (fuel : nat) (s : XSI K) (d : io)
    (num_out_values : Z) (sname : string) (liveness_threshold : Z)
    (hook_preclk hook_postclk : option (M (XSI K) unit))
  : frame K * outcome :=
  match setup sname (entry s d) with
  | (f, Raise e) => (f, Raised e)
  | (f, Ok _) =>
      while_loop fuel
        (cycle num_out_values sname liveness_threshold hook_preclk hook_postclk)
        f
  end.

(** [k] iterations of the loop, each run to its end, from [f]. *)
Fixpoint iterate (k : nat) (body : M (frame K) unit) (f : frame K)
  : option (frame K) :=
  match k with
  | O => Some f
  | S k' =>
      if output_done f then None
      else
        match body f with
        | (f', Ok _) => iterate k' body f'
        | (_, Raise _) => None
        end
  end.

End Engine.

(** ** Vocabulary of the statements *)

(** *** Strings of binary digits *)

Definition is_bit (c : ascii) : bool := Ascii.eqb c "0" || Ascii.eqb c "1".

Fixpoint is_bits (s : string) : bool :=
  match s with
  | EmptyString => true
  | String c r => is_bit c && is_bits r
  end.

(** The number a string of binary digits denotes, most significant digit
    first. *)
Fixpoint bits_value (acc : Z) (s : string) : Z :=
  match s with
  | EmptyString => acc
  | String c r => bits_value (2 * acc + (if Ascii.eqb c "1" then 1 else 0)) r
  end.

(** The low [w] bits of [v], most significant first. *)
Fixpoint low_bits (w : nat) (v : Z) : string :=
  match w with
  | O => EmptyString
  | S k => String (if Z.testbit v (Z.of_nat k) then "1" else "0")%char
                  (low_bits k v)
  end.

(** The string that [_write_signal] hands to the simulator for a port that
    holds [w] characters. *)
Definition render (w : nat) (v : Z) : string := last_chars w (format_0b w v).

(** The last character of a string. *)
Fixpoint last_char (s : string) : option ascii :=
  match s with
  | EmptyString => None
  | String c r => match last_char r with None => Some c | Some d => Some d end
  end.

(** *** The handle *)

(** What resolution answers, from the port names alone. *)
Definition resolve (names : list string) (n : string) : result string :=
  if str_in n names then Ok n
  else if str_in (lower n) names then Ok (lower n)
  else Raise (SignalNotFoundError n).

(** The width of a signal: the length of the value of the port its name
    resolves to; [None] when the name resolves to no port. *)
Definition signal_width {K : Type} (s : XSI K) (signal_name : string)
  : option nat :=
  match _find_signal signal_name s with
  | (_, Ok c) => option_map String.length (dict_get c (ports s))
  | (_, Raise _) => None
  end.

(** The handle after [set_port_value(c, value)]. *)
Definition written {K : Type} (s : XSI K) (c value : string) : XSI K :=
  mkXSI (dict_set c value (ports s)) (kernel s) (design s)
        (calls s ++ [SetPortValue c value]).

(** The handle after [run(t)]. *)
Definition advanced {K : Type} (s : XSI K) (t : Z) : XSI K :=
  mkXSI (fst (design s t (ports s) (kernel s)))
        (snd (design s t (ports s) (kernel s))) (design s)
        (calls s ++ [Run t]).

(** The calls that write a port. *)
Definition is_set_port_value (c : call) : bool :=
  match c with
  | SetPortValue _ _ => true
  | Run _ => false
  end.

(** The calls of one full clock cycle on clock port [c] of width [wc]: low,
    half a period, high, half a period. *)
Definition full_cycle (c : string) (wc : nat) : list call :=
  [SetPortValue c (render wc 0); Run 5000;
   SetPortValue c (render wc 1); Run 5000].

(** The names and widths of a port table, and the simulators whose designs
    keep them, as a compiled design does: time changes values only. *)
Definition shape (p : dict string) : list (string * nat) :=
  map (fun e => (fst e, String.length (snd e))) p.

Definition steady {K : Type} (s : XSI K) : Prop :=
  forall t p k, shape (fst (design s t p k)) = shape p.

(** Two handles on the same design whose port tables have the same shape. *)
Definition same_iface {K : Type} (s0 s : XSI K) : Prop :=
  shape (ports s) = shape (ports s0) /\ design s = design s0.

(** *** The engine *)

(** A property of the state that a computation keeps, whatever its
    outcome. *)
Definition keeps {S A : Type} (P : S -> Prop) (m : M S A) : Prop :=
  forall s, P s -> P (fst (m s)).

(** The no-progress counter that the bookkeeping of a cycle computes from
    the frame the phases left. *)
Definition next_no_change {K : Type} (f : frame K) : Z :=
  if output_count f =? old_output_count f then no_change_count f + 1 else 0.

(** What holds of the counters whenever the loop is about to start a cycle:
    the remembered count is the current one, and the no-progress counter is
    below the threshold. *)
Definition counters_ok {K : Type} (t : Z) (f : frame K) : Prop :=
  old_output_count f = output_count f /\ 0 <= no_change_count f < t.

(** A cycle from [f] whose phases run to their end without a new output
    word. *)
Definition no_progress {K : Type} (sname : string)
    (h1 h2 : option (M (XSI K) unit)) (f : frame K) : Prop :=
  exists f1, phases sname h1 h2 f = (f1, Ok tt) /\
             output_count f1 = output_count f.

(** Whether the handshake of input channel [inp] is accepted in the cycle
    that starts from [f]: its TREADY and TVALID both read 1 once the hook
    has run and the falling edge is taken. *)
Definition accepted {K : Type} (sname : string) (h1 : option (M (XSI K) unit))
    (f : frame K) (inp : string) : bool :=
  match bind (call_hook h1) (fun _ => on_sim (toggle_neg_edge "ap_clk")) f with
  | (fa, Ok _) =>
      match handshake (inp ++ sname) (sim fa) with
      | (_, Ok b) => b
      | (_, Raise _) => false
      end
  | (_, Raise _) => false
  end.

(** The number of cycles, among the first [k] iterations of the loop from
    [f], in which the handshake of input channel [inp] is accepted. *)
Fixpoint transfers {K : Type} (sname : string) (h1 : option (M (XSI K) unit))
    (k : nat) (body : M (frame K) unit) (f : frame K) (inp : string) : nat :=
  match k with
  | O => O
  | S k' =>
      if output_done f then O
      else
        match body f with
        | (f', Ok _) =>
            ((if accepted sname h1 f inp then 1 else 0)
             + transfers sname h1 k' body f' inp)%nat
        | (_, Raise _) => O
        end
  end.

(** An input mapping [d] reached from [d0] by consuming words: the same
    channels, each queue a tail of the one it started as. *)
Definition consumed_from (d0 d : dict (list Z)) : Prop :=
  dict_keys d = dict_keys d0 /\
  forall inp q, dict_get inp d0 = Some q ->
                exists k, dict_get inp d = Some (skipn k q).

(** ** Example simulators *)

(** A design that never reacts. *)
Definition idle_design : Z -> dict string -> unit -> dict string * unit :=
  fun _ p k => (p, k).

(** A design that, at each rising edge, latches the input stream into the
    output stream. *)
Definition passthrough_design : Z -> dict string -> unit -> dict string * unit :=
  fun _ p k =>
    match dict_get "ap_clk" p, dict_get "in0_V_V_TVALID" p,
          dict_get "in0_V_V_TDATA" p with
    | Some clk, Some valid, Some data =>
        if String.eqb clk "1" then
          (dict_set "out0_V_V_TDATA" data (dict_set "out0_V_V_TVALID" valid p), k)
        else (p, k)
    | _, _, _ => (p, k)
    end.

(** The ports of a design with one input and one output stream of eight
    bits. *)
Definition stream_ports : dict string :=
  [("ap_clk", "0"); ("ap_rst_n", "1");
   ("in0_V_V_TVALID", "0"); ("in0_V_V_TREADY", "1");
   ("in0_V_V_TDATA", "00000000");
   ("out0_V_V_TVALID", "0"); ("out0_V_V_TREADY", "0");
   ("out0_V_V_TDATA", "00000000")].

Definition idle_sim : XSI unit := mkXSI stream_ports tt idle_design [].

Definition passthrough_sim : XSI unit :=
  mkXSI stream_ports tt passthrough_design [].

(** The same ports when the input stream offers a word that the design
    is ready to take. *)
Definition accepting_sim : XSI unit :=
  mkXSI (dict_set "in0_V_V_TVALID" "1" stream_ports) tt idle_design [].

(** A handle with a port of no bits. *)
Definition empty_port_sim : XSI unit := mkXSI [("p", "")] tt idle_design [].

(** The caller's mapping of the examples: one input channel with two words
    pending, one output channel. *)
Definition stream_io : io := mkIo [("in0", [5; 7])] [("out0", [])].

(** A handle with a port whose name has capitals. *)
Definition mixed_case_sim : XSI unit :=
  mkXSI [("ap_clk", "0"); ("Data", "0000")] tt idle_design [].

(** Two output streams that always offer a word. *)
Definition two_output_ports : dict string :=
  [("ap_clk", "0");
   ("out0_V_V_TVALID", "1"); ("out0_V_V_TREADY", "0");
   ("out0_V_V_TDATA", "00000011");
   ("out1_V_V_TVALID", "1"); ("out1_V_V_TREADY", "0");
   ("out1_V_V_TDATA", "00000100")].

Definition two_output_sim : XSI unit :=
  mkXSI two_output_ports tt idle_design [].

Definition two_output_io : io := mkIo [] [("out0", []); ("out1", [])].

(** ** More vocabulary *)

(** A port that the design does not drive, as an input of the design is
    not: the advance of time leaves its value as it is. *)
Definition undriven {K : Type} (s : XSI K) (c : string) : Prop :=
  forall t p k, dict_get c (fst (design s t p k)) = dict_get c p.

(** Whether the handshake of the channel whose signals start with
    [signal_name] is accepted on handle [s]. *)
Definition ready_valid {K : Type} (s : XSI K) (signal_name : string) : bool :=
  match handshake signal_name s with
  | (_, Ok b) => b
  | (_, Raise _) => false
  end.

(** The number of words in all the buffers of a mapping. *)
Fixpoint total_words (d : dict (list Z)) : Z :=
  match d with
  | [] => 0
  | (_, q) :: r => Z.of_nat (List.length q) + total_words r
  end.

(** An output mapping [d] reached from [d0] by receiving words: the same
    channels, each buffer the one it started as with words appended. *)
Definition extended_from (d0 d : dict (list Z)) : Prop :=
  dict_keys d = dict_keys d0 /\
  forall outp q, dict_get outp d0 = Some q ->
                 exists ws, dict_get outp d = Some (q ++ ws)%list.

(** The exceptions a computation can end in. *)
Definition raises_only {S A : Type} (E : exn -> Prop) (m : M S A) : Prop :=
  forall s s' e, m s = (s', Raise e) -> E e.

(** The errors of the signal accessor. *)
Definition accessor_error (e : exn) : Prop :=
  match e with
  | SignalNotFoundError _ | NegativeValueUnsupportedError | ValueError _ => True
  | _ => False
  end.

(** The characters that a literal accepted by [int(s, 2)] is made of. *)
Definition literal_char (c : ascii) : bool :=
  is_space c || Ascii.eqb c "0" || Ascii.eqb c "1" || Ascii.eqb c "_"
  || Ascii.eqb c "+" || Ascii.eqb c "-" || Ascii.eqb c "b" || Ascii.eqb c "B".

Fixpoint str_forallb (p : ascii -> bool) (s : string) : bool :=
  match s with
  | EmptyString => true
  | String c r => p c && str_forallb p r
  end.

(** Handle [s] seen from [s0] after writes to the ports [touched] and
    advances of time: the same interface, and every other port that the
    design does not drive holds what it held. *)
Definition frame_of {K : Type} (s0 s : XSI K) (touched : list string) : Prop :=
  same_iface s0 s /\
  forall p, ~ In p touched -> undriven s0 p ->
            dict_get p (ports s) = dict_get p (ports s0).

(** ** Building the simulation object

    [compile_sim_obj] writes a project file, launches [xelab] and looks for
    the shared object it should have produced. The host it runs on is
    modelled by what the function uses of it: the regular files, as a
    mapping from paths, compared as they are spelled, to their text;
    whether a path can be opened for writing; the two output streams of
    the interpreter, as the text written to them; and what a launched
    process does, an arbitrary function that may also fail to launch.
    [launched] records, oldest first, the processes that were launched,
    each with its arguments and its working directory. The exit status of
    a process, which nothing looks at, is left out. Writing to the project
    file once it is open, and to the two streams, is taken to succeed. *)

(** [s.endswith(suffix)]. *)
Definition endswith (s suffix : string) : bool :=
  (String.length suffix <=? String.length s)%nat
  && String.eqb (str_drop (String.length s - String.length suffix) s) suffix.

(** The line feed. *)
Definition newline : string := String (ascii_of_nat 10) EmptyString.

Inductive build_exn : Type :=
| UnknownExtensionError (src_line : string)
| FileNotFoundError (path : string)
| OSError (path : string)
| UnicodeDecodeError.

(** What a process that ran to its end has done: the files it leaves, and
    what it printed on its standard output and on its standard error,
    each given by the text its bytes decode to as UTF-8, [None] when they
    do not decode. *)
Record process : Type := mkProcess {
  files_after : dict string;
  printed_out : option string;
  printed_err : option string
}.

Record host : Type := mkHost {
  files : dict string;
  creatable : string -> bool;
  spawn : list string -> string -> dict string -> option process;
  launched : list (list string * string);
  stdout : string;
  stderr : string
}.

(** The loop inside [with open(...) as f]: the text written so far and,
    when a source has an extension other than [.v] and [.vhd], the
    exception that ends the loop. *)
Fixpoint write_prj (source_list : list string) (text : string)
  : string * option build_exn :=
  match source_list with
  | [] => (text, None)
  | src_line :: rest =>
      if endswith src_line ".v" then
        write_prj rest (text ++ ("verilog work " ++ src_line ++ newline))
      else if endswith src_line ".vhd" then
        write_prj rest (text ++ ("vhdl2008 work " ++ src_line ++ newline))
      else (text, Some (UnknownExtensionError src_line))
  end.

Definition xelab_libs : list string :=
  ["smartconnect_v1_0"; "axi_protocol_checker_v1_1_12";
   "axi_protocol_checker_v1_1_13"; "axis_protocol_checker_v1_1_11";
   "axis_protocol_checker_v1_1_12"; "xil_defaultlib"; "unisims_ver"; "xpm";
   "floating_point_v7_1_16"; "floating_point_v7_0_21"].

Definition cmd_xelab (top_module_name : string) : list string :=
  fold_left (fun cmd lib => ((cmd ++ ["-L"]) ++ [lib])%list) xelab_libs
    ["xelab"; "work." ++ top_module_name; "-relax"; "-prj"; "rtlsim.prj";
     "-debug"; "all"; "-dll"; "-s"; top_module_name].

(** [launch_process_helper(args, cwd=cwd)]: the process runs to its end in
    working directory [cwd], in a copy of the environment; then what it
    printed on its standard output is decoded and echoed, then what it
    printed on its standard error, and the two texts are returned.
    Decoding raises when the bytes are not UTF-8, after the process has
    ended. *)
Definition launch_process_helper (args : list string) (cwd : string) (h : host)
  : host * (build_exn + string * string) :=
  match spawn h args cwd (files h) with
  | None => (h, inl (OSError (hd EmptyString args)))
  | Some proc =>
      let h1 := mkHost (files_after proc) (creatable h) (spawn h)
                       (launched h ++ [(args, cwd)]) (stdout h) (stderr h) in
      match printed_out proc with
      | None => (h1, inl UnicodeDecodeError)
      | Some cmd_out =>
          let h2 := mkHost (files h1) (creatable h1) (spawn h1) (launched h1)
                           (stdout h1 ++ cmd_out) (stderr h1) in
          match printed_err proc with
          | None => (h2, inl UnicodeDecodeError)
          | Some cmd_err =>
              (mkHost (files h2) (creatable h2) (spawn h2) (launched h2)
                      (stdout h2) (stderr h2 ++ cmd_err),
               inr (cmd_out, cmd_err))
          end
      end
  end.

Definition compile_sim_obj (top_module_name : string)
    (source_list : list string) (sim_out_dir : string) (h : host)
  : host * (build_exn + string * string) :=
  let prj := sim_out_dir ++ "/rtlsim.prj" in
  if creatable h prj then
    let (text, e) := write_prj source_list EmptyString in
    let h1 := mkHost (dict_set prj text (files h)) (creatable h) (spawn h)
                     (launched h) (stdout h) (stderr h) in
    match e with
    | Some e => (h1, inl e)
    | None =>
        match launch_process_helper (cmd_xelab top_module_name) sim_out_dir h1
        with
        | (h2, inl e) => (h2, inl e)
        | (h2, inr _) =>
            let out_so_relative_path :=
              "xsim.dir/" ++ top_module_name ++ "/xsimk.so" in
            let out_so_full_path :=
              (sim_out_dir ++ "/") ++ out_so_relative_path in
            match dict_get out_so_full_path (files h2) with
            | Some _ => (h2, inr (sim_out_dir, out_so_relative_path))
            | None => (h2, inl (FileNotFoundError out_so_full_path))
            end
        end
    end
  else (h, inl (OSError prj)).

(** The line of the project file for a source, and the text of the
    project file for a list of sources. *)
Definition known_extension (src_line : string) : bool :=
  endswith src_line ".v" || endswith src_line ".vhd".

Definition prj_line (src_line : string) : string :=
  (if endswith src_line ".v" then "verilog" else "vhdl2008")
  ++ " work " ++ src_line ++ newline.

Definition project_text (source_list : list string) : string :=
  fold_right (fun src_line text => prj_line src_line ++ text) EmptyString
             source_list.

(** A host on which [xelab] produces the shared object of the design it
    is asked to elaborate and prints a line, and a host on which [xelab]
    does the same and prints bytes that are not UTF-8. *)
Definition building_host : host :=
  mkHost [] (fun _ => true)
         (fun args cwd fs =>
            Some (mkProcess
                    (dict_set (cwd ++ "/xsim.dir/" ++ nth 9 args EmptyString
                                   ++ "/xsimk.so") "ELF" fs)
                    (Some "Built simulation snapshot") (Some EmptyString)))
         [] EmptyString EmptyString.

Definition garbled_host : host :=
  mkHost [] (fun _ => true)
         (fun args cwd fs =>
            Some (mkProcess
                    (dict_set (cwd ++ "/xsim.dir/" ++ nth 9 args EmptyString
                                   ++ "/xsimk.so") "ELF" fs)
                    None (Some EmptyString)))
         [] EmptyString EmptyString.

(** ** The calls of the engine *)

(** The time by which the calls [cs] made the simulation advance. *)
Fixpoint elapsed (cs : list call) : Z :=
  match cs with
  | [] => 0
  | SetPortValue _ _ :: r => elapsed r
  | Run duration :: r => duration + elapsed r
  end.

(** The signals that the engine drives: the clock, the TREADY of the
    output channels, the TVALID and the TDATA of the input channels. *)
Definition driven_signals (d : io) (sname : string) : list string :=
  "ap_clk"
  :: List.app
       (map (fun outp => (outp ++ sname) ++ "TREADY") (dict_keys (outputs d)))
       (flat_map (fun inp => [(inp ++ sname) ++ "TVALID";
                              (inp ++ sname) ++ "TDATA"])
                 (dict_keys (inputs d))).

(** A call of the engine: half a clock period, or a write to the port
    that one of the signals [names] resolves to, which bears the name of
    the signal or its lowercase form. *)
Definition engine_call (names : list string) (c : call) : Prop :=
  match c with
  | Run duration => duration = 5000
  | SetPortValue p _ => exists n, In n names /\ (p = n \/ p = lower n)
  end.

(** The calls made on the handle since it was [s0] are calls of the engine
    for the signals [names]. *)
Definition engine_calls_since {K : Type} (names : list string) (s0 s : XSI K)
  : Prop :=
  exists W, calls s = (calls s0 ++ W)%list /\ Forall (engine_call names) W.


(** * Properties *)

(** ** Binary digit strings *)

Lemma is_bit_cases c : is_bit c = true -> c = "0"%char \/ c = "1"%char.
Proof.
  unfold is_bit. intros H. apply orb_true_iff in H.
  destruct H as [H|H]; apply Ascii.eqb_eq in H; auto.
Qed.

Lemma digits2_bits s : forall acc,
  is_bits s = true -> digits2 false acc s = Some (bits_value acc s).
Proof.
  induction s as [|c r IH]; intros acc H; simpl in *.
  - reflexivity.
  - apply andb_true_iff in H. destruct H as [Hc Hr].
    destruct (is_bit_cases c Hc); subst c; simpl; rewrite IH by assumption;
      f_equal; f_equal; lia.
Qed.

Lemma lstrip_bits s : is_bits s = true -> lstrip s = s.
Proof.
  destruct s as [|c r]; simpl; auto. intros H.
  apply andb_true_iff in H. destruct H as [Hc _].
  destruct (is_bit_cases c Hc); subst c; reflexivity.
Qed.

Lemma rstrip_bits s : is_bits s = true -> rstrip s = s.
Proof.
  induction s as [|c r IH]; simpl; auto. intros H.
  apply andb_true_iff in H. destruct H as [Hc Hr].
  rewrite IH by assumption.
  destruct r; [|reflexivity].
  destruct (is_bit_cases c Hc); subst c; reflexivity.
Qed.

Lemma int_base2_bits s :
  is_bits s = true -> s <> EmptyString -> int_base2 s = Some (bits_value 0 s).
Proof.
  intros H Hne. unfold int_base2.
  rewrite lstrip_bits, rstrip_bits by assumption.
  destruct s as [|c r]; [congruence|].
  pose proof H as H'. simpl in H'. apply andb_true_iff in H'.
  destruct H' as [Hc Hr].
  assert (Hs : split_sign (String c r) = (false, String c r)).
  { destruct (is_bit_cases c Hc); subst c; reflexivity. }
  rewrite Hs.
  assert (Hp : skip_prefix (String c r) = String c r).
  { destruct r as [|c1 r1]; [reflexivity|].
    simpl in Hr. apply andb_true_iff in Hr. destruct Hr as [Hc1 _].
    destruct (is_bit_cases c Hc); destruct (is_bit_cases c1 Hc1); subst;
      reflexivity. }
  rewrite Hp.
  assert (Hu : Ascii.eqb c "_" = false).
  { destruct (is_bit_cases c Hc); subst c; reflexivity. }
  rewrite Hu, digits2_bits by assumption. reflexivity.
Qed.

Lemma bits_value_acc s : forall acc,
  bits_value acc s = acc * 2 ^ Z.of_nat (String.length s) + bits_value 0 s.
Proof.
  induction s as [|c r IH]; intros acc.
  - simpl. lia.
  - cbn [bits_value String.length].
    set (b := if Ascii.eqb c "1" then 1 else 0).
    rewrite (IH (2 * acc + b)), (IH (2 * 0 + b)).
    rewrite Nat2Z.inj_succ, Z.pow_succ_r by lia. ring.
Qed.

Lemma bits_value_range s : 0 <= bits_value 0 s < 2 ^ Z.of_nat (String.length s).
Proof.
  induction s as [|c r IH].
  - simpl. lia.
  - cbn [bits_value String.length]. rewrite bits_value_acc.
    rewrite Nat2Z.inj_succ, Z.pow_succ_r by lia.
    destruct (Ascii.eqb c "1"); lia.
Qed.

Lemma bits_value_app a : forall b acc,
  bits_value acc (a ++ b) = bits_value (bits_value acc a) b.
Proof. induction a as [|c r IH]; intros; simpl; auto. Qed.

Lemma is_bits_app a : forall b, is_bits (a ++ b) = is_bits a && is_bits b.
Proof.
  induction a as [|c r IH]; intros; simpl; auto.
  rewrite IH, andb_assoc. reflexivity.
Qed.

Lemma string_length_app a : forall b,
  String.length (a ++ b) = (String.length a + String.length b)%nat.
Proof. induction a as [|c r IH]; intros; simpl; auto. Qed.

Lemma zeros_length n : String.length (zeros n) = n.
Proof. induction n; simpl; auto. Qed.

Lemma zeros_bits n : is_bits (zeros n) = true.
Proof. induction n; simpl; auto. Qed.

Lemma zeros_value n : forall acc,
  bits_value acc (zeros n) = acc * 2 ^ Z.of_nat n.
Proof.
  induction n as [|n IH]; intros acc.
  - simpl. lia.
  - cbn [zeros bits_value]. rewrite IH.
    rewrite Nat2Z.inj_succ, Z.pow_succ_r by lia.
    change (Ascii.eqb "0" "1") with false. cbv iota. ring.
Qed.

Lemma bin_pos_bits p : is_bits (bin_pos p) = true.
Proof. induction p; simpl; auto; rewrite is_bits_app, IHp; reflexivity. Qed.

Lemma bin_pos_value p : bits_value 0 (bin_pos p) = Zpos p.
Proof.
  induction p; simpl; auto; rewrite bits_value_app, IHp; simpl; lia.
Qed.

Lemma bin_pos_length p : (1 <= String.length (bin_pos p))%nat.
Proof. induction p; simpl; auto; rewrite string_length_app; simpl; lia. Qed.

Lemma str_drop_bits k : forall s,
  (k <= String.length s)%nat -> is_bits s = true ->
  is_bits (str_drop k s) = true /\
  String.length (str_drop k s) = (String.length s - k)%nat /\
  bits_value 0 (str_drop k s)
  = bits_value 0 s mod 2 ^ Z.of_nat (String.length s - k).
Proof.
  induction k as [|k IH]; intros s Hk Hs.
  - cbn [str_drop]. rewrite Nat.sub_0_r. repeat split; auto.
    symmetry. apply Z.mod_small, bits_value_range.
  - destruct s as [|c r]; [simpl in Hk; lia|].
    cbn [str_drop String.length]. simpl in Hk, Hs.
    apply andb_true_iff in Hs. destruct Hs as [_ Hr].
    destruct (IH r ltac:(lia) Hr) as (H1 & H2 & H3).
    replace (S (String.length r) - S k)%nat with (String.length r - k)%nat by lia.
    split; [exact H1|]. split; [exact H2|].
    rewrite H3. cbn [bits_value]. rewrite (bits_value_acc r (_ + _)).
    assert (E : 2 ^ Z.of_nat (String.length r)
                = 2 ^ Z.of_nat k * 2 ^ Z.of_nat (String.length r - k)).
    { rewrite <- Z.pow_add_r by lia. f_equal. lia. }
    rewrite E, Z.mul_assoc, Z.add_comm, Z.mod_add; [reflexivity|].
    apply Z.pow_nonzero; lia.
Qed.

Lemma format_0b_spec w v :
  0 <= v ->
  is_bits (format_0b w v) = true /\
  (w <= String.length (format_0b w v))%nat /\
  (1 <= String.length (format_0b w v))%nat /\
  bits_value 0 (format_0b w v) = v.
Proof.
  intros Hv. destruct v as [|p|p]; [| |lia]; unfold format_0b.
  - rewrite is_bits_app, zeros_bits, string_length_app, zeros_length,
      bits_value_app, zeros_value. simpl. repeat split; lia.
  - pose proof (bin_pos_length p).
    rewrite is_bits_app, zeros_bits, bin_pos_bits, string_length_app, zeros_length,
      bits_value_app, zeros_value.
    rewrite bits_value_acc, bin_pos_value. repeat split; lia.
Qed.

Lemma render_spec w v :
  (1 <= w)%nat -> 0 <= v ->
  is_bits (render w v) = true /\
  String.length (render w v) = w /\
  bits_value 0 (render w v) = v mod 2 ^ Z.of_nat w.
Proof.
  intros Hw Hv. destruct (format_0b_spec w v Hv) as (Hb & Hl & _ & Hval).
  unfold render, last_chars. destruct w as [|w']; [lia|].
  set (w := S w') in *.
  destruct (str_drop_bits (String.length (format_0b w v) - w) (format_0b w v)
              ltac:(lia) Hb) as (H1 & H2 & H3).
  repeat split; auto; [lia|].
  rewrite H3, Hval. f_equal. f_equal. lia.
Qed.

Lemma render_read w v :
  (1 <= w)%nat -> 0 <= v ->
  int_base2 (render w v) = Some (v mod 2 ^ Z.of_nat w).
Proof.
  intros Hw Hv. destruct (render_spec w v Hw Hv) as (Hb & Hl & Hval).
  rewrite int_base2_bits, Hval; auto.
  intros E. rewrite E in Hl. simpl in Hl. lia.
Qed.

(** The rendering is the low bits of the value. *)
Lemma low_bits_spec w v :
  is_bits (low_bits w v) = true /\
  String.length (low_bits w v) = w /\
  bits_value 0 (low_bits w v) = v mod 2 ^ Z.of_nat w.
Proof.
  induction w as [|k (IH1 & IH2 & IH3)].
  - simpl. repeat split. rewrite Z.mod_1_r. reflexivity.
  - cbn [low_bits is_bits String.length bits_value].
    split; [|split].
    + rewrite IH1. destruct (Z.testbit v (Z.of_nat k)); reflexivity.
    + rewrite IH2. reflexivity.
    + rewrite bits_value_acc, IH2, IH3.
      rewrite Nat2Z.inj_succ, Z.pow_succ_r by lia.
      rewrite (Z.mul_comm 2 (2 ^ Z.of_nat k)), Z.rem_mul_r
        by (try apply Z.pow_nonzero; lia).
      rewrite Z.testbit_odd, Z.shiftr_div_pow2 by lia.
      rewrite (Zmod_odd (v / 2 ^ Z.of_nat k)).
      destruct (Z.odd (v / 2 ^ Z.of_nat k)); simpl (Ascii.eqb _ _); lia.
Qed.

Lemma bits_injective a : forall b,
  is_bits a = true -> is_bits b = true ->
  String.length a = String.length b ->
  bits_value 0 a = bits_value 0 b -> a = b.
Proof.
  induction a as [|c r IH]; intros [|c' r'] Ha Hb Hl Hv; simpl in Hl;
    try discriminate; [reflexivity|].
  simpl in Ha, Hb.
  apply andb_true_iff in Ha. destruct Ha as [Hc Hr].
  apply andb_true_iff in Hb. destruct Hb as [Hc' Hr'].
  injection Hl as Hl.
  cbn [bits_value] in Hv.
  rewrite (bits_value_acc r), (bits_value_acc r'), <- Hl in Hv.
  pose proof (bits_value_range r) as R1.
  pose proof (bits_value_range r') as R2. rewrite <- Hl in R2.
  assert (P : 0 < 2 ^ Z.of_nat (String.length r))
    by (apply Z.pow_pos_nonneg; lia).
  destruct (is_bit_cases c Hc); destruct (is_bit_cases c' Hc'); subst c c';
    simpl (Ascii.eqb _ _) in Hv; cbv iota in Hv;
    try (f_equal; apply IH; auto; lia); exfalso; nia.
Qed.

Lemma render_low_bits w v :
  (1 <= w)%nat -> 0 <= v -> render w v = low_bits w v.
Proof.
  intros Hw Hv.
  destruct (render_spec w v Hw Hv) as (A1 & A2 & A3).
  destruct (low_bits_spec w v) as (B1 & B2 & B3).
  apply bits_injective; congruence.
Qed.

Lemma zeros_snoc n : zeros n ++ "0" = zeros (S n).
Proof.
  induction n as [|n IH]; simpl; [reflexivity|]. rewrite IH. reflexivity.
Qed.

Lemma render_zero w : render w 0 = zeros (Nat.max 1 w).
Proof.
  unfold render, format_0b. rewrite zeros_snoc.
  destruct w as [|w]; [reflexivity|].
  replace (S (S w - 1)) with (S w) by lia.
  unfold last_chars. rewrite zeros_length, Nat.sub_diag. reflexivity.
Qed.

(** ** Dictionaries *)

Lemma str_in_In x l : str_in x l = true <-> In x l.
Proof.
  unfold str_in. rewrite existsb_exists. split.
  - intros (y & Hy & E). apply String.eqb_eq in E. subst. assumption.
  - intros H. exists x. split; [assumption|apply String.eqb_refl].
Qed.

Lemma str_in_not_In x l : str_in x l = false <-> ~ In x l.
Proof.
  rewrite <- str_in_In. destruct (str_in x l); split; congruence.
Qed.

Section Dict.
Context {V : Type}.

Lemma dict_get_Some_In (k : string) (d : dict V) v :
  dict_get k d = Some v -> In k (dict_keys d).
Proof.
  induction d as [|[k' v'] r IH]; simpl; [discriminate|].
  destruct (String.eqb_spec k k'); auto.
Qed.

Lemma dict_get_In (k : string) (d : dict V) :
  In k (dict_keys d) -> exists v, dict_get k d = Some v.
Proof.
  induction d as [|[k' v'] r IH]; simpl; [tauto|].
  destruct (String.eqb_spec k k'); eauto.
  intros [E|H]; [congruence|auto].
Qed.

Lemma dict_get_None (k : string) (d : dict V) :
  dict_get k d = None <-> ~ In k (dict_keys d).
Proof.
  split.
  - intros E H. destruct (dict_get_In k d H); congruence.
  - intros H. destruct (dict_get k d) eqn:E; auto.
    elim H. eapply dict_get_Some_In; eauto.
Qed.

Lemma dict_get_set_same (k : string) (v : V) (d : dict V) :
  dict_get k (dict_set k v d) = Some v.
Proof.
  induction d as [|[k' v'] r IH]; simpl.
  - rewrite String.eqb_refl. reflexivity.
  - destruct (String.eqb_spec k k') as [E|N]; simpl.
    + subst. rewrite String.eqb_refl. reflexivity.
    + destruct (String.eqb_spec k k'); [contradiction|assumption].
Qed.

Lemma dict_get_set_other (k k' : string) (v : V) (d : dict V) :
  k <> k' -> dict_get k' (dict_set k v d) = dict_get k' d.
Proof.
  intros N. induction d as [|[k0 v0] r IH]; simpl.
  - destruct (String.eqb_spec k' k); congruence.
  - destruct (String.eqb_spec k k0) as [E|N0]; simpl.
    + subst k0. destruct (String.eqb_spec k' k); congruence.
    + destruct (String.eqb_spec k' k0); auto.
Qed.

Lemma dict_keys_set (k : string) (v : V) (d : dict V) :
  In k (dict_keys d) -> dict_keys (dict_set k v d) = dict_keys d.
Proof.
  induction d as [|[k0 v0] r IH]; simpl; [tauto|].
  intros H. destruct (String.eqb_spec k k0) as [E|N]; simpl; [reflexivity|].
  f_equal. apply IH. destruct H; congruence.
Qed.
End Dict.

(** ** The handle *)

Lemma map_nth_seq {A : Type} (l : list A) (d : A) :
  map (fun i => nth i l d) (seq 0 (List.length l)) = l.
Proof.
  induction l as [|a l IH]; simpl; [reflexivity|].
  f_equal. rewrite <- seq_shift, map_map. simpl. exact IH.
Qed.

Section HandleFacts.
Context {K : Type}.
Implicit Types (s : XSI K) (n c : string).

Lemma signal_list_keys s : signal_list s = dict_keys (ports s).
Proof.
  unfold signal_list, get_port_name, get_port_count.
  replace (List.length (ports s)) with (List.length (dict_keys (ports s)))
    by apply length_map.
  apply map_nth_seq.
Qed.

Lemma find_signal_resolve n s :
  _find_signal n s = (s, resolve (dict_keys (ports s)) n).
Proof.
  unfold _find_signal, resolve. rewrite signal_list_keys.
  destruct (str_in n _); [reflexivity|].
  destruct (str_in (lower n) _); reflexivity.
Qed.

Lemma resolve_In names n c : resolve names n = Ok c -> In c names.
Proof.
  unfold resolve. destruct (str_in n names) eqn:E1.
  - intros H. inversion H. subst. apply str_in_In. assumption.
  - destruct (str_in (lower n) names) eqn:E2; [|discriminate].
    intros H. inversion H. subst. apply str_in_In. assumption.
Qed.

Lemma signal_width_Some s n w :
  signal_width s n = Some w <->
  exists c pv, resolve (dict_keys (ports s)) n = Ok c /\
               dict_get c (ports s) = Some pv /\ String.length pv = w.
Proof.
  unfold signal_width. rewrite find_signal_resolve.
  destruct (resolve _ n) as [c|e] eqn:E.
  - destruct (dict_get c (ports s)) as [pv|] eqn:G; simpl; split.
    + intros H. inversion H. eauto.
    + intros (c' & pv' & H1 & H2 & H3). congruence.
    + discriminate.
    + intros (c' & pv' & H1 & H2 & H3). congruence.
  - split; [discriminate|]. intros (c' & pv' & H1 & _). discriminate.
Qed.

Lemma signal_width_None s n :
  signal_width s n = None <->
  resolve (dict_keys (ports s)) n = Raise (SignalNotFoundError n).
Proof.
  unfold signal_width. rewrite find_signal_resolve.
  destruct (resolve _ n) as [c|e] eqn:E.
  - pose proof (resolve_In _ _ _ E) as Hin.
    destruct (dict_get_In c (ports s) Hin) as [v Hv]. rewrite Hv. simpl.
    split; discriminate.
  - split; auto. intros _. revert E. unfold resolve.
    destruct (str_in n _); [discriminate|].
    destruct (str_in (lower n) _); [discriminate|]. auto.
Qed.

Lemma write_signal_resolved s n c pv v :
  resolve (dict_keys (ports s)) n = Ok c ->
  dict_get c (ports s) = Some pv ->
  _write_signal n v s =
  if v <? 0 then (s, Raise NegativeValueUnsupportedError)
  else (written s c (render (String.length pv) v), Ok tt).
Proof.
  intros R G. unfold _write_signal, bind.
  rewrite find_signal_resolve, R. unfold get_port_value. rewrite G.
  destruct (v <? 0); [reflexivity|].
  unfold set_port_value. rewrite G. reflexivity.
Qed.

Lemma write_signal_unresolved s n v :
  signal_width s n = None ->
  _write_signal n v s = (s, Raise (SignalNotFoundError n)).
Proof.
  intros H. apply signal_width_None in H.
  unfold _write_signal, bind. rewrite find_signal_resolve, H. reflexivity.
Qed.

Lemma read_signal_resolved s n c pv :
  resolve (dict_keys (ports s)) n = Ok c ->
  dict_get c (ports s) = Some pv ->
  _read_signal n s =
  (s, match int_base2 pv with
      | Some z => Ok z
      | None => Raise (ValueError pv)
      end).
Proof.
  intros R G. unfold _read_signal, bind.
  rewrite find_signal_resolve, R. unfold get_port_value. rewrite G.
  destruct (int_base2 pv); reflexivity.
Qed.

(** Reading never changes the handle. *)
Lemma read_signal_pure n s : fst (_read_signal n s) = s.
Proof.
  unfold _read_signal, bind. rewrite find_signal_resolve.
  destruct (resolve _ n); [|reflexivity].
  unfold get_port_value. destruct (dict_get a (ports s)); [|reflexivity].
  destruct (int_base2 s0); reflexivity.
Qed.

Lemma written_keys s c value :
  In c (dict_keys (ports s)) ->
  dict_keys (ports (written s c value)) = dict_keys (ports s).
Proof. intros H. simpl. apply dict_keys_set. assumption. Qed.

(** The value a write stores, read back. *)
Lemma write_then_read s n w v :
  signal_width s n = Some w -> (1 <= w)%nat -> 0 <= v ->
  exists c,
    resolve (dict_keys (ports s)) n = Ok c /\
    _write_signal n v s = (written s c (render w v), Ok tt) /\
    resolve (dict_keys (ports (written s c (render w v)))) n = Ok c /\
    dict_get c (ports (written s c (render w v))) = Some (render w v) /\
    signal_width (written s c (render w v)) n = Some w /\
    _read_signal n (written s c (render w v))
    = (written s c (render w v), Ok (v mod 2 ^ Z.of_nat w)).
Proof.
  intros W Hw Hv. apply signal_width_Some in W.
  destruct W as (c & pv & R & G & L). subst w.
  pose proof (resolve_In _ _ _ R) as Hin.
  exists c. split; [assumption|].
  rewrite (write_signal_resolved s n c pv v R G).
  destruct (Z.ltb_spec v 0); [lia|].
  split; [reflexivity|].
  set (s' := written s c (render (String.length pv) v)).
  assert (R' : resolve (dict_keys (ports s')) n = Ok c).
  { unfold s'. rewrite written_keys; assumption. }
  assert (G' : dict_get c (ports s') = Some (render (String.length pv) v)).
  { apply dict_get_set_same. }
  split; [assumption|]. split; [assumption|]. split.
  - apply signal_width_Some. exists c, (render (String.length pv) v).
    repeat split; auto. apply render_spec; assumption.
  - rewrite (read_signal_resolved s' n c _ R' G'), render_read by assumption.
    reflexivity.
Qed.

End HandleFacts.

(** ** The signal accessor *)

Lemma lower_length n : String.length (lower n) = String.length n.
Proof. induction n as [|c r IH]; simpl; [reflexivity|]. rewrite IH. reflexivity. Qed.

Lemma lower_get n : forall i c,
  String.get i n = Some c ->
  String.get i (lower n)
  = Some (if ((65 <=? nat_of_ascii c) && (nat_of_ascii c <=? 90))%nat
          then ascii_of_nat (nat_of_ascii c + 32) else c).
Proof.
  induction n as [|a r IH]; intros i c H; [destruct i; discriminate|].
  destruct i as [|i]; simpl in H |- *.
  - injection H as <-. reflexivity.
  - apply IH. assumption.
Qed.

Section SignalAccessor.
Context {K : Type}.
Implicit Types (s : XSI K) (n c : string).

(** C4. The port list that resolution looks a name up in is the list of
    the handle's port names, and the lowercase form of a name has the
    small letter for every capital letter and every other character as
    it is. Resolution answers the queried name when the port list has
    it; otherwise the lowercase form of the name when the port list has
    that; otherwise it raises the signal-not-found error for the queried
    name. The handle is left as it was. *)
Theorem find_signal_exact_then_lowercase s n :
  signal_list s = dict_keys (ports s) /\
  String.length (lower n) = String.length n /\
  (forall i (a : ascii),
      String.get i n = Some a ->
      String.get i (lower n)
      = Some (if ((65 <=? nat_of_ascii a) && (nat_of_ascii a <=? 90))%nat
              then ascii_of_nat (nat_of_ascii a + 32) else a)) /\
  (In n (dict_keys (ports s)) -> _find_signal n s = (s, Ok n)) /\
  (~ In n (dict_keys (ports s)) -> In (lower n) (dict_keys (ports s)) ->
   _find_signal n s = (s, Ok (lower n))) /\
  (~ In n (dict_keys (ports s)) -> ~ In (lower n) (dict_keys (ports s)) ->
   _find_signal n s = (s, Raise (SignalNotFoundError n))).
Proof.
  split; [apply signal_list_keys|]. split; [apply lower_length|].
  split; [apply lower_get|].
  rewrite find_signal_resolve. unfold resolve.
  split; [|split].
  - intros H. apply str_in_In in H. rewrite H. reflexivity.
  - intros H H'. apply str_in_not_In in H. apply str_in_In in H'.
    rewrite H, H'. reflexivity.
  - intros H H'. apply str_in_not_In in H. apply str_in_not_In in H'.
    rewrite H, H'. reflexivity.
Qed.

(** C1. On a signal of width [w >= 1], writing [v] with [0 <= v < 2^w]
    and then reading the same signal returns [v]. *)
Theorem write_read_roundtrip s n w v :
  signal_width s n = Some w -> (1 <= w)%nat -> 0 <= v < 2 ^ Z.of_nat w ->
  exists s', _write_signal n v s = (s', Ok tt) /\
             _read_signal n s' = (s', Ok v).
Proof.
  intros W Hw Hv.
  destruct (write_then_read s n w v W Hw ltac:(lia))
    as (c & _ & H1 & _ & _ & _ & H2).
  eexists. split; [exact H1|].
  rewrite H2, Z.mod_small by assumption. reflexivity.
Qed.

(** C2. On a signal of width [w >= 1], as every port of a simulator
    has, writing [v >= 2^w] does not fail; the port then holds exactly
    the low [w] bits of [v], most significant first, so the width is kept
    and the signal reads as [v mod 2^w]. *)
Theorem write_truncates_to_width s n w v :
  signal_width s n = Some w -> (1 <= w)%nat -> 2 ^ Z.of_nat w <= v ->
  exists s' c,
    _write_signal n v s = (s', Ok tt) /\
    _find_signal n s' = (s', Ok c) /\
    get_port_value c s' = (s', Ok (low_bits w v)) /\
    signal_width s' n = Some w /\
    _read_signal n s' = (s', Ok (v mod 2 ^ Z.of_nat w)).
Proof.
  intros W Hw Hv.
  assert (Hv0 : 0 <= v).
  { pose proof (Z.pow_pos_nonneg 2 (Z.of_nat w)). lia. }
  destruct (write_then_read s n w v W Hw Hv0)
    as (c & _ & H1 & R & G & W' & H2).
  exists (written s c (render w v)), c.
  split; [exact H1|]. split.
  - rewrite find_signal_resolve, R. reflexivity.
  - split; [|split; assumption].
    unfold get_port_value. rewrite G, render_low_bits by assumption.
    reflexivity.
Qed.

(** C3. A write of a negative value to a signal raises the
    negative-value error and leaves the handle, ports and calls, as it
    was. *)
Theorem negative_write_rejected s n w v :
  signal_width s n = Some w -> v < 0 ->
  _write_signal n v s = (s, Raise NegativeValueUnsupportedError).
Proof.
  intros W Hv. apply signal_width_Some in W.
  destruct W as (c & pv & R & G & _).
  rewrite (write_signal_resolved s n c pv v R G).
  destruct (Z.ltb_spec v 0); [reflexivity|lia].
Qed.

(** Whatever the name, a write of a negative value fails and changes
    nothing. *)
Lemma negative_write_no_effect s n v :
  v < 0 -> exists e, _write_signal n v s = (s, Raise e).
Proof.
  intros Hv. destruct (signal_width s n) as [w|] eqn:W.
  - apply signal_width_Some in W. destruct W as (c & pv & R & G & _).
    rewrite (write_signal_resolved s n c pv v R G).
    destruct (Z.ltb_spec v 0); [eauto|lia].
  - eexists. apply write_signal_unresolved. assumption.
Qed.

End SignalAccessor.

(** On the example: the clock is found under its name and under its name
    in capitals, a name that matches in neither form is not found; a port
    with a capital in its name is found under that name only. *)
Lemma find_signal_exact_then_lowercase_witness :
  _find_signal "ap_clk" idle_sim = (idle_sim, Ok "ap_clk") /\
  _find_signal "AP_CLK" idle_sim = (idle_sim, Ok "ap_clk") /\
  _find_signal "Ap_Go" idle_sim
  = (idle_sim, Raise (SignalNotFoundError "Ap_Go")) /\
  _find_signal "Data" mixed_case_sim = (mixed_case_sim, Ok "Data") /\
  _find_signal "data" mixed_case_sim
  = (mixed_case_sim, Raise (SignalNotFoundError "data")).
Proof.
  split; [|split; [|split; [|split]]].
  - destruct (find_signal_exact_then_lowercase idle_sim "ap_clk")
      as (_ & _ & _ & H & _).
    apply H. vm_compute. auto.
  - destruct (find_signal_exact_then_lowercase idle_sim "AP_CLK")
      as (_ & _ & _ & _ & H & _).
    apply H; vm_compute; [intuition discriminate|auto].
  - destruct (find_signal_exact_then_lowercase idle_sim "Ap_Go")
      as (_ & _ & _ & _ & _ & H).
    apply H; vm_compute; intuition discriminate.
  - destruct (find_signal_exact_then_lowercase mixed_case_sim "Data")
      as (_ & _ & _ & H & _).
    apply H. vm_compute. auto.
  - destruct (find_signal_exact_then_lowercase mixed_case_sim "data")
      as (_ & _ & _ & _ & _ & H).
    apply H; vm_compute; intuition discriminate.
Defined.

(** A round trip on the eight-bit data port of the example. *)
Lemma write_read_roundtrip_witness :
  exists s', _write_signal "in0_V_V_TDATA" 165 idle_sim = (s', Ok tt) /\
             _read_signal "in0_V_V_TDATA" s' = (s', Ok 165).
Proof.
  apply (write_read_roundtrip idle_sim "in0_V_V_TDATA" 8 165).
  - reflexivity.
  - lia.
  - simpl. lia.
Defined.

(** 421 written to the eight-bit data port of the example. *)
Lemma write_truncates_to_width_witness :
  exists s' c,
    _write_signal "in0_V_V_TDATA" 421 idle_sim = (s', Ok tt) /\
    _find_signal "in0_V_V_TDATA" s' = (s', Ok c) /\
    get_port_value c s' = (s', Ok (low_bits 8 421)) /\
    signal_width s' "in0_V_V_TDATA" = Some 8%nat /\
    _read_signal "in0_V_V_TDATA" s' = (s', Ok (421 mod 2 ^ Z.of_nat 8)).
Proof.
  apply (write_truncates_to_width idle_sim "in0_V_V_TDATA" 8 421).
  - reflexivity.
  - lia.
  - simpl. lia.
Defined.

(** -1 written to the clock of the example, named in capitals. *)
Lemma negative_write_rejected_witness :
  _write_signal "AP_CLK" (-1) idle_sim
  = (idle_sim, Raise NegativeValueUnsupportedError).
Proof.
  apply (negative_write_rejected idle_sim "AP_CLK" 1 (-1)).
  - reflexivity.
  - lia.
Defined.

(** ** Port tables of a fixed shape *)

Lemma shape_keys (p : dict string) : map fst (shape p) = dict_keys p.
Proof. unfold shape, dict_keys. rewrite map_map. reflexivity. Qed.

Lemma shape_get (p : dict string) : forall q c,
  shape q = shape p ->
  option_map String.length (dict_get c q)
  = option_map String.length (dict_get c p).
Proof.
  induction p as [|[k v] r IH]; intros [|[k' v'] r'] c H; simpl in H;
    try discriminate; [reflexivity|].
  injection H as Hk Hv Hr. subst k'. simpl.
  destruct (String.eqb c k); simpl; [congruence|auto].
Qed.

Lemma shape_set (p : dict string) c v pv :
  dict_get c p = Some pv -> String.length v = String.length pv ->
  shape (dict_set c v p) = shape p.
Proof.
  induction p as [|[k v0] r IH]; simpl; [discriminate|].
  destruct (String.eqb c k); simpl.
  - intros H L. injection H as ->. rewrite L. reflexivity.
  - intros H L. f_equal. auto.
Qed.

Section Steady.
Context {K : Type}.
Implicit Types (s : XSI K) (n c : string).

Lemma signal_width_shape s s' n :
  shape (ports s') = shape (ports s) ->
  signal_width s' n = signal_width s n.
Proof.
  intros H. unfold signal_width. rewrite !find_signal_resolve.
  rewrite <- !shape_keys, H.
  destruct (resolve _ n); [|reflexivity].
  apply shape_get. assumption.
Qed.

Lemma run_advanced s t : run t s = (advanced s t, Ok tt).
Proof.
  unfold run, advanced. destruct (design s t (ports s) (kernel s)).
  reflexivity.
Qed.

Lemma advanced_shape s t :
  steady s -> shape (ports (advanced s t)) = shape (ports s).
Proof. intros H. apply H. Qed.

(** A write to a signal of width at least 1, spelled out. *)
Lemma write_signal_steady s n w v :
  signal_width s n = Some w -> (1 <= w)%nat -> 0 <= v ->
  exists c,
    resolve (dict_keys (ports s)) n = Ok c /\
    _write_signal n v s = (written s c (render w v), Ok tt) /\
    shape (ports (written s c (render w v))) = shape (ports s).
Proof.
  intros W Hw Hv.
  destruct (write_then_read s n w v W Hw Hv) as (c & R & H1 & _).
  exists c. split; [assumption|]. split; [assumption|].
  apply signal_width_Some in W. destruct W as (c' & pv & R' & G & L).
  assert (c' = c) by congruence. subst c'.
  simpl. eapply shape_set; eauto.
  rewrite L. apply render_spec; assumption.
Qed.

(** The falling edge, whatever the handle. *)
Lemma toggle_neg_edge_spec s clk :
  match signal_width s clk with
  | Some w =>
      exists c,
        resolve (dict_keys (ports s)) clk = Ok c /\
        toggle_neg_edge clk s
        = (advanced (written s c (zeros (Nat.max 1 w))) 5000, Ok tt)
  | None => toggle_neg_edge clk s = (s, Raise (SignalNotFoundError clk))
  end.
Proof.
  destruct (signal_width s clk) as [w|] eqn:W.
  - apply signal_width_Some in W. destruct W as (c & pv & R & G & L).
    exists c. split; [assumption|].
    unfold toggle_neg_edge, bind.
    rewrite (write_signal_resolved s clk c pv 0 R G).
    change (0 <? 0) with false. cbv iota.
    rewrite run_advanced, L, render_zero. reflexivity.
  - unfold toggle_neg_edge, bind.
    rewrite write_signal_unresolved by assumption. reflexivity.
Qed.

(** C9. The falling edge makes exactly two calls on the handle: it sets
    the resolved clock port to zeros and then advances time; every other
    port holds its old value when time advances. When the clock does not
    resolve it does nothing and raises. *)
Theorem neg_edge_writes_clock_only s clk :
  match signal_width s clk with
  | Some w =>
      exists c s1,
        _find_signal clk s = (s, Ok c) /\
        s1 = written s c (zeros (Nat.max 1 w)) /\
        dict_keys (ports s1) = dict_keys (ports s) /\
        (forall p, p <> c -> dict_get p (ports s1) = dict_get p (ports s)) /\
        toggle_neg_edge clk s = (advanced s1 5000, Ok tt) /\
        calls (advanced s1 5000)
        = (calls s ++ [SetPortValue c (zeros (Nat.max 1 w)); Run 5000])%list
  | None => toggle_neg_edge clk s = (s, Raise (SignalNotFoundError clk))
  end.
Proof.
  pose proof (toggle_neg_edge_spec s clk) as H.
  destruct (signal_width s clk) as [w|]; [|exact H].
  destruct H as (c & R & H).
  exists c, (written s c (zeros (Nat.max 1 w))).
  split; [rewrite find_signal_resolve, R; reflexivity|].
  split; [reflexivity|]. split.
  - apply written_keys. eapply resolve_In; eauto.
  - split; [|split; [exact H|]].
    + intros p Hp. simpl. apply dict_get_set_other. congruence.
    + simpl. rewrite <- app_assoc. reflexivity.
Qed.

End Steady.

(** The falling edge on the example. *)
Lemma neg_edge_writes_clock_only_witness :
  calls (fst (toggle_neg_edge "ap_clk" idle_sim))
  = [SetPortValue "ap_clk" "0"; Run 5000].
Proof.
  pose proof (neg_edge_writes_clock_only idle_sim "ap_clk") as H.
  change (signal_width idle_sim "ap_clk") with (Some 1%nat) in H.
  destruct H as (c & s1 & Hc & Hs & _ & _ & Ht & Hcalls).
  injection Hc as <-.
  rewrite Ht. simpl fst. rewrite Hcalls. reflexivity.
Defined.

(** ** The reset sequence *)

Section Reset.
Context {K : Type}.
Implicit Types (s : XSI K) (n c : string).

Lemma same_iface_refl s : same_iface s s.
Proof. split; reflexivity. Qed.

Lemma write_iface s0 s n w v :
  same_iface s0 s -> signal_width s0 n = Some w -> (1 <= w)%nat -> 0 <= v ->
  exists c,
    resolve (dict_keys (ports s0)) n = Ok c /\
    _write_signal n v s = (written s c (render w v), Ok tt) /\
    same_iface s0 (written s c (render w v)).
Proof.
  intros [Hs Hd] W Hw Hv.
  rewrite <- (signal_width_shape s0 s n Hs) in W.
  destruct (write_signal_steady s n w v W Hw Hv) as (c & R & H1 & H2).
  exists c. rewrite <- !shape_keys, Hs in R. rewrite <- shape_keys.
  split; [assumption|]. split; [assumption|].
  split; [congruence|assumption].
Qed.

Lemma run_iface s0 s t :
  steady s0 -> same_iface s0 s -> same_iface s0 (advanced s t).
Proof.
  intros St [Hs Hd]. split; [|assumption].
  cbn [advanced ports]. rewrite Hd, St. assumption.
Qed.

(** A full cycle without pending writes. *)
Lemma toggle_clk_empty s0 s clk c wc :
  steady s0 -> same_iface s0 s ->
  signal_width s0 clk = Some wc -> (1 <= wc)%nat ->
  resolve (dict_keys (ports s0)) clk = Ok c ->
  exists s',
    toggle_clk clk [] s = (s', Ok tt) /\
    same_iface s0 s' /\
    calls s' = (calls s ++ full_cycle c wc)%list.
Proof.
  intros St I W Hw R.
  destruct (write_iface s0 s clk wc 0 I W Hw ltac:(lia)) as (c1 & R1 & E1 & I1).
  assert (c1 = c) by congruence. subst c1.
  pose proof (run_iface s0 _ 5000 St I1) as I2.
  destruct (write_iface s0 _ clk wc 1 I2 W Hw ltac:(lia)) as (c2 & R2 & E2 & I3).
  assert (c2 = c) by congruence. subst c2.
  pose proof (run_iface s0 _ 5000 St I3) as I4.
  eexists. split; [|split; [exact I4|]].
  - unfold toggle_clk, toggle_neg_edge, toggle_pos_edge, comb_update_and_trace,
      bind, ret.
    rewrite E1, run_advanced, E2, run_advanced. reflexivity.
  - simpl. rewrite <- !app_assoc. reflexivity.
Qed.

(** A full cycle with one pending write, applied after the rising edge. *)
Lemma toggle_clk_single s0 s clk c wc sig r wr v :
  steady s0 -> same_iface s0 s ->
  signal_width s0 clk = Some wc -> (1 <= wc)%nat ->
  resolve (dict_keys (ports s0)) clk = Ok c ->
  signal_width s0 sig = Some wr -> (1 <= wr)%nat ->
  resolve (dict_keys (ports s0)) sig = Ok r ->
  0 <= v ->
  exists s',
    toggle_clk clk [(sig, v)] s = (s', Ok tt) /\
    same_iface s0 s' /\
    calls s'
    = (calls s ++ full_cycle c wc ++ [SetPortValue r (render wr v)])%list.
Proof.
  intros St I W Hw R W' Hw' R' Hv.
  destruct (write_iface s0 s clk wc 0 I W Hw ltac:(lia)) as (c1 & R1 & E1 & I1).
  assert (c1 = c) by congruence. subst c1.
  pose proof (run_iface s0 _ 5000 St I1) as I2.
  destruct (write_iface s0 _ clk wc 1 I2 W Hw ltac:(lia)) as (c2 & R2 & E2 & I3).
  assert (c2 = c) by congruence. subst c2.
  pose proof (run_iface s0 _ 5000 St I3) as I4.
  destruct (write_iface s0 _ sig wr v I4 W' Hw' Hv) as (r1 & R3 & E3 & I5).
  assert (r1 = r) by congruence. subst r1.
  eexists. split; [|split; [exact I5|]].
  - unfold toggle_clk, toggle_neg_edge, toggle_pos_edge, comb_update_and_trace,
      bind, ret.
    rewrite E1, run_advanced, E2, run_advanced.
    unfold apply_writes. cbn [dict_keys map fst for_each dict_get].
    rewrite String.eqb_refl.
    unfold bind. rewrite E3. reflexivity.
  - simpl. rewrite <- !app_assoc. reflexivity.
Qed.

(** C8. On a steady simulator whose clock and reset signals have at least
    one bit, the reset sequence runs to its end and makes these calls, in
    this order: clock low, reset at its asserted level; two full cycles;
    a third full cycle followed, after its rising edge, by the write of
    the deasserted level to reset; a fourth full cycle. *)
Theorem reset_sequence s rst active_low clk wc wr :
  steady s ->
  signal_width s clk = Some wc -> (1 <= wc)%nat ->
  signal_width s rst = Some wr -> (1 <= wr)%nat ->
  exists c r s',
    _find_signal clk s = (s, Ok c) /\
    _find_signal rst s = (s, Ok r) /\
    reset_rtlsim rst active_low clk s = (s', Ok tt) /\
    calls s'
    = (calls s
       ++ [SetPortValue c (render wc 0);
           SetPortValue r (render wr (if active_low then 0 else 1))]
       ++ full_cycle c wc
       ++ full_cycle c wc
       ++ full_cycle c wc
       ++ [SetPortValue r (render wr (if active_low then 1 else 0))]
       ++ full_cycle c wc)%list.
Proof.
  intros St Wc Hwc Wr Hwr.
  assert (Ha : 0 <= (if active_low then 0 else 1)) by (destruct active_low; lia).
  assert (Hd : 0 <= (if active_low then 1 else 0)) by (destruct active_low; lia).
  destruct (write_iface s s clk wc 0 (same_iface_refl s) Wc Hwc ltac:(lia))
    as (c & Rc & E1 & I1).
  destruct (write_iface s _ rst wr _ I1 Wr Hwr Ha) as (r & Rr & E2 & I2).
  destruct (toggle_clk_empty s _ clk c wc St I2 Wc Hwc Rc) as (s3 & E3 & I3 & C3).
  destruct (toggle_clk_empty s _ clk c wc St I3 Wc Hwc Rc) as (s4 & E4 & I4 & C4).
  destruct (toggle_clk_single s _ clk c wc rst r wr _ St I4 Wc Hwc Rc Wr Hwr Rr Hd)
    as (s5 & E5 & I5 & C5).
  destruct (toggle_clk_empty s _ clk c wc St I5 Wc Hwc Rc) as (s6 & E6 & I6 & C6).
  exists c, r, s6.
  split; [rewrite find_signal_resolve, Rc; reflexivity|].
  split; [rewrite find_signal_resolve, Rr; reflexivity|].
  split.
  - unfold reset_rtlsim, bind.
    rewrite E1, E2. cbn [seq for_each]. unfold bind.
    rewrite E3, E4. unfold ret. cbn [dict_set].
    rewrite E5, E6. reflexivity.
  - rewrite C6, C5, C4, C3. simpl. rewrite <- !app_assoc. reflexivity.
Qed.

End Reset.

Lemma idle_sim_steady : steady idle_sim.
Proof. intros t p k. reflexivity. Qed.

(** The reset of the example, active low. *)
Lemma reset_sequence_witness :
  exists s',
    reset_rtlsim "ap_rst_n" true "ap_clk" idle_sim = (s', Ok tt) /\
    calls s'
    = [SetPortValue "ap_clk" "0"; SetPortValue "ap_rst_n" "0";
       SetPortValue "ap_clk" "0"; Run 5000; SetPortValue "ap_clk" "1"; Run 5000;
       SetPortValue "ap_clk" "0"; Run 5000; SetPortValue "ap_clk" "1"; Run 5000;
       SetPortValue "ap_clk" "0"; Run 5000; SetPortValue "ap_clk" "1"; Run 5000;
       SetPortValue "ap_rst_n" "1";
       SetPortValue "ap_clk" "0"; Run 5000; SetPortValue "ap_clk" "1"; Run 5000].
Proof.
  destruct (reset_sequence idle_sim "ap_rst_n" true "ap_clk" 1 1
              idle_sim_steady eq_refl (le_n 1) eq_refl (le_n 1))
    as (c & r & s' & Hc & Hr & H & Hcalls).
  injection Hc as <-. injection Hr as <-.
  exists s'. split; [exact H|exact Hcalls].
Defined.

(** ** Properties kept by a computation, whatever its outcome *)

Section Keeps.
Context {S : Type}.

Lemma keeps_ret {A : Type} (P : S -> Prop) (a : A) : keeps P (ret a).
Proof. intros s H. exact H. Qed.

Lemma keeps_raise {A : Type} (P : S -> Prop) e : keeps P (@raise S A e).
Proof. intros s H. exact H. Qed.

Lemma keeps_bind {A B : Type} (P : S -> Prop) (m : M S A) (k : A -> M S B) :
  keeps P m -> (forall a, keeps P (k a)) -> keeps P (bind m k).
Proof.
  intros Hm Hk s H. unfold bind. specialize (Hm s H).
  destruct (m s) as [s' [a|e]]; simpl in *; [apply Hk|]; assumption.
Qed.

Lemma keeps_for_each {X : Type} (P : S -> Prop) (xs : list X)
    (body : X -> M S unit) :
  (forall x, In x xs -> keeps P (body x)) -> keeps P (for_each xs body).
Proof.
  induction xs as [|x r IH]; intros H; simpl.
  - apply keeps_ret.
  - apply keeps_bind; [apply H; left; reflexivity|].
    intros _. apply IH. intros y Hy. apply H. right. assumption.
Qed.

Lemma keeps_if {A : Type} (P : S -> Prop) (b : bool) (m1 m2 : M S A) :
  keeps P m1 -> keeps P m2 -> keeps P (if b then m1 else m2).
Proof. destruct b; auto. Qed.
End Keeps.

(** ** The engine *)

Section EngineFacts.
Context {K : Type}.
Implicit Types (f g : frame K) (s : XSI K).

Lemma set_sim_same f : set_sim f (sim f) = f.
Proof. destruct f; reflexivity. Qed.

(** A call on the handle keeps whatever does not look at the handle. *)
Lemma keeps_on_sim {A : Type} (P : frame K -> Prop) (m : M (XSI K) A) :
  (forall f s, P f -> P (set_sim f s)) -> keeps P (on_sim m).
Proof.
  intros H f Hf. unfold on_sim. destruct (m (sim f)) as [s r]. simpl. auto.
Qed.

Lemma keeps_call_hook (P : frame K -> Prop) h :
  (forall f s, P f -> P (set_sim f s)) -> keeps P (call_hook h).
Proof.
  intros H. destruct h; simpl; [apply keeps_on_sim; assumption|apply keeps_ret].
Qed.

Lemma keeps_load_input {A : Type} (P : frame K -> Prop) inp
    (k : list Z -> M (frame K) A) :
  (forall q, keeps P (k q)) -> keeps P (bind (load_input inp) k).
Proof.
  intros H f Hf. unfold bind, load_input.
  destruct (dict_get inp (inputs (io_dict f))); [apply H|]; assumption.
Qed.

Lemma keeps_load_output {A : Type} (P : frame K -> Prop) outp
    (k : list Z -> M (frame K) A) :
  (forall q, keeps P (k q)) -> keeps P (bind (load_output outp) k).
Proof.
  intros H f Hf. unfold bind, load_output.
  destruct (dict_get outp (outputs (io_dict f))); [apply H|]; assumption.
Qed.

(** Reads leave the handle as it is. *)
Lemma handshake_pure n s : fst (handshake n s) = s.
Proof.
  unfold handshake, bind.
  pose proof (read_signal_pure (n ++ "TREADY") s) as H1.
  destruct (_read_signal (n ++ "TREADY") s) as [s1 [z|e]]; simpl in H1; subst s1;
    [|reflexivity].
  destruct (z =? 1); [|reflexivity].
  pose proof (read_signal_pure (n ++ "TVALID") s) as H2.
  destruct (_read_signal (n ++ "TVALID") s) as [s2 [z2|e2]]; simpl in H2; subst s2;
    reflexivity.
Qed.

Lemma handshake_true n s :
  handshake n s = (s, Ok true) <->
  _read_signal (n ++ "TREADY") s = (s, Ok 1) /\
  _read_signal (n ++ "TVALID") s = (s, Ok 1).
Proof.
  unfold handshake, bind.
  pose proof (read_signal_pure (n ++ "TREADY") s) as H1.
  pose proof (read_signal_pure (n ++ "TVALID") s) as H2.
  destruct (_read_signal (n ++ "TREADY") s) as [s1 [z|e]]; simpl in H1; subst s1.
  - destruct (Z.eqb_spec z 1) as [->|N].
    + destruct (_read_signal (n ++ "TVALID") s) as [s2 [z2|e2]]; simpl in H2;
        subst s2.
      * unfold ret. destruct (Z.eqb_spec z2 1) as [->|N2]; split; auto.
        -- intros H. discriminate.
        -- intros [_ H]. congruence.
      * split; [discriminate|]. intros [_ H]. discriminate.
    + unfold ret. split; [discriminate|]. intros [H _]. congruence.
  - split; [discriminate|]. intros [H _]. discriminate.
Qed.

Lemma on_sim_pure {A : Type} (m : M (XSI K) A) f :
  fst (m (sim f)) = sim f -> on_sim m f = (f, snd (m (sim f))).
Proof.
  unfold on_sim. destruct (m (sim f)) as [s r]. simpl. intros ->.
  rewrite set_sim_same. reflexivity.
Qed.

End EngineFacts.

Section CycleFacts.
Context {K : Type}.
Implicit Types (f g : frame K) (s : XSI K).

(** *** The blocks of a cycle, spelled out *)

Lemma read_input_eq sname inp f :
  read_input sname inp f =
  match dict_get inp (inputs (io_dict f)) with
  | None => (f, Raise (KeyError inp))
  | Some q =>
      match snd (handshake (inp ++ sname) (sim f)) with
      | Ok b =>
          (set_io_dict f (mkIo (dict_set inp (if b then tl q else q)
                                         (inputs (io_dict f)))
                               (outputs (io_dict f))), Ok tt)
      | Raise e => (f, Raise e)
      end
  end.
Proof.
  unfold read_input, bind, load_input.
  destruct (dict_get inp (inputs (io_dict f))) as [q|]; [|reflexivity].
  rewrite (on_sim_pure _ f (handshake_pure _ _)).
  destruct (snd (handshake (inp ++ sname) (sim f))); reflexivity.
Qed.

Lemma read_output_eq sname outp f :
  read_output sname outp f =
  match dict_get outp (outputs (io_dict f)) with
  | None => (f, Raise (KeyError outp))
  | Some q =>
      match snd (handshake (outp ++ sname) (sim f)) with
      | Ok true =>
          match snd (_read_signal ((outp ++ sname) ++ "TDATA") (sim f)) with
          | Ok word =>
              (set_io_dict (set_output_count f (output_count f + 1))
                 (mkIo (inputs (io_dict f))
                       (dict_set outp (q ++ [word])%list (outputs (io_dict f)))),
               Ok tt)
          | Raise e => (f, Raise e)
          end
      | Ok false =>
          (set_io_dict f (mkIo (inputs (io_dict f))
                               (dict_set outp q (outputs (io_dict f)))), Ok tt)
      | Raise e => (f, Raise e)
      end
  end.
Proof.
  unfold read_output, bind, load_output.
  destruct (dict_get outp (outputs (io_dict f))) as [q|]; [|reflexivity].
  rewrite (on_sim_pure _ f (handshake_pure _ _)).
  destruct (snd (handshake (outp ++ sname) (sim f))) as [[|]|e]; try reflexivity.
  rewrite (on_sim_pure _ f (read_signal_pure _ _)).
  destruct (snd (_read_signal ((outp ++ sname) ++ "TDATA") (sim f))); reflexivity.
Qed.

Lemma stage_input_eq sname inp f :
  stage_input sname inp f =
  match dict_get inp (inputs (io_dict f)) with
  | None => (f, Raise (KeyError inp))
  | Some q =>
      (set_signals_to_write f
         (dict_set ((inp ++ sname) ++ "TDATA")
                   (if 0 <? Z.of_nat (List.length q) then hd 0 q else 0)
                   (dict_set ((inp ++ sname) ++ "TVALID")
                             (if 0 <? Z.of_nat (List.length q) then 1 else 0)
                             (signals_to_write f))), Ok tt)
  end.
Proof.
  unfold stage_input, bind, load_input.
  destruct (dict_get inp (inputs (io_dict f))); reflexivity.
Qed.

(** *** What the phases of a cycle keep *)

Lemma keeps_read_inputs (P : frame K -> Prop) sname :
  (forall f d, P f -> P (set_io_dict f d)) -> keeps P (read_inputs sname).
Proof.
  intros H f Hf. unfold read_inputs.
  apply keeps_for_each; [|assumption].
  intros inp _ g Hg. rewrite read_input_eq.
  destruct (dict_get inp _); [|assumption].
  destruct (snd (handshake _ _)); simpl; auto.
Qed.

Lemma keeps_read_outputs (P : frame K -> Prop) sname :
  (forall f d, P f -> P (set_io_dict f d)) ->
  (forall f, P f -> P (set_output_count f (output_count f + 1))) ->
  keeps P (read_outputs sname).
Proof.
  intros H H' f Hf. unfold read_outputs.
  apply keeps_for_each; [|assumption].
  intros outp _ g Hg. rewrite read_output_eq.
  destruct (dict_get outp _); [|assumption].
  destruct (snd (handshake _ _)) as [[|]|e]; simpl; auto.
  destruct (snd (_read_signal _ _)); simpl; auto.
Qed.

Lemma keeps_stage_inputs (P : frame K -> Prop) sname :
  (forall f d, P f -> P (set_signals_to_write f d)) ->
  keeps P (stage_inputs sname).
Proof.
  intros H f Hf. unfold stage_inputs.
  apply keeps_for_each; [|assumption].
  intros inp _ g Hg. rewrite stage_input_eq.
  destruct (dict_get inp _); simpl; auto.
Qed.

Lemma keeps_pos_edge (P : frame K -> Prop) :
  (forall f s, P f -> P (set_sim f s)) ->
  keeps P (fun f => on_sim (toggle_pos_edge "ap_clk" (signals_to_write f)) f).
Proof. intros H f Hf. apply (keeps_on_sim P _ H f Hf). Qed.

Lemma keeps_phases (P : frame K -> Prop) sname h1 h2 :
  (forall f s, P f -> P (set_sim f s)) ->
  (forall f d, P f -> P (set_io_dict f d)) ->
  (forall f d, P f -> P (set_signals_to_write f d)) ->
  (forall f, P f -> P (set_output_count f (output_count f + 1))) ->
  keeps P (phases sname h1 h2).
Proof.
  intros Hs Hio Hw Hc. unfold phases.
  apply keeps_bind; [apply keeps_call_hook; assumption|intros _].
  apply keeps_bind; [apply keeps_on_sim; assumption|intros _].
  apply keeps_bind; [apply keeps_read_inputs; assumption|intros _].
  apply keeps_bind; [apply keeps_read_outputs; assumption|intros _].
  apply keeps_bind; [apply keeps_stage_inputs; assumption|intros _].
  apply keeps_bind; [apply keeps_pos_edge; assumption|intros _].
  apply keeps_call_hook; assumption.
Qed.

(** The phases leave the flag and the three cycle counters alone, and the
    output word count never goes down. *)
Lemma phases_counters sname h1 h2 f :
  let f' := fst (phases sname h1 h2 f) in
  output_done f' = output_done f /\
  total_cycle_count f' = total_cycle_count f /\
  old_output_count f' = old_output_count f /\
  no_change_count f' = no_change_count f /\
  output_count f <= output_count f'.
Proof.
  apply (keeps_phases
           (fun g => output_done g = output_done f /\
                     total_cycle_count g = total_cycle_count f /\
                     old_output_count g = old_output_count f /\
                     no_change_count g = no_change_count f /\
                     output_count f <= output_count g)).
  - intros g s H. exact H.
  - intros g d H. exact H.
  - intros g d H. exact H.
  - intros g (H1 & H2 & H3 & H4 & H5). simpl. repeat split; auto; lia.
  - repeat split; auto; lia.
Qed.

(** *** The bookkeeping, spelled out *)

Lemma bookkeeping_spec num t f :
  bookkeeping num t f =
  (mkFrame (sim f) (io_dict f)
           (if output_count f =? num then true else output_done f)
           (total_cycle_count f + 1) (output_count f) (output_count f)
           (next_no_change f) (signals_to_write f),
   if next_no_change f =? t then Raise SimulationStalledError else Ok tt).
Proof.
  unfold bookkeeping, bind, count_cycle, update_liveness, check_done,
    check_timeout, next_no_change.
  destruct f as [s d dn tot oc old ncc stw]. cbn -[Z.eqb Z.add].
  destruct (Z.eqb_spec oc old) as [E|N]; [subst oc|]; cbn -[Z.eqb Z.add];
    repeat match goal with
           | |- context [?a =? ?b] => destruct (a =? b); cbn -[Z.eqb Z.add]
           end; reflexivity.
Qed.

Lemma cycle_after_phases num sname t h1 h2 f f1 :
  phases sname h1 h2 f = (f1, Ok tt) ->
  cycle num sname t h1 h2 f = bookkeeping num t f1.
Proof. intros H. unfold cycle, bind. rewrite H. reflexivity. Qed.

Lemma cycle_phases_raise num sname t h1 h2 f f1 e :
  phases sname h1 h2 f = (f1, Raise e) ->
  cycle num sname t h1 h2 f = (f1, Raise e).
Proof. intros H. unfold cycle, bind. rewrite H. reflexivity. Qed.

(** *** The loop *)

Lemma while_loop_done fuel body f :
  output_done f = true ->
  while_loop fuel body f = (f, Returned (total_cycle_count f)).
Proof. intros H. destruct fuel; simpl; rewrite H; reflexivity. Qed.

Lemma while_loop_step fuel body f f' :
  output_done f = false -> body f = (f', Ok tt) ->
  while_loop (S fuel) body f = while_loop fuel body f'.
Proof. intros H E. simpl. rewrite H, E. reflexivity. Qed.

Lemma while_loop_raise fuel body f f' e :
  output_done f = false -> body f = (f', Raise e) ->
  while_loop (S fuel) body f = (f', Raised e).
Proof. intros H E. simpl. rewrite H, E. reflexivity. Qed.

End CycleFacts.

(** ** The liveness counter *)

Section Liveness.
Context {K : Type}.
Variables (num : Z) (sname : string) (t : Z).
Variables (h1 h2 : option (M (XSI K) unit)).
Implicit Types (f g : frame K) (s : XSI K).

(** The frame that [setup] leaves has the counters of the entry. *)
Lemma setup_counters s d :
  let f0 := fst (setup sname (entry s d)) in
  output_done f0 = false /\ total_cycle_count f0 = 0 /\
  output_count f0 = 0 /\ old_output_count f0 = 0 /\
  no_change_count f0 = 0 /\ io_dict f0 = d /\ signals_to_write f0 = [].
Proof.
  unfold setup.
  apply (keeps_for_each
           (fun g : frame K =>
              output_done g = false /\ total_cycle_count g = 0 /\
              output_count g = 0 /\ old_output_count g = 0 /\
              no_change_count g = 0 /\ io_dict g = d /\
              signals_to_write g = [])).
  - intros outp _. apply keeps_on_sim. intros g s' H. exact H.
  - repeat split.
Qed.

(** One cycle whose phases ran to their end. *)
Lemma cycle_counters f f1 :
  phases sname h1 h2 f = (f1, Ok tt) ->
  exists f',
    cycle num sname t h1 h2 f = (f', if next_no_change f1 =? t
                  then Raise SimulationStalledError else Ok tt) /\
    sim f' = sim f1 /\ io_dict f' = io_dict f1 /\
    signals_to_write f' = signals_to_write f1 /\
    output_done f' = (if output_count f1 =? num then true else output_done f) /\
    total_cycle_count f' = total_cycle_count f + 1 /\
    output_count f' = output_count f1 /\
    old_output_count f' = output_count f1 /\
    no_change_count f' = next_no_change f1 /\
    next_no_change f1
    = (if output_count f1 =? old_output_count f
       then no_change_count f + 1 else 0).
Proof.
  intros H. pose proof (phases_counters sname h1 h2 f) as C.
  rewrite H in C. simpl in C. destruct C as (C1 & C2 & C3 & C4 & C5).
  rewrite (cycle_after_phases num sname t h1 h2 f f1 H), bookkeeping_spec.
  eexists. split; [reflexivity|]. cbn [sim io_dict signals_to_write output_done
    total_cycle_count output_count old_output_count no_change_count].
  rewrite C1, C2. unfold next_no_change. rewrite C3, C4. repeat split.
Qed.

Lemma cycle_ok_phases f f' :
  cycle num sname t h1 h2 f = (f', Ok tt) ->
  exists f1, phases sname h1 h2 f = (f1, Ok tt).
Proof.
  unfold cycle, bind. destruct (phases sname h1 h2 f) as [f1 [[]|e]].
  - eauto.
  - discriminate.
Qed.

Lemma cycle_keeps_counters_ok f f' :
  1 <= t -> counters_ok t f ->
  cycle num sname t h1 h2 f = (f', Ok tt) -> counters_ok t f'.
Proof.
  intros Ht [Hold Hn] E.
  destruct (cycle_ok_phases f f' E) as [f1 Hp].
  destruct (cycle_counters f f1 Hp)
    as (g & Eg & _ & _ & _ & _ & _ & Hc & Ho & Hncc & Hnext).
  rewrite E in Eg. injection Eg as <- Er.
  split; [congruence|]. rewrite Hncc.
  destruct (Z.eqb_spec (next_no_change f1) t); [discriminate|].
  rewrite Hnext in *. destruct (output_count f1 =? old_output_count f); lia.
Qed.

Lemma iterate_counters_ok k : forall f fk,
  1 <= t -> counters_ok t f ->
  iterate k (cycle num sname t h1 h2) f = Some fk ->
  counters_ok t fk.
Proof.
  induction k as [|k IH]; intros f fk Ht Hf E; simpl in E.
  - injection E as <-. assumption.
  - destruct (output_done f); [discriminate|].
    destruct (cycle num sname t h1 h2 f) as [f' [[]|e]] eqn:B; [|discriminate].
    apply (IH f' fk Ht); [|assumption].
    eapply cycle_keeps_counters_ok; eauto.
Qed.

Lemma iterate_S k f f' :
  output_done f = false -> cycle num sname t h1 h2 f = (f', Ok tt) ->
  iterate (S k) (cycle num sname t h1 h2) f
  = iterate k (cycle num sname t h1 h2) f'.
Proof. intros H E. simpl. rewrite H, E. reflexivity. Qed.

(** A run of no-progress cycles ends in the stall error when the counter
    reaches the threshold. *)
Lemma stall_after m : forall fuel f,
  Z.of_nat (S m) = t - no_change_count f ->
  output_done f = false -> counters_ok t f -> output_count f <> num ->
  (forall k fk, (k < S m)%nat ->
                iterate k (cycle num sname t h1 h2) f = Some fk ->
                no_progress sname h1 h2 fk) ->
  (S m <= fuel)%nat ->
  exists f',
    while_loop fuel (cycle num sname t h1 h2) f
    = (f', Raised SimulationStalledError) /\
    total_cycle_count f' = total_cycle_count f + Z.of_nat (S m) /\
    no_change_count f' = t.
Proof.
  induction m as [|m IH]; intros fuel f Hm Hd [Hold Hn] Hnum Hq Hfuel;
    (destruct fuel as [|fuel]; [lia|]);
    destruct (Hq 0%nat f ltac:(lia) eq_refl) as (f1 & Hp & Hsame);
    destruct (cycle_counters f f1 Hp)
      as (g & Eg & _ & _ & _ & Hdone & Htot & Hc & Ho & Hncc & Hnext);
    rewrite Hsame, Hold, Z.eqb_refl in Hnext.
  - assert (E : next_no_change f1 = t) by lia.
    rewrite E, Z.eqb_refl in Eg.
    exists g. split; [apply while_loop_raise; assumption|].
    split; [lia|congruence].
  - destruct (Z.eqb_spec (next_no_change f1) t) as [E|N]; [lia|].
    assert (Hdg : output_done g = false).
    { rewrite Hdone, Hsame. destruct (Z.eqb_spec (output_count f) num);
        [contradiction|assumption]. }
    destruct (IH fuel g) as (f' & Ew & Etot & En).
    + lia.
    + assumption.
    + split; [congruence|lia].
    + congruence.
    + intros k fk Hk Ek. apply (Hq (S k) fk ltac:(lia)).
      rewrite (iterate_S k f g Hd Eg). assumption.
    + lia.
    + exists f'. split; [|split; [lia|assumption]].
      rewrite (while_loop_step fuel (cycle num sname t h1 h2) f g Hd Eg).
      assumption.
Qed.

(** C5. With a threshold [t >= 1]: in a cycle the no-progress counter goes
    up by one when the output word count did not increase and back to
    zero when it did, and the cycle raises the stall error exactly when
    the counter has reached [t]; at every start of a cycle of a run the
    counter is below [t]; so a run of no-progress cycles raises on the
    cycle that brings the counter to [t], and from the entry of the
    engine, with a target other than 0, that is after exactly [t]
    cycles. *)
Theorem liveness_counter :
  1 <= t ->
  (forall f f1,
      counters_ok t f -> phases sname h1 h2 f = (f1, Ok tt) ->
      exists f' r,
        cycle num sname t h1 h2 f = (f', r) /\
        no_change_count f'
        = (if output_count f1 =? output_count f
           then no_change_count f + 1 else 0) /\
        r = (if no_change_count f' =? t
             then Raise SimulationStalledError else Ok tt) /\
        (r = Ok tt -> counters_ok t f')) /\
  (forall s d f0 k fk,
      setup sname (entry s d) = (f0, Ok tt) ->
      iterate k (cycle num sname t h1 h2) f0 = Some fk -> counters_ok t fk) /\
  (forall fuel f,
      output_done f = false -> counters_ok t f -> output_count f <> num ->
      (forall k fk, Z.of_nat k < t - no_change_count f ->
                    iterate k (cycle num sname t h1 h2) f = Some fk ->
                    no_progress sname h1 h2 fk) ->
      (Z.to_nat (t - no_change_count f) <= fuel)%nat ->
      exists f',
        while_loop fuel (cycle num sname t h1 h2) f
        = (f', Raised SimulationStalledError) /\
        total_cycle_count f'
        = total_cycle_count f + (t - no_change_count f) /\
        no_change_count f' = t) /\
  (forall fuel s d f0,
      num <> 0 ->
      setup sname (entry s d) = (f0, Ok tt) ->
      (forall k fk, Z.of_nat k < t ->
                    iterate k (cycle num sname t h1 h2) f0 = Some fk ->
                    no_progress sname h1 h2 fk) ->
      (Z.to_nat t <= fuel)%nat ->
      exists f',
        rtlsim_multi_io fuel s d num sname t h1 h2
        = (f', Raised SimulationStalledError) /\
        total_cycle_count f' = t).
Proof.
  intros Ht.
  assert (P3 : forall fuel f,
      output_done f = false -> counters_ok t f -> output_count f <> num ->
      (forall k fk, Z.of_nat k < t - no_change_count f ->
                    iterate k (cycle num sname t h1 h2) f = Some fk ->
                    no_progress sname h1 h2 fk) ->
      (Z.to_nat (t - no_change_count f) <= fuel)%nat ->
      exists f',
        while_loop fuel (cycle num sname t h1 h2) f
        = (f', Raised SimulationStalledError) /\
        total_cycle_count f'
        = total_cycle_count f + (t - no_change_count f) /\
        no_change_count f' = t).
  { intros fuel f Hd Hc Hnum Hq Hfuel.
    pose proof Hc as [_ Hn].
    destruct (Z.to_nat (t - no_change_count f)) as [|m] eqn:Em; [lia|].
    destruct (stall_after m fuel f ltac:(lia) Hd Hc Hnum) as (f' & E1 & E2 & E3).
    - intros k fk Hk. apply Hq. lia.
    - assumption.
    - exists f'. split; [assumption|]. split; [lia|assumption]. }
  split; [|split; [|split; [exact P3|]]].
  - intros f f1 [Hold Hn] Hp.
    destruct (cycle_counters f f1 Hp)
      as (g & Eg & _ & _ & _ & _ & _ & Hc & Ho & Hncc & Hnext).
    exists g, (if next_no_change f1 =? t
               then Raise SimulationStalledError else Ok tt).
    split; [assumption|]. rewrite Hncc, Hnext, Hold.
    split; [reflexivity|]. split; [reflexivity|].
    intros Hr. split; [congruence|]. rewrite Hncc, Hnext, Hold.
    destruct (Z.eqb_spec
                (if output_count f1 =? output_count f
                 then no_change_count f + 1 else 0) t); [discriminate|].
    destruct (output_count f1 =? output_count f); lia.
  - intros s d f0 k fk Hs Hk.
    pose proof (setup_counters s d) as C. rewrite Hs in C. simpl in C.
    destruct C as (_ & _ & C3 & C4 & C5 & _).
    eapply iterate_counters_ok; eauto. split; [congruence|lia].
  - intros fuel s d f0 Hnum Hs Hq Hfuel.
    pose proof (setup_counters s d) as C. rewrite Hs in C. simpl in C.
    destruct C as (C1 & C2 & C3 & C4 & C5 & _).
    destruct (P3 fuel f0) as (f' & E1 & E2 & E3).
    + assumption.
    + split; [congruence|lia].
    + congruence.
    + intros k fk Hk. apply Hq. lia.
    + rewrite C5, Z.sub_0_r. assumption.
    + exists f'. unfold rtlsim_multi_io. rewrite Hs.
      split; [assumption|lia].
Qed.

End Liveness.

(** Threshold 3 on the design that never reacts: the first cycle brings the
    no-progress counter to 1, and the call raises with the cycle counter
    at 3. *)
Lemma liveness_counter_witness :
  (exists (f' : frame unit) r,
      cycle 2 "_V_V_" 3 None None
        (fst (setup "_V_V_" (entry idle_sim stream_io))) = (f', r) /\
      no_change_count f' = 1 /\ r = Ok tt) /\
  (exists f' : frame unit,
      rtlsim_multi_io 3 idle_sim stream_io 2 "_V_V_" 3 None None
      = (f', Raised SimulationStalledError) /\
      total_cycle_count f' = 3).
Proof.
  destruct (liveness_counter (K := unit) 2 "_V_V_" 3 None None ltac:(lia))
    as (H1 & _ & _ & H4).
  pose (f0 := fst (setup "_V_V_" (entry idle_sim stream_io))).
  split.
  - destruct (H1 f0 (fst (phases "_V_V_" None None f0)))
      as (f' & r & E & Hn & Hr & _).
    + split; [reflexivity|]. simpl. lia.
    + vm_compute. reflexivity.
    + assert (Hn' : no_change_count f' = 1)
        by (rewrite Hn; vm_compute; reflexivity).
      exists f', r. split; [exact E|]. split; [exact Hn'|].
      rewrite Hn' in Hr. exact Hr.
  - apply (H4 3%nat idle_sim stream_io f0).
    + lia.
    + reflexivity.
    + intros k fk Hk E.
      destruct k as [|[|[|k]]]; [| | |lia];
        vm_compute in E; injection E as <-;
        (eexists; split; [vm_compute; reflexivity|reflexivity]).
    + simpl. lia.
Defined.

(** ** The cycle counter *)

Section Counter.
Context {K : Type}.
Variables (num : Z) (sname : string) (t : Z).
Variables (h1 h2 : option (M (XSI K) unit)).
Implicit Types (f g : frame K) (s : XSI K).

Lemma cycle_ok_total f f' :
  cycle num sname t h1 h2 f = (f', Ok tt) ->
  total_cycle_count f' = total_cycle_count f + 1 /\
  (output_done f = false -> output_done f' = true -> output_count f' = num).
Proof.
  intros E. destruct (cycle_ok_phases num sname t h1 h2 f f' E) as [f1 Hp].
  destruct (cycle_counters num sname t h1 h2 f f1 Hp)
    as (g & Eg & _ & _ & _ & Hdone & Htot & Hc & _).
  rewrite E in Eg. injection Eg as <- _.
  split; [assumption|]. intros Hd Hd'. rewrite Hdone, Hd in Hd'.
  destruct (Z.eqb_spec (output_count f1) num); [congruence|discriminate].
Qed.

(** A loop that returns has run some number of iterations to their end,
    and returns the counter, which went up by that number. *)
Lemma while_loop_returned fuel : forall f f' n,
  while_loop fuel (cycle num sname t h1 h2) f = (f', Returned n) ->
  exists k,
    (k <= fuel)%nat /\ iterate k (cycle num sname t h1 h2) f = Some f' /\
    n = total_cycle_count f + Z.of_nat k /\ n = total_cycle_count f' /\
    output_done f' = true /\
    (output_done f = false -> (1 <= k)%nat /\ output_count f' = num).
Proof.
  induction fuel as [|fuel IH]; intros f f' n E; simpl in E.
  - destruct (output_done f) eqn:D; [|discriminate].
    injection E as <- <-. exists 0%nat.
    repeat split; auto; try lia; discriminate.
  - destruct (output_done f) eqn:D.
    + injection E as <- <-. exists 0%nat.
      repeat split; auto; try lia; discriminate.
    + destruct (cycle num sname t h1 h2 f) as [f1 [[]|e]] eqn:B; [|discriminate].
      destruct (IH f1 f' n E) as (k & Hk & Hi & Hn & Hn' & Hd & Hc).
      destruct (cycle_ok_total f f1 B) as [Ht Hdn].
      exists (S k). split; [lia|]. split.
      { simpl. rewrite D, B. assumption. }
      split; [lia|]. split; [assumption|]. split; [assumption|].
      intros _. split; [lia|].
      destruct (output_done f1) eqn:D1.
      * rewrite (while_loop_done fuel (cycle num sname t h1 h2) f1 D1) in E.
        injection E as <- _. auto.
      * apply Hc. reflexivity.
Qed.

(** From the entry of the engine, with a target other than 0, a cycle
    starts with the remembered count equal to the current one and, as the
    loop has not ended, with a count that is not the target. *)
Lemma iterate_not_at_target k : forall f fk,
  old_output_count f = output_count f ->
  (output_done f = false -> output_count f <> num) ->
  iterate k (cycle num sname t h1 h2) f = Some fk ->
  old_output_count fk = output_count fk /\
  (output_done fk = false -> output_count fk <> num).
Proof.
  induction k as [|k IH]; intros f fk Hold Hnum E; simpl in E.
  - injection E as <-. auto.
  - destruct (output_done f) eqn:D; [discriminate|].
    destruct (cycle num sname t h1 h2 f) as [f' [[]|e]] eqn:B; [|discriminate].
    destruct (cycle_ok_phases num sname t h1 h2 f f' B) as [f1 Hp].
    destruct (cycle_counters num sname t h1 h2 f f1 Hp)
      as (g & Eg & _ & _ & _ & Hdone & _ & Hc & Ho & _).
    rewrite B in Eg. injection Eg as <- _.
    apply (IH f' fk); [congruence| |assumption].
    rewrite Hdone, Hc, D.
    destruct (Z.eqb_spec (output_count f1) num); [discriminate|auto].
Qed.

(** C6, as amended. An iteration that runs to its end adds exactly one to
    the cycle counter; when the phases of an iteration leave the output
    word count equal to the target and the no-progress counter does not
    equal the threshold, the loop ends there and returns the counter,
    and when the count differs from the target the loop goes on; a call
    that returns [n] has run exactly [n] iterations and has the target
    number of output words; in a run with a target and a threshold other
    than 0, the no-progress counter never equals the threshold in an
    iteration that reaches the target. *)
Theorem cycle_counter_and_return :
  (forall f f', cycle num sname t h1 h2 f = (f', Ok tt) ->
                total_cycle_count f' = total_cycle_count f + 1) /\
  (forall f f1,
      output_done f = false ->
      phases sname h1 h2 f = (f1, Ok tt) ->
      next_no_change f1 <> t ->
      exists f',
        cycle num sname t h1 h2 f = (f', Ok tt) /\
        total_cycle_count f' = total_cycle_count f + 1 /\
        forall fuel,
          while_loop (S fuel) (cycle num sname t h1 h2) f
          = if output_count f1 =? num
            then (f', Returned (total_cycle_count f + 1))
            else while_loop fuel (cycle num sname t h1 h2) f') /\
  (forall fuel s d f n,
      rtlsim_multi_io fuel s d num sname t h1 h2 = (f, Returned n) ->
      exists f0 k,
        setup sname (entry s d) = (f0, Ok tt) /\
        (1 <= k <= fuel)%nat /\
        iterate k (cycle num sname t h1 h2) f0 = Some f /\
        n = Z.of_nat k /\ n = total_cycle_count f /\
        output_count f = num) /\
  (forall s d f0 k fk f1,
      num <> 0 -> t <> 0 ->
      setup sname (entry s d) = (f0, Ok tt) ->
      iterate k (cycle num sname t h1 h2) f0 = Some fk ->
      output_done fk = false ->
      phases sname h1 h2 fk = (f1, Ok tt) ->
      output_count f1 = num ->
      next_no_change f1 <> t).
Proof.
  split; [|split; [|split]].
  - intros f f' E. apply (cycle_ok_total f f' E).
  - intros f f1 Hd Hp Hn.
    destruct (cycle_counters num sname t h1 h2 f f1 Hp)
      as (g & Eg & _ & _ & _ & Hdone & Htot & _).
    destruct (Z.eqb_spec (next_no_change f1) t); [contradiction|].
    exists g. split; [assumption|]. split; [assumption|].
    intros fuel.
    rewrite (while_loop_step fuel (cycle num sname t h1 h2) f g Hd Eg).
    rewrite Hd in Hdone.
    destruct (output_count f1 =? num).
    + rewrite (while_loop_done fuel (cycle num sname t h1 h2) g Hdone), Htot.
      reflexivity.
    + reflexivity.
  - intros fuel s d f n E. unfold rtlsim_multi_io in E.
    pose proof (setup_counters sname s d) as C.
    destruct (setup sname (entry s d)) as [f0 [[]|e]]; [|discriminate].
    simpl in C. destruct C as (C1 & C2 & _).
    destruct (while_loop_returned fuel f0 f n E)
      as (k & Hk & Hi & Hn & Hn' & _ & Hc).
    destruct (Hc C1) as [Hk1 Hnum].
    exists f0, k. repeat split; auto; lia.
  - intros s d f0 k fk f1 Hnum Ht Hs Hi Hd Hp Hc.
    pose proof (setup_counters sname s d) as C. rewrite Hs in C. simpl in C.
    destruct C as (_ & _ & C3 & C4 & _).
    destruct (iterate_not_at_target k f0 fk) as [I1 I2];
      [congruence|intros _; congruence|assumption|].
    pose proof (phases_counters sname h1 h2 fk) as P.
    rewrite Hp in P. simpl in P. destruct P as (_ & _ & P3 & _).
    unfold next_no_change. rewrite P3, I1, Hc.
    destruct (Z.eqb_spec num (output_count fk)) as [E|N].
    + elim (I2 Hd). auto.
    + auto.
Qed.

End Counter.

(** The pass-through design with a target of two words: the first
    iteration brings the cycle counter to 1, and the call returns 4 after
    four iterations. *)
Lemma cycle_counter_and_return_witness :
  (exists f' : frame unit,
      cycle 2 "_V_V_" 10000 None None
        (fst (setup "_V_V_" (entry passthrough_sim stream_io))) = (f', Ok tt) /\
      total_cycle_count f' = 1) /\
  (exists k,
      iterate k (cycle 2 "_V_V_" 10000 None None)
        (fst (setup "_V_V_" (entry passthrough_sim stream_io)))
      = Some (fst (rtlsim_multi_io 20 passthrough_sim stream_io 2 "_V_V_" 10000
                     None None)) /\
      4 = Z.of_nat k).
Proof.
  destruct (cycle_counter_and_return 2 "_V_V_" 10000 None None (K := unit))
    as (_ & H2 & H3 & _).
  pose (f0 := fst (setup "_V_V_" (entry passthrough_sim stream_io))).
  split.
  - destruct (H2 f0 (fst (phases "_V_V_" None None f0)))
      as (f' & E & Ht & _).
    + reflexivity.
    + vm_compute. reflexivity.
    + vm_compute. discriminate.
    + exists f'. split; [exact E|exact Ht].
  - destruct (H3 20%nat passthrough_sim stream_io
                (fst (rtlsim_multi_io 20 passthrough_sim stream_io 2 "_V_V_"
                        10000 None None)) 4)
      as (g & k & Hs & _ & Hi & Hn & _).
    + vm_compute. reflexivity.
    + exists k. split; [|assumption].
      replace (fst (setup "_V_V_" (entry passthrough_sim stream_io))) with g
        by (rewrite Hs; reflexivity).
      assumption.
Defined.

(** C6, as stated, fails: the output word count equals the target at the
    end of a cycle, the success check sets the flag, and the stall check of
    the same cycle raises. With target 0 and threshold 1 on a design that
    stays silent this is the first cycle; with threshold 0 and target 1 on
    the pass-through design it is the cycle that received the word. *)
Lemma success_check_counterexample :
  (exists f,
      rtlsim_multi_io 5 idle_sim stream_io 0 "_V_V_" 1 None None
      = (f, Raised SimulationStalledError) /\
      output_count f = 0 /\ output_done f = true /\ total_cycle_count f = 1) /\
  (exists f,
      rtlsim_multi_io 5 passthrough_sim stream_io 1 "_V_V_" 0 None None
      = (f, Raised SimulationStalledError) /\
      output_count f = 1 /\ output_done f = true /\ total_cycle_count f = 3 /\
      outputs (io_dict f) = [("out0", [5])]).
Proof.
  split; eexists; (split; [vm_compute; reflexivity|repeat split]).
Qed.

(** ** Signal names of a channel *)

Lemma last_char_app a : forall b,
  b <> EmptyString -> last_char (a ++ b) = last_char b.
Proof.
  induction a as [|c r IH]; intros b Hb; simpl; [reflexivity|].
  rewrite IH by assumption.
  destruct b as [|c' r']; [congruence|]. simpl.
  destruct (last_char r'); reflexivity.
Qed.

Lemma tvalid_not_tdata a b : a ++ "TVALID" <> b ++ "TDATA".
Proof.
  intros E. apply (f_equal last_char) in E.
  rewrite !last_char_app in E by discriminate. discriminate.
Qed.

Lemma append_inv_tail a : forall b c, a ++ c = b ++ c -> a = b.
Proof.
  intros b c E.
  apply (f_equal list_ascii_of_string) in E.
  assert (L : forall x y,
             list_ascii_of_string (x ++ y)
             = (list_ascii_of_string x ++ list_ascii_of_string y)%list).
  { induction x as [|h x IH]; intros y; simpl; [reflexivity|].
    rewrite IH. reflexivity. }
  rewrite !L in E. apply app_inv_tail in E.
  rewrite <- (string_of_list_ascii_of_string a),
          <- (string_of_list_ascii_of_string b), E.
  reflexivity.
Qed.

Lemma channel_signal_inj a b sname suffix :
  (a ++ sname) ++ suffix = (b ++ sname) ++ suffix -> a = b.
Proof.
  intros E. apply append_inv_tail in E. apply append_inv_tail in E. exact E.
Qed.

Section InputChannels.
Context {K : Type}.
Variable sname : string.
Implicit Types (f g : frame K) (s : XSI K).

Lemma handshake_eq n s r : snd (handshake n s) = r -> handshake n s = (s, r).
Proof.
  intros <-. rewrite <- (handshake_pure n s) at 2.
  destruct (handshake n s); reflexivity.
Qed.

(** The block that examines the input channels. *)
Lemma read_inputs_for ks : forall f f' r,
  NoDup ks ->
  for_each ks (read_input sname) f = (f', r) ->
  sim f' = sim f /\
  (forall inp, ~ In inp ks ->
     dict_get inp (inputs (io_dict f')) = dict_get inp (inputs (io_dict f))) /\
  (r = Ok tt ->
   forall inp q, In inp ks -> dict_get inp (inputs (io_dict f)) = Some q ->
     exists b, handshake (inp ++ sname) (sim f) = (sim f, Ok b) /\
               dict_get inp (inputs (io_dict f'))
               = Some (if b then tl q else q)) /\
  (forall inp q, dict_get inp (inputs (io_dict f)) = Some q ->
     dict_get inp (inputs (io_dict f')) = Some q \/
     (handshake (inp ++ sname) (sim f) = (sim f, Ok true) /\
      dict_get inp (inputs (io_dict f')) = Some (tl q))).
Proof.
  induction ks as [|k ks IH]; intros f f' r ND E.
  - simpl in E. injection E as <- <-.
    repeat split; auto. intros _ inp q [].
  - inversion ND as [|? ? Hk ND']; subst.
    cbn [for_each] in E. unfold bind in E. rewrite read_input_eq in E.
    destruct (dict_get k (inputs (io_dict f))) as [q0|] eqn:G.
    2:{ injection E as <- <-. repeat split; auto. discriminate. }
    destruct (snd (handshake (k ++ sname) (sim f))) as [b|e] eqn:Hh.
    2:{ injection E as <- <-. repeat split; auto. discriminate. }
    apply handshake_eq in Hh.
    set (f1 := set_io_dict f _) in E.
    destruct (IH f1 f' r ND' E) as (I1 & I2 & I3 & I4).
    assert (S1 : sim f1 = sim f) by reflexivity.
    assert (G1 : forall inp, inp <> k ->
              dict_get inp (inputs (io_dict f1)) = dict_get inp (inputs (io_dict f))).
    { intros inp N. simpl. apply dict_get_set_other. congruence. }
    assert (Gk : dict_get k (inputs (io_dict f1)) = Some (if b then tl q0 else q0)).
    { simpl. apply dict_get_set_same. }
    split; [congruence|]. split; [|split].
    + intros inp N. rewrite I2 by (intros H; apply N; right; assumption).
      apply G1. intros ->. apply N. left. reflexivity.
    + intros Hr inp q [->|Hin] Gq.
      * exists b. split; [assumption|]. rewrite I2 by assumption.
        assert (q0 = q) by congruence. subst q0. exact Gk.
      * assert (N : inp <> k) by (intros ->; contradiction).
        rewrite <- (G1 inp N) in Gq.
        destruct (I3 Hr inp q Hin Gq) as (b' & Hb' & Gb').
        exists b'. rewrite S1 in Hb'. auto.
    + intros inp q Gq. destruct (String.eqb_spec inp k) as [->|N].
      * rewrite I2 by assumption. rewrite Gk.
        assert (q0 = q) by congruence. subst q0.
        destruct b; [right|left]; auto.
      * rewrite <- (G1 inp N) in Gq. rewrite <- S1. apply I4. assumption.
Qed.

(** The block that stages the writes of the input channels. *)
Lemma stage_inputs_for ks : forall f,
  (forall inp, In inp ks -> dict_get inp (inputs (io_dict f)) <> None) ->
  exists f',
    for_each ks (stage_input sname) f = (f', Ok tt) /\
    sim f' = sim f /\ io_dict f' = io_dict f /\
    (forall inp q, In inp ks -> dict_get inp (inputs (io_dict f)) = Some q ->
       dict_get ((inp ++ sname) ++ "TVALID") (signals_to_write f')
       = Some (if 0 <? Z.of_nat (List.length q) then 1 else 0) /\
       dict_get ((inp ++ sname) ++ "TDATA") (signals_to_write f')
       = Some (if 0 <? Z.of_nat (List.length q) then hd 0 q else 0)) /\
    (forall key,
       (forall inp, In inp ks -> key <> (inp ++ sname) ++ "TVALID" /\
                                 key <> (inp ++ sname) ++ "TDATA") ->
       dict_get key (signals_to_write f') = dict_get key (signals_to_write f)).
Proof.
  induction ks as [|k ks IH]; intros f Hin.
  - exists f. split; [reflexivity|]. split; [reflexivity|].
    split; [reflexivity|]. split; [intros inp q []|auto].
  - cbn [for_each]. unfold bind. rewrite stage_input_eq.
    destruct (dict_get k (inputs (io_dict f))) as [q0|] eqn:G.
    2:{ elim (Hin k); [left; reflexivity|assumption]. }
    set (f1 := set_signals_to_write f _).
    destruct (IH f1) as (f' & E & I1 & I2 & I3 & I4).
    { intros inp H. apply Hin. right. assumption. }
    exists f'. split; [assumption|]. split; [assumption|]. split; [assumption|].
    split.
    + intros inp q [->|H] Gq.
      * assert (q0 = q) by congruence. subst q0.
        destruct (in_dec string_dec inp ks) as [H|H]; [apply I3; assumption|].
        rewrite !I4.
        -- unfold f1. cbn [signals_to_write set_signals_to_write].
           split; [|apply dict_get_set_same].
           rewrite dict_get_set_other by (apply not_eq_sym, tvalid_not_tdata).
           apply dict_get_set_same.
        -- intros inp' H' . split.
           ++ apply not_eq_sym, tvalid_not_tdata.
           ++ intros E'. apply channel_signal_inj in E'. congruence.
        -- intros inp' H'. split.
           ++ intros E'. apply channel_signal_inj in E'. congruence.
           ++ apply tvalid_not_tdata.
      * apply I3; assumption.
    + intros key Hkey. rewrite I4.
      * unfold f1. cbn [signals_to_write set_signals_to_write].
        destruct (Hkey k (or_introl eq_refl)) as [N1 N2].
        rewrite !dict_get_set_other by congruence. reflexivity.
      * intros inp H. apply Hkey. right. assumption.
Qed.

End InputChannels.

(** ** The phases of a cycle *)

Section RisingEdge.
Context {K : Type}.
Implicit Types (f g : frame K) (s : XSI K).

(** A write adds at most one call, and that call sets a port. *)
Lemma write_signal_calls n v s :
  exists W, calls (fst (_write_signal n v s)) = (calls s ++ W)%list /\
            forallb is_set_port_value W = true.
Proof.
  destruct (signal_width s n) as [w|] eqn:W.
  - apply signal_width_Some in W. destruct W as (c & pv & R & G & _).
    rewrite (write_signal_resolved s n c pv v R G).
    destruct (v <? 0); simpl.
    + exists []. rewrite app_nil_r. auto.
    + eexists [_]. split; reflexivity.
  - rewrite write_signal_unresolved by assumption.
    exists []. simpl. rewrite app_nil_r. auto.
Qed.

Lemma for_each_calls {X : Type} (xs : list X) (body : X -> M (XSI K) unit) :
  (forall x s, exists W, calls (fst (body x s)) = (calls s ++ W)%list /\
                         forallb is_set_port_value W = true) ->
  forall s, exists W, calls (fst (for_each xs body s)) = (calls s ++ W)%list /\
                      forallb is_set_port_value W = true.
Proof.
  intros H. induction xs as [|x r IH]; intros s; simpl.
  - exists []. rewrite app_nil_r. auto.
  - unfold bind. destruct (H x s) as (W1 & E1 & F1).
    destruct (body x s) as [s1 [[]|e]]; simpl in E1.
    + destruct (IH s1) as (W2 & E2 & F2).
      exists (W1 ++ W2)%list. rewrite E2, E1, app_assoc, forallb_app, F1, F2.
      auto.
    + exists W1. auto.
Qed.

Lemma apply_writes_calls stw s :
  exists W, calls (fst (apply_writes stw s)) = (calls s ++ W)%list /\
            forallb is_set_port_value W = true.
Proof.
  unfold apply_writes. apply for_each_calls. intros sig s'.
  destruct (dict_get sig stw); [apply write_signal_calls|].
  exists []. simpl. rewrite app_nil_r. auto.
Qed.

(** The rising edge: clock high, half a period, then the staged writes. *)
Lemma toggle_pos_edge_ok clk stw s s' :
  toggle_pos_edge clk stw s = (s', Ok tt) ->
  exists c w,
    signal_width s clk = Some w /\
    _find_signal clk s = (s, Ok c) /\
    apply_writes stw (advanced (written s c (render w 1)) 5000) = (s', Ok tt).
Proof.
  intros E. unfold toggle_pos_edge, bind in E.
  destruct (signal_width s clk) as [w|] eqn:W.
  2:{ rewrite write_signal_unresolved in E by assumption. discriminate. }
  pose proof W as W'. apply signal_width_Some in W'.
  destruct W' as (c & pv & R & G & L).
  rewrite (write_signal_resolved s clk c pv 1 R G) in E.
  change (1 <? 0) with false in E. cbv iota in E.
  rewrite run_advanced, L in E.
  exists c, w. split; [reflexivity|].
  split; [rewrite find_signal_resolve, R; reflexivity|].
  destruct stw as [|e stw].
  - unfold ret, comb_update_and_trace in E. exact E.
  - destruct (apply_writes (e :: stw) _) as [s2 [[]|e']];
      unfold ret, comb_update_and_trace in E; [exact E|discriminate].
Qed.

Lemma read_outputs_keeps sname s ins :
  keeps (fun g : frame K => sim g = s /\ inputs (io_dict g) = ins)
        (read_outputs sname).
Proof.
  intros f Hf. unfold read_outputs.
  apply keeps_for_each; [|assumption].
  intros outp _ g Hg. rewrite read_output_eq.
  destruct (dict_get outp _); [|assumption].
  destruct (snd (handshake _ _)) as [[|]|e]; simpl; auto.
  destruct (snd (_read_signal _ _)); simpl; auto.
Qed.

Lemma before_edge_keeps (h1 : option (M (XSI K) unit)) (P : frame K -> Prop) :
  (forall f s, P f -> P (set_sim f s)) ->
  keeps P (bind (call_hook h1) (fun _ => on_sim (toggle_neg_edge "ap_clk"))).
Proof.
  intros H. apply keeps_bind; [apply keeps_call_hook; assumption|].
  intros _. apply keeps_on_sim. assumption.
Qed.

(** The phases of a cycle that run to their end, block by block. *)
Lemma phases_spec sname h1 h2 f f' :
  NoDup (dict_keys (inputs (io_dict f))) ->
  phases sname h1 h2 f = (f', Ok tt) ->
  exists fa fd,
    bind (call_hook h1) (fun _ => on_sim (toggle_neg_edge "ap_clk")) f
    = (fa, Ok tt) /\
    sim fd = sim fa /\
    (forall inp q,
        dict_get inp (inputs (io_dict f)) = Some q ->
        exists b q',
          handshake (inp ++ sname) (sim fa) = (sim fa, Ok b) /\
          (b = true <->
           _read_signal ((inp ++ sname) ++ "TREADY") (sim fa) = (sim fa, Ok 1) /\
           _read_signal ((inp ++ sname) ++ "TVALID") (sim fa) = (sim fa, Ok 1)) /\
          q' = (if b then tl q else q) /\
          dict_get inp (inputs (io_dict fd)) = Some q' /\
          dict_get ((inp ++ sname) ++ "TVALID") (signals_to_write fd)
          = Some (match q' with [] => 0 | _ :: _ => 1 end) /\
          dict_get ((inp ++ sname) ++ "TDATA") (signals_to_write fd)
          = Some (hd 0 q')) /\
    exists c w s3 W,
      signal_width (sim fa) "ap_clk" = Some w /\
      _find_signal "ap_clk" (sim fa) = (sim fa, Ok c) /\
      apply_writes (signals_to_write fd)
        (advanced (written (sim fa) c (render w 1)) 5000) = (s3, Ok tt) /\
      calls s3
      = (calls (sim fa) ++ [SetPortValue c (render w 1); Run 5000] ++ W)%list /\
      forallb is_set_port_value W = true /\
      call_hook h2 (set_sim fd s3) = (f', Ok tt) /\
      io_dict f' = io_dict fd /\
      signals_to_write f' = signals_to_write fd.
Proof.
  intros ND E. unfold phases in E.
  (* the hook and the falling edge *)
  pose proof (before_edge_keeps h1 (fun g => io_dict g = io_dict f)
                (fun g s H => H) f eq_refl) as Hio.
  unfold bind in E, Hio |- *.
  destruct (call_hook h1 f) as [f0 [[]|e0]]; [|discriminate].
  destruct (on_sim (toggle_neg_edge "ap_clk") f0) as [fa [[]|ea]]; [|discriminate].
  simpl in Hio.
  (* the input channels are examined *)
  destruct (read_inputs sname fa) as [fb [[]|eb]] eqn:Eb; [|discriminate].
  unfold read_inputs in Eb.
  rewrite Hio in Eb.
  destruct (read_inputs_for sname _ fa fb (Ok tt) ND Eb) as (B1 & _ & B3 & _).
  specialize (B3 eq_refl).
  (* the output channels are examined *)
  pose proof (read_outputs_keeps sname (sim fb) (inputs (io_dict fb)) fb
                (conj eq_refl eq_refl)) as Hc.
  destruct (read_outputs sname fb) as [fc [[]|ec]]; [|discriminate].
  simpl in Hc. destruct Hc as [C1 C2].
  (* the writes are staged *)
  destruct (stage_inputs_for sname (dict_keys (inputs (io_dict fc))) fc)
    as (fd' & Ed & D1 & D2 & D3 & _).
  { intros inp H. destruct (dict_get_In inp _ H) as [q Hq]. congruence. }
  unfold stage_inputs in E. rewrite Ed in E.
  (* the rising edge *)
  unfold on_sim in E.
  destruct (toggle_pos_edge "ap_clk" (signals_to_write fd') (sim fd'))
    as [s3 [[]|e3]] eqn:Ep; [|discriminate].
  destruct (toggle_pos_edge_ok _ _ _ _ Ep) as (c & w & P1 & P2 & P3).
  assert (Sd : sim fd' = sim fa) by congruence.
  rewrite Sd in P1, P2, P3.
  exists fa, fd'. split; [reflexivity|]. split; [assumption|]. split.
  - intros inp q Gq.
    rewrite <- Hio in Gq.
    pose proof (dict_get_Some_In _ _ _ Gq) as Hin.
    rewrite Hio in Hin.
    destruct (B3 inp q Hin Gq) as (b & Hb & Gb).
    exists b, (if b then tl q else q).
    split; [assumption|]. split.
    { rewrite <- handshake_true. split; [intros ->; assumption|congruence]. }
    split; [reflexivity|].
    rewrite <- C2 in Gb.
    assert (Hin' : In inp (dict_keys (inputs (io_dict fc)))).
    { eapply dict_get_Some_In; eauto. }
    destruct (D3 inp _ Hin' Gb) as [V1 V2].
    rewrite D2. split; [assumption|].
    rewrite V1, V2. destruct (if b then tl q else q); split; reflexivity.
  - pose proof (apply_writes_calls (signals_to_write fd')
                  (advanced (written (sim fa) c (render w 1)) 5000)) as HW.
    rewrite P3 in HW. cbn [fst] in HW. destruct HW as (W & HW & FW).
    exists c, w, s3, W.
    split; [assumption|]. split; [assumption|]. split; [assumption|].
    split; [|split; [assumption|split; [exact E|]]].
    + rewrite HW. cbn [advanced written calls].
      rewrite <- !app_assoc. reflexivity.
    + pose proof (keeps_call_hook
                    (fun g => io_dict g = io_dict fd' /\
                              signals_to_write g = signals_to_write fd')
                    h2 (fun g s H => H) (set_sim fd' s3)
                    (conj eq_refl eq_refl)) as Hk.
      rewrite E in Hk. exact Hk.
Qed.

(** *** The staged writes on the ports *)

Lemma dict_set_NoDup {V : Type} (k : string) (v : V) (d : dict V) :
  NoDup (dict_keys d) -> NoDup (dict_keys (dict_set k v d)).
Proof.
  intros ND. destruct (in_dec string_dec k (dict_keys d)) as [H|H].
  - rewrite dict_keys_set; assumption.
  - assert (E : dict_keys (dict_set k v d) = (dict_keys d ++ [k])%list).
    { clear ND. induction d as [|[k0 v0] r IH]; simpl; [reflexivity|].
      destruct (String.eqb_spec k k0) as [->|N].
      - elim H. left. reflexivity.
      - simpl. f_equal. apply IH. intros H'. apply H. right. assumption. }
    rewrite E. apply NoDup_app; [assumption|repeat constructor; intros []|].
    intros x Hx [<-|[]]. contradiction.
Qed.

(** The phases keep the staged signals distinct. *)
Lemma phases_keeps_staged_distinct sname h1 h2 :
  keeps (fun g : frame K => NoDup (dict_keys (signals_to_write g)))
        (phases sname h1 h2).
Proof.
  assert (Hs : forall f s, NoDup (dict_keys (signals_to_write f)) ->
               NoDup (dict_keys (signals_to_write (set_sim f s))))
    by (intros f s H; exact H).
  unfold phases.
  apply keeps_bind; [apply keeps_call_hook; assumption|intros _].
  apply keeps_bind; [apply keeps_on_sim; assumption|intros _].
  apply keeps_bind.
  { apply keeps_read_inputs. intros f d H. exact H. }
  intros _. apply keeps_bind.
  { apply keeps_read_outputs; intros f; intros; assumption. }
  intros _. apply keeps_bind.
  { intros f Hf. unfold stage_inputs. apply keeps_for_each; [|assumption].
    intros inp _ g Hg. rewrite stage_input_eq.
    destruct (dict_get inp (inputs (io_dict g))); [|assumption].
    simpl. apply dict_set_NoDup, dict_set_NoDup. assumption. }
  intros _. apply keeps_bind; [apply keeps_pos_edge; assumption|intros _].
  apply keeps_call_hook; assumption.
Qed.

(** Staged writes that all succeed: every staged value is not negative
    and its signal resolves; the port that no other staged signal
    resolves to holds the rendering of the value, a port that no staged
    signal resolves to holds what it held, and there is one call per
    staged signal. *)
Lemma staged_writes_reach_ports stw ks : forall s s',
  NoDup ks ->
  for_each ks
    (fun sig =>
       match dict_get sig stw with
       | Some v => _write_signal sig v
       | None => raise (KeyError sig)
       end) s = (s', Ok tt) ->
  dict_keys (ports s') = dict_keys (ports s) /\
  kernel s' = kernel s /\
  (forall p,
      (forall sig, In sig ks -> resolve (dict_keys (ports s)) sig <> Ok p) ->
      dict_get p (ports s') = dict_get p (ports s)) /\
  (forall sig,
      In sig ks ->
      exists v p pv,
        dict_get sig stw = Some v /\ 0 <= v /\
        resolve (dict_keys (ports s)) sig = Ok p /\
        dict_get p (ports s) = Some pv /\
        ((forall sig', In sig' ks -> sig' <> sig ->
                       resolve (dict_keys (ports s)) sig' <> Ok p) ->
         dict_get p (ports s') = Some (render (String.length pv) v))) /\
  exists W,
    calls s' = (calls s ++ W)%list /\
    forallb is_set_port_value W = true /\
    List.length W = List.length ks.
Proof.
  induction ks as [|k ks IH]; intros s s' ND E; cbn [for_each] in E.
  - injection E as <-. split; [reflexivity|]. split; [reflexivity|].
    split; [reflexivity|]. split; [intros sig []|].
    exists []. rewrite app_nil_r. auto.
  - inversion ND as [|? ? Hk ND']; subst. unfold bind in E.
    destruct (dict_get k stw) as [v0|] eqn:G0; [|discriminate].
    destruct (signal_width s k) as [w|] eqn:W.
    2:{ rewrite write_signal_unresolved in E by assumption. discriminate. }
    apply signal_width_Some in W. destruct W as (c0 & pv0 & R0 & P0 & _).
    rewrite (write_signal_resolved s k c0 pv0 v0 R0 P0) in E.
    destruct (Z.ltb_spec v0 0) as [Hv0|Hv0]; [discriminate|].
    set (s1 := written s c0 (render (String.length pv0) v0)) in E.
    assert (K1 : dict_keys (ports s1) = dict_keys (ports s)).
    { apply written_keys. eapply resolve_In; eauto. }
    assert (O1 : forall p, p <> c0 ->
               dict_get p (ports s1) = dict_get p (ports s)).
    { intros p Hp. simpl. apply dict_get_set_other. congruence. }
    destruct (IH s1 s' ND' E) as (I1 & I2 & I3 & I4 & W' & C' & F' & L').
    rewrite K1 in I3, I4.
    split; [congruence|]. split; [exact I2|]. split; [|split].
    + intros p Hp. rewrite I3 by (intros sig H; apply Hp; right; assumption).
      apply O1. intros ->. apply (Hp k); [left; reflexivity|assumption].
    + intros sig [<-|Hin].
      * exists v0, c0, pv0. repeat split; auto.
        intros Hd. rewrite I3; [apply dict_get_set_same|].
        intros sig Hs. apply Hd; [right; assumption|].
        intros ->. contradiction.
      * destruct (I4 sig Hin) as (v & p & pv1 & Gv & Hv & Rp & Gp & Hp).
        destruct (dict_get_In p (ports s) (resolve_In _ _ _ Rp)) as [pv Gpv].
        exists v, p, pv. repeat split; auto.
        intros Hd.
        assert (Np : p <> c0).
        { intros ->. apply (Hd k); [left; reflexivity| |assumption].
          intros ->. contradiction. }
        rewrite O1, Gpv in Gp by assumption. injection Gp as <-.
        apply Hp. intros sig' Hs'. apply Hd. right. assumption.
    + exists (SetPortValue c0 (render (String.length pv0) v0) :: W').
      split; [|split].
      * rewrite C'. simpl. rewrite <- app_assoc. reflexivity.
      * exact F'.
      * simpl. rewrite L'. reflexivity.
Qed.

(** C7. In a cycle whose phases run to their end: after the falling edge,
    an input channel's queue loses its head exactly when its TREADY and
    its TVALID both read 1; the TVALID staged for it is 1 exactly when the
    queue, after that, is not empty, and the TDATA staged is the head of
    that queue, or 0 when it is empty; reading and staging make no call on
    the handle; the staged writes reach the handle after the clock was set
    high and time advanced, and before the hook that follows. They reach
    the ports: with the staged signals distinct, as the keys of the
    pending-writes mapping are, there is one port write per staged
    signal, every staged value is written to the port its signal
    resolves to, which then holds its rendering and, when it has at least
    one bit, reads as the value modulo 2 to its width, and a port that no
    staged signal resolves to holds what it held after the rising
    edge. *)
Theorem input_channel_cycle sname h1 h2 f f' :
  NoDup (dict_keys (inputs (io_dict f))) ->
  phases sname h1 h2 f = (f', Ok tt) ->
  exists fa fd,
    bind (call_hook h1) (fun _ => on_sim (toggle_neg_edge "ap_clk")) f
    = (fa, Ok tt) /\
    sim fd = sim fa /\
    (forall inp q,
        dict_get inp (inputs (io_dict f)) = Some q ->
        exists b q',
          handshake (inp ++ sname) (sim fa) = (sim fa, Ok b) /\
          (b = true <->
           _read_signal ((inp ++ sname) ++ "TREADY") (sim fa) = (sim fa, Ok 1) /\
           _read_signal ((inp ++ sname) ++ "TVALID") (sim fa) = (sim fa, Ok 1)) /\
          q' = (if b then tl q else q) /\
          dict_get inp (inputs (io_dict fd)) = Some q' /\
          dict_get ((inp ++ sname) ++ "TVALID") (signals_to_write fd)
          = Some (match q' with [] => 0 | _ :: _ => 1 end) /\
          dict_get ((inp ++ sname) ++ "TDATA") (signals_to_write fd)
          = Some (hd 0 q')) /\
    exists c w s3 W,
      signal_width (sim fa) "ap_clk" = Some w /\
      _find_signal "ap_clk" (sim fa) = (sim fa, Ok c) /\
      apply_writes (signals_to_write fd)
        (advanced (written (sim fa) c (render w 1)) 5000) = (s3, Ok tt) /\
      calls s3
      = (calls (sim fa) ++ [SetPortValue c (render w 1); Run 5000] ++ W)%list /\
      forallb is_set_port_value W = true /\
      call_hook h2 (set_sim fd s3) = (f', Ok tt) /\
      io_dict f' = io_dict fd /\
      signals_to_write f' = signals_to_write fd /\
      (NoDup (dict_keys (signals_to_write f)) ->
       let s2 := advanced (written (sim fa) c (render w 1)) 5000 in
       List.length W = List.length (signals_to_write fd) /\
       dict_keys (ports s3) = dict_keys (ports s2) /\
       kernel s3 = kernel s2 /\
       (forall p,
           (forall sig, In sig (dict_keys (signals_to_write fd)) ->
                        resolve (dict_keys (ports s2)) sig <> Ok p) ->
           dict_get p (ports s3) = dict_get p (ports s2)) /\
       (forall sig v,
           dict_get sig (signals_to_write fd) = Some v ->
           exists p pv,
             0 <= v /\
             _find_signal sig s3 = (s3, Ok p) /\
             resolve (dict_keys (ports s2)) sig = Ok p /\
             dict_get p (ports s2) = Some pv /\
             ((forall sig', In sig' (dict_keys (signals_to_write fd)) ->
                            sig' <> sig ->
                            resolve (dict_keys (ports s2)) sig' <> Ok p) ->
              dict_get p (ports s3) = Some (render (String.length pv) v) /\
              ((1 <= String.length pv)%nat ->
               _read_signal sig s3
               = (s3, Ok (v mod 2 ^ Z.of_nat (String.length pv))))))).
Proof.
  intros ND E.
  pose proof (phases_keeps_staged_distinct sname h1 h2 f) as Hnd.
  rewrite E in Hnd. cbn [fst] in Hnd.
  destruct (phases_spec sname h1 h2 f f' ND E)
    as (fa & fd & Ea & Hs & Hin & c & w & s3 & W & H1 & H2 & H3 & H4 & H5 & H6
        & H7 & H8).
  exists fa, fd. split; [exact Ea|]. split; [exact Hs|]. split; [exact Hin|].
  exists c, w, s3, W.
  split; [exact H1|]. split; [exact H2|]. split; [exact H3|].
  split; [exact H4|]. split; [exact H5|]. split; [exact H6|].
  split; [exact H7|]. split; [exact H8|].
  intros NDf. specialize (Hnd NDf). rewrite H8 in Hnd. cbv zeta.
  set (s2 := advanced (written (sim fa) c (render w 1)) 5000) in *.
  set (stw := signals_to_write fd) in *.
  assert (A : exists W',
             calls s3 = (calls s2 ++ W')%list /\
             List.length W' = List.length stw /\
             dict_keys (ports s3) = dict_keys (ports s2) /\
             kernel s3 = kernel s2 /\
             (forall p,
                 (forall sig, In sig (dict_keys stw) ->
                              resolve (dict_keys (ports s2)) sig <> Ok p) ->
                 dict_get p (ports s3) = dict_get p (ports s2)) /\
             (forall sig,
                 In sig (dict_keys stw) ->
                 exists v p pv,
                   dict_get sig stw = Some v /\ 0 <= v /\
                   resolve (dict_keys (ports s2)) sig = Ok p /\
                   dict_get p (ports s2) = Some pv /\
                   ((forall sig', In sig' (dict_keys stw) -> sig' <> sig ->
                                  resolve (dict_keys (ports s2)) sig' <> Ok p) ->
                    dict_get p (ports s3)
                    = Some (render (String.length pv) v)))).
  { unfold apply_writes in H3.
    destruct (staged_writes_reach_ports stw (dict_keys stw) s2 s3 Hnd H3)
      as (A1 & A2 & A3 & A4 & W' & A5 & _ & A6).
    exists W'. unfold dict_keys in A6. rewrite length_map in A6. auto 10. }
  destruct A as (W' & A0 & A1 & A2 & A3 & A4 & A5).
  assert (EW : W' = W).
  { rewrite A0 in H4. unfold s2 in H4. cbn [advanced written calls] in H4.
    rewrite <- !app_assoc in H4. apply app_inv_head in H4.
    cbn [app] in H4. injection H4 as H4. exact H4. }
  subst W'.
  split; [exact A1|]. split; [exact A2|]. split; [exact A3|].
  split; [exact A4|].
  intros sig v G.
  destruct (A5 sig (dict_get_Some_In _ _ _ G))
    as (v' & p & pv & Gv & Hv & Rp & Gp & Hp).
  assert (v' = v) by congruence. subst v'.
  exists p, pv. split; [exact Hv|].
  assert (R3 : resolve (dict_keys (ports s3)) sig = Ok p) by (rewrite A2; exact Rp).
  split; [rewrite find_signal_resolve, R3; reflexivity|].
  split; [exact Rp|]. split; [exact Gp|].
  intros Hd. specialize (Hp Hd). split; [exact Hp|].
  intros Hw.
  rewrite (read_signal_resolved s3 sig p _ R3 Hp), render_read by assumption.
  reflexivity.
Qed.

End RisingEdge.

(** The first cycle of the engine on the example: nothing is accepted yet,
    the first word is staged, and after the rising edge the valid port
    holds 1 and the data port holds the word. *)
Lemma input_channel_cycle_witness :
  exists f' : frame unit,
    phases "_V_V_" None None (fst (setup "_V_V_" (entry idle_sim stream_io)))
    = (f', Ok tt) /\
    dict_get "in0" (inputs (io_dict f')) = Some [5; 7] /\
    dict_get "in0_V_V_TVALID" (signals_to_write f') = Some 1 /\
    dict_get "in0_V_V_TDATA" (signals_to_write f') = Some 5 /\
    dict_get "in0_V_V_TVALID" (ports (sim f')) = Some "1" /\
    dict_get "in0_V_V_TDATA" (ports (sim f')) = Some "00000101" /\
    _read_signal "in0_V_V_TDATA" (sim f') = (sim f', Ok 5).
Proof.
  pose (f := fst (setup "_V_V_" (entry idle_sim stream_io))).
  pose (f' := fst (phases "_V_V_" None None f)).
  assert (E : phases "_V_V_" None None f = (f', Ok tt))
    by (vm_compute; reflexivity).
  assert (ND : NoDup (dict_keys (inputs (io_dict f)))).
  { repeat constructor. intros []. }
  exists f'. split; [exact E|].
  destruct (input_channel_cycle "_V_V_" None None f f' ND E)
    as (fa & fd & Ea & _ & H & c & w & s3 & W & Hw & Hc & _ & _ & _ & Hh & Hio
        & Hstw & Hports).
  destruct (H "in0" [5; 7] eq_refl) as (b & q' & Hb & _ & Hq & G & V1 & V2).
  vm_compute in Ea. injection Ea as <-.
  vm_compute in Hb. injection Hb as <-. subst q'.
  vm_compute in Hw. injection Hw as <-.
  vm_compute in Hc. injection Hc as <-.
  cbn [call_hook] in Hh. unfold ret in Hh.
  assert (Es : s3 = sim f').
  { apply (f_equal fst) in Hh. apply (f_equal sim) in Hh. exact Hh. }
  assert (Ek : dict_keys (signals_to_write fd)
               = ["in0_V_V_TVALID"; "in0_V_V_TDATA"]).
  { rewrite <- Hstw. reflexivity. }
  destruct (Hports ltac:(constructor)) as (_ & _ & _ & _ & Hsig).
  rewrite Hio, Hstw. split; [exact G|]. split; [exact V1|]. split; [exact V2|].
  rewrite <- Es.
  destruct (Hsig _ _ V1) as (p1 & pv1 & _ & _ & R1 & G1 & D1).
  destruct (Hsig _ _ V2) as (p2 & pv2 & _ & _ & R2 & G2 & D2).
  rewrite Ek in D1, D2.
  vm_compute in R1. injection R1 as <-.
  vm_compute in G1. injection G1 as <-.
  vm_compute in R2. injection R2 as <-.
  vm_compute in G2. injection G2 as <-.
  destruct D1 as [P1 _].
  { intros sig' [<-|[<-|[]]] N; [elim N; reflexivity|vm_compute; discriminate]. }
  destruct D2 as [P2 Rd2].
  { intros sig' [<-|[<-|[]]] N; [vm_compute; discriminate|elim N; reflexivity]. }
  split; [exact P1|]. split; [exact P2|].
  apply (Rd2 ltac:(simpl; lia)).
Defined.

(** ** The caller's input queues *)

Lemma skipn_tl {A : Type} (k : nat) : forall l : list A,
  tl (skipn k l) = skipn (S k) l.
Proof.
  induction k as [|k IH]; intros [|a l]; simpl; auto.
Qed.

Section InPlace.
Context {K : Type}.
Implicit Types (f g : frame K) (s : XSI K).

Lemma consumed_from_refl d : consumed_from d d.
Proof. split; [reflexivity|]. intros inp q H. exists 0%nat. assumption. Qed.

Lemma consumed_from_pop d0 d inp q (b : bool) :
  consumed_from d0 d -> dict_get inp d = Some q ->
  consumed_from d0 (dict_set inp (if b then tl q else q) d).
Proof.
  intros [Hk Hq] G. split.
  - rewrite dict_keys_set; [assumption|]. eapply dict_get_Some_In; eauto.
  - intros inp' q0 G0. destruct (Hq inp' q0 G0) as [k Gk].
    destruct (String.eqb_spec inp inp') as [<-|N].
    + rewrite dict_get_set_same.
      assert (q = skipn k q0) by congruence. subst q.
      destruct b; [exists (S k); rewrite skipn_tl|exists k]; reflexivity.
    + rewrite dict_get_set_other by assumption. eauto.
Qed.

Lemma read_inputs_consumed d0 sname :
  keeps (fun g : frame K => consumed_from d0 (inputs (io_dict g)))
        (read_inputs sname).
Proof.
  intros f Hf. unfold read_inputs.
  apply keeps_for_each; [|assumption].
  intros inp _ g Hg. rewrite read_input_eq.
  destruct (dict_get inp _) as [q|] eqn:G; [|assumption].
  destruct (snd (handshake _ _)); simpl; [|assumption].
  apply consumed_from_pop; assumption.
Qed.

Lemma cycle_consumed d0 num sname t h1 h2 :
  keeps (fun g : frame K => consumed_from d0 (inputs (io_dict g)))
        (cycle num sname t h1 h2).
Proof.
  unfold cycle, phases.
  assert (Hs : forall f s, consumed_from d0 (inputs (io_dict f)) ->
                           consumed_from d0 (inputs (io_dict (set_sim f s))))
    by (intros f s H; exact H).
  apply keeps_bind.
  { apply keeps_bind; [apply keeps_call_hook; assumption|intros _].
    apply keeps_bind; [apply keeps_on_sim; assumption|intros _].
    apply keeps_bind; [apply read_inputs_consumed|intros _].
    apply keeps_bind.
    { intros f Hf.
      pose proof (read_outputs_keeps sname (sim f) (inputs (io_dict f)) f
                    (conj eq_refl eq_refl)) as [_ H].
      rewrite H. assumption. }
    intros _.
    apply keeps_bind.
    { apply keeps_stage_inputs. intros f d H. exact H. }
    intros _.
    apply keeps_bind; [apply keeps_pos_edge; assumption|intros _].
    apply keeps_call_hook; assumption. }
  intros _ f Hf. rewrite bookkeeping_spec. exact Hf.
Qed.

Lemma while_loop_keeps (P : frame K -> Prop) body :
  keeps P body -> forall fuel f, P f -> P (fst (while_loop fuel body f)).
Proof.
  intros H. induction fuel as [|fuel IH]; intros f Hf; simpl.
  - destruct (output_done f); assumption.
  - destruct (output_done f); [assumption|].
    specialize (H f Hf). destruct (body f) as [f' [[]|e]]; simpl in H.
    + apply IH. assumption.
    + assumption.
Qed.

Lemma skipn_of_tl {A : Type} (n : nat) (l : list A) :
  skipn n (tl l) = skipn (S n) l.
Proof. destruct l; [destruct n|]; reflexivity. Qed.

(** What a cycle that runs to its end does to an input queue. *)
Lemma cycle_inputs num sname t h1 h2 f f' :
  NoDup (dict_keys (inputs (io_dict f))) ->
  cycle num sname t h1 h2 f = (f', Ok tt) ->
  forall inp q,
    dict_get inp (inputs (io_dict f)) = Some q ->
    dict_get inp (inputs (io_dict f'))
    = Some (if accepted sname h1 f inp then tl q else q).
Proof.
  intros ND E inp q G.
  destruct (cycle_ok_phases num sname t h1 h2 f f' E) as [f1 Hp].
  destruct (cycle_counters num sname t h1 h2 f f1 Hp)
    as (g & Eg & _ & Hio & _).
  rewrite E in Eg. injection Eg as <- _.
  destruct (phases_spec sname h1 h2 f f1 ND Hp)
    as (fa & fd & Ea & _ & H & c & w & s3 & W & _ & _ & _ & _ & _ & _ & Hd & _).
  destruct (H inp q G) as (b & q' & Hh & _ & Hq & G' & _).
  unfold accepted. rewrite Ea, Hh, Hio, Hd, G', Hq. reflexivity.
Qed.

(** After [k] iterations an input queue has lost as many words as there
    were cycles that accepted its handshake. *)
Lemma iterate_transfers num sname t h1 h2 k : forall f fk,
  NoDup (dict_keys (inputs (io_dict f))) ->
  iterate k (cycle num sname t h1 h2) f = Some fk ->
  forall inp q,
    dict_get inp (inputs (io_dict f)) = Some q ->
    dict_get inp (inputs (io_dict fk))
    = Some (skipn (transfers sname h1 k (cycle num sname t h1 h2) f inp) q).
Proof.
  induction k as [|k IH]; intros f fk ND E inp q G; simpl in E |- *.
  - injection E as <-. exact G.
  - destruct (output_done f); [discriminate|].
    destruct (cycle num sname t h1 h2 f) as [f' [[]|e]] eqn:B; [|discriminate].
    pose proof (cycle_inputs num sname t h1 h2 f f' ND B inp q G) as G'.
    assert (ND' : NoDup (dict_keys (inputs (io_dict f')))).
    { pose proof (cycle_consumed (inputs (io_dict f)) num sname t h1 h2 f
                    (consumed_from_refl _)) as [Hk _].
      rewrite B in Hk. simpl in Hk. rewrite Hk. exact ND. }
    rewrite (IH f' fk ND' E inp _ G').
    destruct (accepted sname h1 f inp); [|reflexivity].
    rewrite skipn_of_tl. reflexivity.
Qed.

(** C10. The engine works on the caller's mapping: when the input
    channels are examined, a channel's entry is left as it is or, when its
    handshake is accepted, replaced by the tail of its queue, and it is
    replaced by the tail whenever the handshake is accepted and the block
    runs to its end; whatever the outcome of the call, return, exception
    or exhausted bound, the mapping the engine leaves has the same input
    channels and each queue is what remains of the original one after its
    first words were taken; after any number of iterations, and so when
    the call returns, the words taken from a queue are as many as the
    cycles that accepted its handshake. *)
Theorem inputs_consumed_in_place sname :
  (forall f g r,
      NoDup (dict_keys (inputs (io_dict f))) ->
      read_inputs sname f = (g, r) ->
      forall inp q,
        dict_get inp (inputs (io_dict f)) = Some q ->
        (dict_get inp (inputs (io_dict g)) = Some q \/
         (handshake (inp ++ sname) (sim f) = (sim f, Ok true) /\
          dict_get inp (inputs (io_dict g)) = Some (tl q))) /\
        (r = Ok tt ->
         exists b,
           handshake (inp ++ sname) (sim f) = (sim f, Ok b) /\
           dict_get inp (inputs (io_dict g))
           = Some (if b then tl q else q))) /\
  (forall fuel (s : XSI K) d num t h1 h2,
      consumed_from (inputs d)
        (inputs (io_dict
                   (fst (rtlsim_multi_io fuel s d num sname t h1 h2))))) /\
  (forall num t h1 h2 k (f fk : frame K),
      NoDup (dict_keys (inputs (io_dict f))) ->
      iterate k (cycle num sname t h1 h2) f = Some fk ->
      forall inp q,
        dict_get inp (inputs (io_dict f)) = Some q ->
        dict_get inp (inputs (io_dict fk))
        = Some (skipn (transfers sname h1 k (cycle num sname t h1 h2) f inp)
                      q)) /\
  (forall fuel (s : XSI K) d num t h1 h2 f n,
      NoDup (dict_keys (inputs d)) ->
      rtlsim_multi_io fuel s d num sname t h1 h2 = (f, Returned n) ->
      exists f0,
        setup sname (entry s d) = (f0, Ok tt) /\
        forall inp q,
          dict_get inp (inputs d) = Some q ->
          dict_get inp (inputs (io_dict f))
          = Some (skipn (transfers sname h1 (Z.to_nat n)
                           (cycle num sname t h1 h2) f0 inp) q)).
Proof.
  split; [|split; [|split]].
  - intros f g r ND E inp q G. unfold read_inputs in E.
    destruct (read_inputs_for sname _ f g r ND E) as (_ & _ & I3 & I4).
    split; [apply I4; assumption|].
    intros Hr. apply (I3 Hr); [|assumption].
    eapply dict_get_Some_In; eauto.
  - intros fuel s d num t h1 h2. unfold rtlsim_multi_io.
    pose proof (setup_counters sname s d) as C.
    destruct (setup sname (entry s d)) as [f0 [[]|e]]; simpl in C;
      destruct C as (_ & _ & _ & _ & _ & C & _).
    + apply while_loop_keeps; [apply cycle_consumed|].
      rewrite C. apply consumed_from_refl.
    + simpl. rewrite C. apply consumed_from_refl.
  - intros num t h1 h2 k f fk. apply iterate_transfers.
  - intros fuel s d num t h1 h2 f n ND E. unfold rtlsim_multi_io in E.
    pose proof (setup_counters sname s d) as C.
    destruct (setup sname (entry s d)) as [f0 [[]|e]]; [|discriminate].
    simpl in C. destruct C as (_ & C2 & _ & _ & _ & C & _).
    destruct (while_loop_returned num sname t h1 h2 fuel f0 f n E)
      as (k & _ & Hi & Hn & _).
    exists f0. split; [reflexivity|]. intros inp q G.
    replace (Z.to_nat n) with k by lia.
    apply (iterate_transfers num sname t h1 h2 k f0 f); rewrite ?C; assumption.
Qed.

End InPlace.

(** An accepted handshake replaces the queue [5, 7] by [7]; a call that
    raises the stall error leaves the input queue of the example empty; a
    call that returns after two accepted handshakes has taken two words. *)
Lemma inputs_consumed_in_place_witness :
  (exists g : frame unit,
      read_inputs "_V_V_" (entry accepting_sim stream_io) = (g, Ok tt) /\
      dict_get "in0" (inputs (io_dict g)) = Some [7]) /\
  (exists f : frame unit,
      rtlsim_multi_io 3 idle_sim stream_io 2 "_V_V_" 3 None None
      = (f, Raised SimulationStalledError) /\
      inputs (io_dict f) = [("in0", [])] /\
      consumed_from [("in0", [5; 7])] (inputs (io_dict f))) /\
  (exists f : frame unit,
      rtlsim_multi_io 20 passthrough_sim stream_io 2 "_V_V_" 10000 None None
      = (f, Returned 4) /\
      dict_get "in0" (inputs (io_dict f)) = Some (skipn 2 [5; 7])).
Proof.
  destruct (inputs_consumed_in_place (K := unit) "_V_V_") as (H1 & H2 & _ & H4).
  split; [|split].
  - pose (f := entry accepting_sim stream_io).
    exists (fst (read_inputs "_V_V_" f)).
    split; [vm_compute; reflexivity|].
    destruct (H1 f (fst (read_inputs "_V_V_" f)) (Ok tt)) with (inp := "in0")
      (q := [5; 7]) as [_ H].
    + repeat constructor. intros [].
    + vm_compute. reflexivity.
    + reflexivity.
    + destruct (H eq_refl) as (b & Hb & G).
      vm_compute in Hb. injection Hb as <-. exact G.
  - exists (fst (rtlsim_multi_io 3 idle_sim stream_io 2 "_V_V_" 3 None None)).
    split; [vm_compute; reflexivity|]. split; [vm_compute; reflexivity|].
    apply (H2 3%nat idle_sim stream_io 2 3 None None).
  - pose (f := fst (rtlsim_multi_io 20 passthrough_sim stream_io 2 "_V_V_"
                      10000 None None)).
    exists f. split; [vm_compute; reflexivity|].
    destruct (H4 20%nat passthrough_sim stream_io 2 10000 None None f 4)
      as (f0 & Hs & H).
    + repeat constructor. intros [].
    + vm_compute. reflexivity.
    + rewrite (H "in0" [5; 7] eq_refl). f_equal. f_equal.
      vm_compute in Hs. injection Hs as <-. vm_compute. reflexivity.
Defined.

(** ** More on the signal accessor *)

Lemma lower_ascii_idem c : lower_ascii (lower_ascii c) = lower_ascii c.
Proof. destruct c as [[] [] [] [] [] [] [] []]; reflexivity. Qed.

Lemma lower_idem s : lower (lower s) = lower s.
Proof.
  induction s as [|c r IH]; simpl; [reflexivity|].
  rewrite lower_ascii_idem, IH. reflexivity.
Qed.

Section DictUpdates.
Context {V : Type}.

Lemma dict_set_set (k : string) (a b : V) (d : dict V) :
  dict_set k b (dict_set k a d) = dict_set k b d.
Proof.
  induction d as [|[k' v'] r IH]; simpl.
  - rewrite String.eqb_refl. reflexivity.
  - destruct (String.eqb k k') eqn:E; simpl; rewrite E; [reflexivity|].
    rewrite IH. reflexivity.
Qed.

Lemma dict_set_same_value (k : string) (v : V) (d : dict V) :
  dict_get k d = Some v -> dict_set k v d = d.
Proof.
  induction d as [|[k' v'] r IH]; simpl; [discriminate|].
  destruct (String.eqb_spec k k') as [->|N].
  - intros H. injection H as ->. reflexivity.
  - intros H. rewrite IH by assumption. reflexivity.
Qed.

Lemma dict_set_comm (k1 k2 : string) (a b : V) (d : dict V) :
  k1 <> k2 -> In k1 (dict_keys d) -> In k2 (dict_keys d) ->
  dict_set k1 a (dict_set k2 b d) = dict_set k2 b (dict_set k1 a d).
Proof.
  intros N. induction d as [|[k v] r IH]; simpl; [tauto|].
  intros H1 H2.
  destruct (String.eqb_spec k2 k) as [E2|N2];
    destruct (String.eqb_spec k1 k) as [E1|N1]; simpl.
  - congruence.
  - subst k. destruct (String.eqb_spec k1 k2); [contradiction|].
    rewrite String.eqb_refl. reflexivity.
  - subst k. rewrite String.eqb_refl.
    destruct (String.eqb_spec k2 k1); [congruence|]. reflexivity.
  - destruct (String.eqb_spec k1 k); [contradiction|].
    destruct (String.eqb_spec k2 k); [contradiction|].
    f_equal. apply IH.
    + destruct H1; congruence.
    + destruct H2; congruence.
Qed.
End DictUpdates.

(** The literals that [int(s, 2)] accepts are made of white space, signs,
    binary digits, underscores and the letter of the prefix. *)
Lemma literal_eqb c d :
  Ascii.eqb c d = true -> literal_char d = true -> literal_char c = true.
Proof. intros E. apply Ascii.eqb_eq in E. subst. auto. Qed.

Lemma literal_space c : is_space c = true -> literal_char c = true.
Proof. intros E. unfold literal_char. rewrite E. reflexivity. Qed.

Lemma digits2_literal s : forall u acc z,
  digits2 u acc s = Some z -> str_forallb literal_char s = true.
Proof.
  induction s as [|c r IH]; intros u acc z H; [reflexivity|].
  cbn [digits2] in H. cbn [str_forallb].
  destruct (Ascii.eqb c "0") eqn:E0.
  { rewrite (IH _ _ _ H), (literal_eqb _ _ E0); reflexivity. }
  destruct (Ascii.eqb c "1") eqn:E1.
  { rewrite (IH _ _ _ H), (literal_eqb _ _ E1); reflexivity. }
  destruct (Ascii.eqb c "_") eqn:E2; [|discriminate].
  destruct u; [discriminate|].
  rewrite (IH _ _ _ H), (literal_eqb _ _ E2); reflexivity.
Qed.

Lemma lstrip_literal s :
  str_forallb literal_char (lstrip s) = true -> str_forallb literal_char s = true.
Proof.
  induction s as [|c r IH]; [reflexivity|].
  cbn [lstrip]. destruct (is_space c) eqn:E; [|auto].
  intros H. cbn [str_forallb]. rewrite (IH H), (literal_space c E). reflexivity.
Qed.

Lemma rstrip_literal s :
  str_forallb literal_char (rstrip s) = true -> str_forallb literal_char s = true.
Proof.
  induction s as [|c r IH]; [reflexivity|].
  cbn [rstrip]. destruct (rstrip r) as [|c' r'] eqn:R.
  - specialize (IH eq_refl). cbn [str_forallb]. rewrite IH.
    destruct (is_space c) eqn:E.
    + intros _. rewrite (literal_space c E). reflexivity.
    + cbn [str_forallb]. rewrite !andb_true_r. auto.
  - intros H. cbn [str_forallb] in H. apply andb_true_iff in H.
    destruct H as [H1 H2]. cbn [str_forallb]. rewrite H1, (IH H2). reflexivity.
Qed.

Lemma split_sign_literal s :
  str_forallb literal_char (snd (split_sign s)) = true ->
  str_forallb literal_char s = true.
Proof.
  destruct s as [|c r]; [reflexivity|]. unfold split_sign.
  destruct (Ascii.eqb c "+") eqn:E1; [|destruct (Ascii.eqb c "-") eqn:E2];
    cbn [snd str_forallb]; auto; intros ->.
  - rewrite (literal_eqb _ _ E1); reflexivity.
  - rewrite (literal_eqb _ _ E2); reflexivity.
Qed.

Lemma skip_prefix_literal s :
  str_forallb literal_char (skip_prefix s) = true ->
  str_forallb literal_char s = true.
Proof.
  destruct s as [|c0 [|c1 r]]; auto. unfold skip_prefix.
  destruct (Ascii.eqb c0 "0") eqn:E0; [|auto]. cbn [andb].
  destruct (Ascii.eqb c1 "b" || Ascii.eqb c1 "B") eqn:E1; [|auto].
  assert (L0 : literal_char c0 = true)
    by (apply (literal_eqb _ _ E0); reflexivity).
  assert (L1 : literal_char c1 = true).
  { apply orb_true_iff in E1.
    destruct E1 as [E|E]; apply (literal_eqb _ _ E); reflexivity. }
  destruct r as [|c2 r'].
  - intros _. cbn [str_forallb]. rewrite L0, L1. reflexivity.
  - destruct (Ascii.eqb c2 "_") eqn:E2; cbn [str_forallb]; intros H;
      rewrite L0, L1, ?H; [|reflexivity].
    rewrite (literal_eqb _ _ E2); reflexivity.
Qed.

Lemma int_base2_literal s z :
  int_base2 s = Some z -> str_forallb literal_char s = true.
Proof.
  unfold int_base2. intros H.
  apply lstrip_literal, rstrip_literal, split_sign_literal.
  destruct (split_sign (rstrip (lstrip s))) as [neg body]. cbn [snd].
  apply skip_prefix_literal.
  destruct (skip_prefix body) as [|c r]; [discriminate|].
  destruct (Ascii.eqb c "_"); [discriminate|].
  destruct (digits2 false 0 (String c r)) as [d|] eqn:D; [|discriminate].
  eapply digits2_literal; eauto.
Qed.

(** A string of binary digits is the rendering of its value. *)
Lemma render_bits_value pv :
  is_bits pv = true -> pv <> EmptyString ->
  render (String.length pv) (bits_value 0 pv) = pv.
Proof.
  intros Hb Hne.
  assert (Hw : (1 <= String.length pv)%nat).
  { destruct pv; [congruence|simpl; lia]. }
  pose proof (bits_value_range pv) as R.
  destruct (render_spec (String.length pv) (bits_value 0 pv) Hw ltac:(lia))
    as (H1 & H2 & H3).
  apply bits_injective; auto.
  rewrite H3. apply Z.mod_small. assumption.
Qed.

Section AccessorFacts.
Context {K : Type}.
Implicit Types (s : XSI K) (n c : string).

Lemma find_signal_Ok n s s' c :
  _find_signal n s = (s', Ok c) ->
  s' = s /\ resolve (dict_keys (ports s)) n = Ok c.
Proof.
  rewrite find_signal_resolve. intros H. injection H as <- H. auto.
Qed.

Lemma resolve_cases names n c :
  resolve names n = Ok c -> c = n \/ (c = lower n /\ ~ In n names).
Proof.
  unfold resolve. destruct (str_in n names) eqn:E1.
  - intros H. injection H as <-. auto.
  - destruct (str_in (lower n) names); [|discriminate].
    intros H. injection H as <-. right. split; [reflexivity|].
    apply str_in_not_In. assumption.
Qed.

Lemma resolve_exact names c : In c names -> resolve names c = Ok c.
Proof.
  intros H. unfold resolve. apply str_in_In in H. rewrite H. reflexivity.
Qed.

(** What a successful write is. *)
Lemma write_signal_Ok n v s s' :
  _write_signal n v s = (s', Ok tt) ->
  exists c pv,
    resolve (dict_keys (ports s)) n = Ok c /\
    dict_get c (ports s) = Some pv /\ 0 <= v /\
    s' = written s c (render (String.length pv) v).
Proof.
  intros E. destruct (signal_width s n) as [w|] eqn:W.
  - apply signal_width_Some in W. destruct W as (c & pv & R & G & L).
    rewrite (write_signal_resolved s n c pv v R G) in E.
    destruct (Z.ltb_spec v 0); [discriminate|].
    injection E as <-. exists c, pv. auto.
  - rewrite write_signal_unresolved in E by assumption. discriminate.
Qed.

(** X1. A name that resolves resolves to the name of a port, which is
    the queried name or its lowercase form; resolving the answer gives
    the answer again, and the simulator knows the port. *)
Theorem find_signal_idempotent s n c s' :
  _find_signal n s = (s', Ok c) ->
  s' = s /\ In c (signal_list s) /\ (c = n \/ c = lower n) /\
  _find_signal c s = (s, Ok c) /\
  exists pv, get_port_value c s = (s, Ok pv).
Proof.
  intros E. apply find_signal_Ok in E. destruct E as [-> R].
  pose proof (resolve_In _ _ _ R) as Hin.
  split; [reflexivity|]. split; [rewrite signal_list_keys; assumption|].
  split; [destruct (resolve_cases _ _ _ R) as [H|[H _]]; auto|].
  split; [rewrite find_signal_resolve, resolve_exact by assumption; reflexivity|].
  destruct (dict_get_In c (ports s) Hin) as [pv G].
  exists pv. unfold get_port_value. rewrite G. reflexivity.
Qed.

(** X2. A port whose name has a capital letter is reached by its exact
    name only: the fallback tries the lowercase form of the query, which
    is never such a name. *)
Theorem mixed_case_port_needs_exact_name s n c s' :
  lower c <> c -> _find_signal n s = (s', Ok c) -> n = c.
Proof.
  intros Hc E. apply find_signal_Ok in E. destruct E as [_ R].
  destruct (resolve_cases _ _ _ R) as [H|[H _]]; [auto|].
  elim Hc. rewrite H. apply lower_idem.
Qed.

(** X3. A write succeeds exactly when the name resolves and the value is
    not negative. A write that fails leaves the handle as it was, and
    raises the signal-not-found error when the name does not resolve,
    whatever the value, and the negative-value error otherwise. *)
Theorem write_signal_outcome s n v :
  ((exists s', _write_signal n v s = (s', Ok tt)) <->
   signal_width s n <> None /\ 0 <= v) /\
  (forall s' e,
      _write_signal n v s = (s', Raise e) ->
      s' = s /\
      ((e = SignalNotFoundError n /\ signal_width s n = None) \/
       (e = NegativeValueUnsupportedError /\ v < 0 /\
        signal_width s n <> None))).
Proof.
  destruct (signal_width s n) as [w|] eqn:W.
  - pose proof W as W'. apply signal_width_Some in W'.
    destruct W' as (c & pv & R & G & L).
    rewrite (write_signal_resolved s n c pv v R G).
    destruct (Z.ltb_spec v 0) as [Hv|Hv]; split.
    + split; [intros [s' H]; discriminate|intros [_ H]; lia].
    + intros s' e H. injection H as <- <-. split; [reflexivity|].
      right. repeat split; auto. discriminate.
    + split; [intros _; split; [discriminate|lia]|eauto].
    + intros s' e H. discriminate.
  - rewrite write_signal_unresolved by assumption. split.
    + split; [intros [s' H]; discriminate|intros [H _]; congruence].
    + intros s' e H. injection H as <- <-. auto.
Qed.

(** X4. A successful write sets one port, the one the name resolves to:
    the port names and their order, every other port, the state of the
    design and the design stay as they were, one call is made, and a
    signal that resolves to another port resolves and reads as before. *)
Theorem write_changes_one_port s n v s' :
  _write_signal n v s = (s', Ok tt) ->
  exists c value,
    _find_signal n s = (s, Ok c) /\
    dict_keys (ports s') = dict_keys (ports s) /\
    dict_get c (ports s') = Some value /\
    (forall p, p <> c -> dict_get p (ports s') = dict_get p (ports s)) /\
    kernel s' = kernel s /\ design s' = design s /\
    calls s' = (calls s ++ [SetPortValue c value])%list /\
    (forall m cm,
        _find_signal m s = (s, Ok cm) -> cm <> c ->
        _find_signal m s' = (s', Ok cm) /\
        snd (_read_signal m s') = snd (_read_signal m s)).
Proof.
  intros E. apply write_signal_Ok in E.
  destruct E as (c & pv & R & G & Hv & ->).
  pose proof (resolve_In _ _ _ R) as Hin.
  exists c, (render (String.length pv) v).
  split; [rewrite find_signal_resolve, R; reflexivity|].
  split; [apply written_keys; assumption|].
  split; [apply dict_get_set_same|].
  assert (Ho : forall p, p <> c ->
             dict_get p (ports (written s c (render (String.length pv) v)))
             = dict_get p (ports s)).
  { intros p Hp. simpl. apply dict_get_set_other. congruence. }
  split; [exact Ho|]. split; [reflexivity|]. split; [reflexivity|].
  split; [reflexivity|].
  intros m cm Em Hcm. apply find_signal_Ok in Em. destruct Em as [_ Rm].
  assert (Rm' : resolve (dict_keys (ports (written s c
                   (render (String.length pv) v)))) m = Ok cm).
  { rewrite written_keys; assumption. }
  split; [rewrite find_signal_resolve, Rm'; reflexivity|].
  destruct (dict_get_In cm (ports s) (resolve_In _ _ _ Rm)) as [pm Gm].
  rewrite (read_signal_resolved s m cm pm Rm Gm).
  rewrite (read_signal_resolved _ m cm pm Rm'); [reflexivity|].
  rewrite Ho; assumption.
Qed.

(** X5. Of two writes to a signal of width at least 1 the last one wins:
    the signal reads as the second value, and the port table is the one
    the second write alone would have left. *)
Theorem last_write_wins s n w v1 v2 :
  signal_width s n = Some w -> (1 <= w)%nat -> 0 <= v1 -> 0 <= v2 ->
  exists s1 s2,
    _write_signal n v1 s = (s1, Ok tt) /\
    _write_signal n v2 s1 = (s2, Ok tt) /\
    _read_signal n s2 = (s2, Ok (v2 mod 2 ^ Z.of_nat w)) /\
    ports s2 = ports (fst (_write_signal n v2 s)).
Proof.
  intros W Hw H1 H2.
  destruct (write_then_read s n w v1 W Hw H1)
    as (c & R & E1 & R1 & G1 & W1 & _).
  destruct (write_then_read _ n w v2 W1 Hw H2)
    as (c' & R1' & E2 & _ & _ & _ & Rd).
  assert (c' = c) by congruence. subst c'.
  destruct (write_then_read s n w v2 W Hw H2) as (c' & R' & E2' & _).
  assert (c' = c) by congruence. subst c'.
  eexists. eexists. split; [exact E1|]. split; [exact E2|].
  split; [exact Rd|]. rewrite E2'. simpl. apply dict_set_set.
Qed.

(** X6. Writes to signals that resolve to different ports commute: in
    either order both succeed and leave the same port table. *)
Theorem writes_to_distinct_ports_commute s n1 n2 c1 c2 v1 v2 :
  _find_signal n1 s = (s, Ok c1) -> _find_signal n2 s = (s, Ok c2) ->
  c1 <> c2 -> 0 <= v1 -> 0 <= v2 ->
  exists sa sb,
    bind (_write_signal n1 v1) (fun _ => _write_signal n2 v2) s = (sa, Ok tt) /\
    bind (_write_signal n2 v2) (fun _ => _write_signal n1 v1) s = (sb, Ok tt) /\
    ports sa = ports sb /\ kernel sa = kernel sb.
Proof.
  intros E1 E2 N H1 H2.
  apply find_signal_Ok in E1. destruct E1 as [_ R1].
  apply find_signal_Ok in E2. destruct E2 as [_ R2].
  pose proof (resolve_In _ _ _ R1) as I1.
  pose proof (resolve_In _ _ _ R2) as I2.
  destruct (dict_get_In c1 (ports s) I1) as [p1 G1].
  destruct (dict_get_In c2 (ports s) I2) as [p2 G2].
  unfold bind.
  rewrite (write_signal_resolved s n1 c1 p1 v1 R1 G1).
  rewrite (write_signal_resolved s n2 c2 p2 v2 R2 G2).
  destruct (Z.ltb_spec v1 0); [lia|]. destruct (Z.ltb_spec v2 0); [lia|].
  rewrite (write_signal_resolved _ n2 c2 p2 v2).
  2:{ rewrite written_keys; assumption. }
  2:{ simpl. rewrite dict_get_set_other; assumption. }
  rewrite (write_signal_resolved _ n1 c1 p1 v1).
  2:{ rewrite written_keys; assumption. }
  2:{ simpl. rewrite dict_get_set_other; [assumption|congruence]. }
  destruct (Z.ltb_spec v1 0); [lia|]. destruct (Z.ltb_spec v2 0); [lia|].
  eexists. eexists. split; [reflexivity|]. split; [reflexivity|].
  split; [|reflexivity]. simpl. apply dict_set_comm; auto.
Qed.

(** X7. A signal whose port holds binary digits, at least one, reads as
    a number from 0 up to, not including, 2 to the number of digits,
    and writing that number back leaves every port as it was. *)
Theorem read_then_write_back s n c pv :
  _find_signal n s = (s, Ok c) -> dict_get c (ports s) = Some pv ->
  is_bits pv = true -> pv <> EmptyString ->
  exists z s',
    _read_signal n s = (s, Ok z) /\
    0 <= z < 2 ^ Z.of_nat (String.length pv) /\
    _write_signal n z s = (s', Ok tt) /\
    ports s' = ports s.
Proof.
  intros E G Hb Hne. apply find_signal_Ok in E. destruct E as [_ R].
  pose proof (bits_value_range pv) as Hr.
  exists (bits_value 0 pv). eexists.
  split; [rewrite (read_signal_resolved s n c pv R G), int_base2_bits by
            assumption; reflexivity|].
  split; [assumption|].
  rewrite (write_signal_resolved s n c pv _ R G).
  destruct (Z.ltb_spec (bits_value 0 pv) 0); [lia|].
  split; [reflexivity|]. simpl.
  rewrite render_bits_value by assumption.
  apply dict_set_same_value. assumption.
Qed.

(** X8. A read of a signal whose port holds a character that no binary
    literal has, such as the X or Z of an undefined bit, raises the
    value error with the port's value and leaves the handle as it was. *)
Theorem read_rejects_undefined_bits s n c pv :
  _find_signal n s = (s, Ok c) -> dict_get c (ports s) = Some pv ->
  str_forallb literal_char pv = false ->
  _read_signal n s = (s, Raise (ValueError pv)).
Proof.
  intros E G Hl. apply find_signal_Ok in E. destruct E as [_ R].
  rewrite (read_signal_resolved s n c pv R G).
  destruct (int_base2 pv) as [z|] eqn:I; [|reflexivity].
  apply int_base2_literal in I. congruence.
Qed.

End AccessorFacts.

(** The data port of the example resolves by its exact name. *)
Lemma find_signal_idempotent_witness :
  _find_signal "in0_V_V_TDATA" idle_sim = (idle_sim, Ok "in0_V_V_TDATA") /\
  exists pv, get_port_value "in0_V_V_TDATA" idle_sim = (idle_sim, Ok pv).
Proof.
  destruct (find_signal_idempotent idle_sim "in0_V_V_TDATA" "in0_V_V_TDATA"
              idle_sim eq_refl) as (_ & _ & _ & H1 & H2).
  split; [exact H1|exact H2].
Defined.

(** The port named Data is found under that name, and under no other:
    the query in small letters does not resolve. *)
Lemma mixed_case_port_needs_exact_name_witness :
  _find_signal "Data" mixed_case_sim = (mixed_case_sim, Ok "Data") /\
  "Data" = "Data" /\
  _find_signal "data" mixed_case_sim
  = (mixed_case_sim, Raise (SignalNotFoundError "data")).
Proof.
  split; [reflexivity|]. split; [|reflexivity].
  apply (mixed_case_port_needs_exact_name mixed_case_sim "Data" "Data"
           mixed_case_sim).
  - vm_compute. discriminate.
  - reflexivity.
Defined.

(** A write of 1 to the clock of the example succeeds; a write of -1 and a
    write to a signal the example does not have do not. *)
Lemma write_signal_outcome_witness :
  (exists s', _write_signal "ap_clk" 1 idle_sim = (s', Ok tt)) /\
  signal_width idle_sim "nope" = None.
Proof.
  split.
  - apply (write_signal_outcome idle_sim "ap_clk" 1).
    split; [discriminate|lia].
  - destruct (write_signal_outcome idle_sim "nope" 1) as [_ H].
    destruct (H idle_sim (SignalNotFoundError "nope") eq_refl)
      as [_ [[_ H']|[H' _]]]; [exact H'|discriminate].
Defined.

(** A write to the data port of the example leaves its clock alone. *)
Lemma write_changes_one_port_witness :
  exists c value,
    _find_signal "in0_V_V_TDATA" idle_sim = (idle_sim, Ok c) /\
    calls (fst (_write_signal "in0_V_V_TDATA" 5 idle_sim))
    = [SetPortValue c value] /\
    dict_get "ap_clk" (ports (fst (_write_signal "in0_V_V_TDATA" 5 idle_sim)))
    = Some "0".
Proof.
  destruct (write_changes_one_port idle_sim "in0_V_V_TDATA" 5
              (fst (_write_signal "in0_V_V_TDATA" 5 idle_sim)) eq_refl)
    as (c & value & H1 & _ & _ & H4 & _ & _ & H7 & _).
  exists c, value. split; [exact H1|]. split; [exact H7|].
  rewrite H4; [reflexivity|].
  injection H1 as <-. discriminate.
Defined.

(** 165 and then 90 written to the data port of the example. *)
Lemma last_write_wins_witness :
  exists s1 s2,
    _write_signal "in0_V_V_TDATA" 165 idle_sim = (s1, Ok tt) /\
    _write_signal "in0_V_V_TDATA" 90 s1 = (s2, Ok tt) /\
    _read_signal "in0_V_V_TDATA" s2 = (s2, Ok (90 mod 2 ^ Z.of_nat 8)) /\
    ports s2 = ports (fst (_write_signal "in0_V_V_TDATA" 90 idle_sim)).
Proof.
  apply (last_write_wins idle_sim "in0_V_V_TDATA" 8 165 90).
  - reflexivity.
  - lia.
  - lia.
  - lia.
Defined.

(** The valid and data ports of the example, written in either order. *)
Lemma writes_to_distinct_ports_commute_witness :
  exists sa sb,
    bind (_write_signal "in0_V_V_TVALID" 1)
         (fun _ => _write_signal "in0_V_V_TDATA" 5) idle_sim = (sa, Ok tt) /\
    bind (_write_signal "in0_V_V_TDATA" 5)
         (fun _ => _write_signal "in0_V_V_TVALID" 1) idle_sim = (sb, Ok tt) /\
    ports sa = ports sb /\ kernel sa = kernel sb.
Proof.
  apply (writes_to_distinct_ports_commute idle_sim "in0_V_V_TVALID"
           "in0_V_V_TDATA" "in0_V_V_TVALID" "in0_V_V_TDATA" 1 5).
  - reflexivity.
  - reflexivity.
  - discriminate.
  - lia.
  - lia.
Defined.

(** The data port of the two-output example holds 3. *)
Lemma read_then_write_back_witness :
  exists z s',
    _read_signal "out0_V_V_TDATA" two_output_sim = (two_output_sim, Ok z) /\
    0 <= z < 2 ^ Z.of_nat (String.length "00000011") /\
    _write_signal "out0_V_V_TDATA" z two_output_sim = (s', Ok tt) /\
    ports s' = ports two_output_sim.
Proof.
  apply (read_then_write_back two_output_sim "out0_V_V_TDATA" "out0_V_V_TDATA"
           "00000011").
  - reflexivity.
  - reflexivity.
  - reflexivity.
  - discriminate.
Defined.

(** A port that holds an undefined bit. *)
Lemma read_rejects_undefined_bits_witness :
  _read_signal "p" (mkXSI [("p", "0X1")] tt idle_design [])
  = (mkXSI [("p", "0X1")] tt idle_design [], Raise (ValueError "0X1")).
Proof.
  apply (read_rejects_undefined_bits (mkXSI [("p", "0X1")] tt idle_design [])
           "p" "p" "0X1").
  - reflexivity.
  - reflexivity.
  - reflexivity.
Defined.

(** ** More on the clock edges and the reset sequence *)

Section EdgeFacts.
Context {K : Type}.
Implicit Types (s : XSI K) (n c : string).

(** A write makes at most one call, and that call sets a port. *)
Lemma write_signal_one_call n v s :
  exists W, calls (fst (_write_signal n v s)) = (calls s ++ W)%list /\
            forallb is_set_port_value W = true /\ (List.length W <= 1)%nat.
Proof.
  destruct (signal_width s n) as [w|] eqn:W.
  - apply signal_width_Some in W. destruct W as (c & pv & R & G & _).
    rewrite (write_signal_resolved s n c pv v R G).
    destruct (v <? 0); simpl.
    + exists []. rewrite app_nil_r. auto.
    + eexists [_]. repeat split. simpl. lia.
  - rewrite write_signal_unresolved by assumption.
    exists []. simpl. rewrite app_nil_r. auto.
Qed.

Lemma apply_writes_bounded stw ks : forall s,
  exists W,
    calls (fst (for_each ks
                  (fun sig =>
                     match dict_get sig stw with
                     | Some v => _write_signal sig v
                     | None => raise (KeyError sig)
                     end) s)) = (calls s ++ W)%list /\
    forallb is_set_port_value W = true /\
    (List.length W <= List.length ks)%nat.
Proof.
  induction ks as [|k ks IH]; intros s; cbn [for_each].
  - exists []. simpl. rewrite app_nil_r. auto.
  - unfold bind.
    assert (H1 : exists W,
               calls (fst (match dict_get k stw with
                           | Some v => _write_signal k v
                           | None => raise (KeyError k)
                           end s)) = (calls s ++ W)%list /\
               forallb is_set_port_value W = true /\
               (List.length W <= 1)%nat).
    { destruct (dict_get k stw); [apply write_signal_one_call|].
      exists []. simpl. rewrite app_nil_r. auto. }
    destruct H1 as (W1 & E1 & F1 & L1).
    destruct (match dict_get k stw with
              | Some v => _write_signal k v
              | None => raise (KeyError k)
              end s) as [s1 [[]|e]]; simpl in E1.
    + destruct (IH s1) as (W2 & E2 & F2 & L2).
      exists (W1 ++ W2)%list.
      rewrite E2, E1, app_assoc, forallb_app, F1, F2, length_app.
      repeat split. simpl. lia.
    + exists W1. repeat split; auto. simpl. lia.
Qed.

(** The calls of a rising edge. *)
Lemma pos_edge_calls s clk stw :
  match signal_width s clk with
  | Some w =>
      exists c W,
        _find_signal clk s = (s, Ok c) /\
        calls (fst (toggle_pos_edge clk stw s))
        = (calls s ++ [SetPortValue c (render w 1); Run 5000] ++ W)%list /\
        forallb is_set_port_value W = true /\
        (List.length W <= List.length stw)%nat
  | None => toggle_pos_edge clk stw s = (s, Raise (SignalNotFoundError clk))
  end.
Proof.
  destruct (signal_width s clk) as [w|] eqn:W.
  - apply signal_width_Some in W. destruct W as (c & pv & R & G & L).
    unfold toggle_pos_edge, bind.
    rewrite (write_signal_resolved s clk c pv 1 R G).
    change (1 <? 0) with false. cbv iota. rewrite run_advanced, L.
    set (s1 := advanced (written s c (render w 1)) 5000).
    assert (C1 : calls s1
                 = (calls s ++ [SetPortValue c (render w 1); Run 5000])%list).
    { unfold s1. simpl. rewrite <- app_assoc. reflexivity. }
    exists c. destruct stw as [|e stw].
    + exists []. split; [rewrite find_signal_resolve, R; reflexivity|].
      cbv [ret comb_update_and_trace fst].
      rewrite C1, app_nil_r. repeat split. simpl. lia.
    + destruct (apply_writes_bounded (e :: stw) (dict_keys (e :: stw)) s1)
        as (W & E & F & Hl).
      fold (@apply_writes K (e :: stw)) in E.
      exists W. split; [rewrite find_signal_resolve, R; reflexivity|].
      unfold dict_keys in Hl. rewrite length_map in Hl.
      split; [|split; assumption].
      cbv iota.
      destruct (apply_writes (e :: stw) s1) as [s2 [[]|e']];
        cbn [fst] in E; cbv [ret comb_update_and_trace fst];
        rewrite E, C1, <- app_assoc; reflexivity.
  - unfold toggle_pos_edge, bind.
    rewrite write_signal_unresolved by assumption. reflexivity.
Qed.

(** X9. The rising edge, whatever the handle and the staged writes:
    when the clock resolves, the resolved clock port is set to 1 and time
    advances once, and all that follows is at most one port write per
    staged signal, also when one of these writes fails; when the clock
    does not resolve, nothing is done and the error is raised. *)
Theorem pos_edge_advances_once s clk stw :
  match signal_width s clk with
  | Some w =>
      exists c W,
        _find_signal clk s = (s, Ok c) /\
        calls (fst (toggle_pos_edge clk stw s))
        = (calls s ++ [SetPortValue c (render w 1); Run 5000] ++ W)%list /\
        forallb is_set_port_value W = true /\
        (List.length W <= List.length stw)%nat
  | None => toggle_pos_edge clk stw s = (s, Raise (SignalNotFoundError clk))
  end.
Proof. apply pos_edge_calls. Qed.

(** *** Port names under a steady design *)

Lemma write_keeps_keys n v s :
  dict_keys (ports (fst (_write_signal n v s))) = dict_keys (ports s).
Proof.
  destruct (signal_width s n) as [w|] eqn:W.
  - apply signal_width_Some in W. destruct W as (c & pv & R & G & _).
    rewrite (write_signal_resolved s n c pv v R G).
    destruct (v <? 0); [reflexivity|].
    apply written_keys. eapply resolve_In; eauto.
  - rewrite write_signal_unresolved by assumption. reflexivity.
Qed.

Lemma advanced_keys s t :
  steady s -> dict_keys (ports (advanced s t)) = dict_keys (ports s).
Proof.
  intros St. rewrite <- !shape_keys, advanced_shape by assumption.
  reflexivity.
Qed.

Lemma signal_width_keys s s' n :
  dict_keys (ports s') = dict_keys (ports s) ->
  signal_width s n <> None -> signal_width s' n <> None.
Proof.
  intros Hk H H'. apply H. apply signal_width_None.
  apply signal_width_None in H'. rewrite <- Hk. assumption.
Qed.

(** The staged writes on a handle on which all their signals resolve. *)
Lemma staged_writes_outcome (names : list string) stw ks : forall s s' r,
  dict_keys (ports s) = names ->
  (forall sig, In sig ks ->
               In sig (dict_keys stw) /\
               resolve names sig <> Raise (SignalNotFoundError sig)) ->
  for_each ks
    (fun sig =>
       match dict_get sig stw with
       | Some v => _write_signal sig v
       | None => raise (KeyError sig)
       end) s = (s', r) ->
  match r with
  | Ok _ => forall sig v, In sig ks -> dict_get sig stw = Some v -> 0 <= v
  | Raise e =>
      e = NegativeValueUnsupportedError /\
      exists sig v, In sig ks /\ dict_get sig stw = Some v /\ v < 0
  end.
Proof.
  induction ks as [|k ks IH]; intros s s' r Hn Hk E; cbn [for_each] in E.
  - injection E as <- <-. intros sig v [].
  - unfold bind in E.
    destruct (Hk k (or_introl eq_refl)) as [Hin Hres].
    destruct (dict_get_In k stw Hin) as [v0 G0]. rewrite G0 in E.
    destruct (signal_width s k) as [w|] eqn:W.
    2:{ apply signal_width_None in W. rewrite Hn in W. contradiction. }
    apply signal_width_Some in W. destruct W as (c & pv & R & G & _).
    rewrite (write_signal_resolved s k c pv v0 R G) in E.
    destruct (Z.ltb_spec v0 0) as [Hv0|Hv0].
    + injection E as <- <-. split; [reflexivity|].
      exists k, v0. simpl. auto.
    + assert (Hkeys : dict_keys (ports (written s c
                         (render (String.length pv) v0))) = names).
      { rewrite written_keys; [assumption|]. eapply resolve_In; eauto. }
      specialize (IH _ s' r Hkeys (fun sig H => Hk sig (or_intror H)) E).
      destruct r as [[]|e].
      * intros sig v [<-|H] G'; [|eauto].
        assert (v = v0) by congruence. subst v. assumption.
      * destruct IH as (-> & sig & v & H1 & H2 & H3).
        split; [reflexivity|]. exists sig, v. simpl. auto.
Qed.

(** X10. On a steady simulator, when the clock and every staged signal
    resolve, the rising edge runs to its end exactly when no staged
    value is negative, and otherwise raises the negative-value error,
    after the clock was set and time advanced. *)
Theorem pos_edge_rejects_negative s clk stw :
  steady s -> signal_width s clk <> None ->
  (forall sig, In sig (dict_keys stw) -> signal_width s sig <> None) ->
  ((exists s', toggle_pos_edge clk stw s = (s', Ok tt)) <->
   (forall sig v, dict_get sig stw = Some v -> 0 <= v)) /\
  (forall s' e,
      toggle_pos_edge clk stw s = (s', Raise e) ->
      e = NegativeValueUnsupportedError /\
      (exists sig v, dict_get sig stw = Some v /\ v < 0) /\
      In (Run 5000) (calls s')).
Proof.
  intros St Wc Hres.
  destruct (signal_width s clk) as [w|] eqn:W; [clear Wc|congruence].
  pose proof (pos_edge_calls s clk stw) as Hcalls. rewrite W in Hcalls.
  destruct Hcalls as (c0 & W0 & _ & Hcalls & _).
  apply signal_width_Some in W. destruct W as (c & pv & R & G & L).
  assert (Hrun : forall s' r, toggle_pos_edge clk stw s = (s', r) ->
                              In (Run 5000) (calls s')).
  { intros s' r E. rewrite E in Hcalls. simpl in Hcalls. rewrite Hcalls.
    apply in_or_app. right. right. left. reflexivity. }
  revert Hrun.
  unfold toggle_pos_edge, bind.
  rewrite (write_signal_resolved s clk c pv 1 R G).
  change (1 <? 0) with false. cbv iota. rewrite run_advanced.
  set (s1 := advanced (written s c (render (String.length pv) 1)) 5000).
  intros Hrun.
  assert (St1 : forall t p k,
             dict_keys (fst (design s t p k)) = dict_keys p).
  { intros t p k. rewrite <- !shape_keys, St. reflexivity. }
  assert (K1 : dict_keys (ports s1) = dict_keys (ports s)).
  { unfold s1. cbn [advanced ports written design kernel].
    rewrite St1. apply dict_keys_set. eapply resolve_In; eauto. }
  destruct stw as [|e0 stw].
  { unfold ret, comb_update_and_trace. split.
    - split; [intros _ sig v H; discriminate|].
      intros _. exists s1. reflexivity.
    - intros s' e H. discriminate. }
  pose proof (staged_writes_outcome (dict_keys (ports s)) (e0 :: stw)
                (dict_keys (e0 :: stw)) s1) as Hout.
  fold (@apply_writes K (e0 :: stw)) in Hout.
  assert (Hk : forall sig, In sig (dict_keys (e0 :: stw)) ->
             In sig (dict_keys (e0 :: stw)) /\
             resolve (dict_keys (ports s)) sig
             <> Raise (SignalNotFoundError sig)).
  { intros sig H. split; [assumption|]. intros H'.
    apply (Hres sig H). apply signal_width_None. assumption. }
  destruct (apply_writes (e0 :: stw) s1) as [s2 [[]|e]] eqn:Ea;
    specialize (Hout s2 _ K1 Hk eq_refl); cbv beta iota in Hout;
    unfold ret, comb_update_and_trace.
  - split.
    + split; [|intros _; exists s2; reflexivity].
      intros _ sig v Gv. apply (Hout sig v); [|assumption].
      eapply dict_get_Some_In; eauto.
    + intros s' e H. discriminate.
  - destruct Hout as (-> & sig & v & H1 & H2 & H3). split.
    + split; [intros [s' H]; discriminate|].
      intros H. specialize (H sig v H2). lia.
    + intros s' e H. injection H as <- <-.
      split; [reflexivity|]. split; [eauto|].
      apply (Hrun s2 (Raise NegativeValueUnsupportedError)). reflexivity.
Qed.

End EdgeFacts.

(** A rising edge on the example with a word staged for its data port. *)
Lemma pos_edge_rejects_negative_witness :
  exists s',
    toggle_pos_edge "ap_clk" [("in0_V_V_TVALID", 1); ("in0_V_V_TDATA", 5)]
      idle_sim = (s', Ok tt).
Proof.
  apply (pos_edge_rejects_negative idle_sim "ap_clk"
           [("in0_V_V_TVALID", 1); ("in0_V_V_TDATA", 5)]).
  - exact idle_sim_steady.
  - discriminate.
  - intros sig [<-|[<-|[]]]; discriminate.
  - intros sig v H. simpl in H.
    destruct (String.eqb sig "in0_V_V_TVALID"); [injection H as <-; lia|].
    destruct (String.eqb sig "in0_V_V_TDATA"); [injection H as <-; lia|].
    discriminate.
Defined.

(** ** What the ports hold after the edges and after a reset *)

Section PortLevels.
Context {K : Type}.
Implicit Types (s : XSI K) (n c : string).

Lemma frame_of_refl s T : frame_of s s T.
Proof. split; [apply same_iface_refl|auto]. Qed.

Lemma frame_write s0 s T n w v c :
  frame_of s0 s T -> signal_width s0 n = Some w -> (1 <= w)%nat -> 0 <= v ->
  resolve (dict_keys (ports s0)) n = Ok c -> In c T ->
  _write_signal n v s = (written s c (render w v), Ok tt) /\
  frame_of s0 (written s c (render w v)) T /\
  dict_get c (ports (written s c (render w v))) = Some (render w v) /\
  (forall p, p <> c ->
             dict_get p (ports (written s c (render w v)))
             = dict_get p (ports s)).
Proof.
  intros [I F] W Hw Hv R Hin.
  destruct (write_iface s0 s n w v I W Hw Hv) as (c1 & R1 & E1 & I1).
  assert (c1 = c) by congruence. subst c1.
  assert (Ho : forall p, p <> c ->
             dict_get p (ports (written s c (render w v)))
             = dict_get p (ports s)).
  { intros p Hp. simpl. apply dict_get_set_other. congruence. }
  split; [assumption|]. split; [|split; [apply dict_get_set_same|exact Ho]].
  split; [assumption|]. intros p Hp Hu.
  rewrite Ho by (intros ->; contradiction). auto.
Qed.

Lemma frame_run s0 s T t :
  steady s0 -> frame_of s0 s T ->
  frame_of s0 (advanced s t) T /\
  (forall p, undriven s0 p ->
             dict_get p (ports (advanced s t)) = dict_get p (ports s)).
Proof.
  intros St [I F].
  assert (Hu : forall p, undriven s0 p ->
             dict_get p (ports (advanced s t)) = dict_get p (ports s)).
  { intros p Hp. destruct I as [_ Hd]. cbn [advanced ports]. rewrite Hd.
    apply Hp. }
  split; [|exact Hu]. split; [apply run_iface; assumption|].
  intros p Hp Hpu. rewrite Hu by assumption. auto.
Qed.

Lemma read_rendered s0 s n c w v :
  same_iface s0 s -> resolve (dict_keys (ports s0)) n = Ok c ->
  dict_get c (ports s) = Some (render w v) -> (1 <= w)%nat -> 0 <= v ->
  _read_signal n s = (s, Ok (v mod 2 ^ Z.of_nat w)).
Proof.
  intros [Hs _] R G Hw Hv.
  rewrite <- shape_keys, <- Hs, shape_keys in R.
  rewrite (read_signal_resolved s n c _ R G), render_read by assumption.
  reflexivity.
Qed.

Lemma one_mod_pow w : (1 <= w)%nat -> 1 mod 2 ^ Z.of_nat w = 1.
Proof.
  intros Hw. apply Z.mod_small.
  pose proof (Z.pow_gt_1 2 (Z.of_nat w) ltac:(lia)). lia.
Qed.

(** A falling edge and then a rising edge with the writes [stw], on a
    clock that the design does not drive. *)
Lemma frame_neg_edge s0 s T clk c wc :
  steady s0 -> frame_of s0 s T ->
  signal_width s0 clk = Some wc -> (1 <= wc)%nat ->
  resolve (dict_keys (ports s0)) clk = Ok c -> In c T -> undriven s0 c ->
  exists s',
    toggle_neg_edge clk s = (s', Ok tt) /\ frame_of s0 s' T /\
    dict_get c (ports s') = Some (render wc 0) /\
    (forall p, p <> c -> undriven s0 p ->
               dict_get p (ports s') = dict_get p (ports s)).
Proof.
  intros St F W Hw R Hin Hu.
  destruct (frame_write s0 s T clk wc 0 c F W Hw ltac:(lia) R Hin)
    as (E1 & F1 & G1 & O1).
  destruct (frame_run s0 _ T 5000 St F1) as [F2 U2].
  eexists. split; [|split; [exact F2|split]].
  - unfold toggle_neg_edge, bind. rewrite E1, run_advanced. reflexivity.
  - rewrite U2 by assumption. exact G1.
  - intros p Hp Hpu. rewrite U2 by assumption. apply O1. assumption.
Qed.

Lemma frame_pos_edge_empty s0 s T clk c wc :
  steady s0 -> frame_of s0 s T ->
  signal_width s0 clk = Some wc -> (1 <= wc)%nat ->
  resolve (dict_keys (ports s0)) clk = Ok c -> In c T -> undriven s0 c ->
  exists s',
    toggle_pos_edge clk [] s = (s', Ok tt) /\ frame_of s0 s' T /\
    dict_get c (ports s') = Some (render wc 1) /\
    (forall p, p <> c -> undriven s0 p ->
               dict_get p (ports s') = dict_get p (ports s)).
Proof.
  intros St F W Hw R Hin Hu.
  destruct (frame_write s0 s T clk wc 1 c F W Hw ltac:(lia) R Hin)
    as (E1 & F1 & G1 & O1).
  destruct (frame_run s0 _ T 5000 St F1) as [F2 U2].
  eexists. split; [|split; [exact F2|split]].
  - unfold toggle_pos_edge, bind, ret, comb_update_and_trace.
    rewrite E1, run_advanced. reflexivity.
  - rewrite U2 by assumption. exact G1.
  - intros p Hp Hpu. rewrite U2 by assumption. apply O1. assumption.
Qed.

Lemma frame_pos_edge_single s0 s T clk c wc sig r wr v :
  steady s0 -> frame_of s0 s T ->
  signal_width s0 clk = Some wc -> (1 <= wc)%nat ->
  resolve (dict_keys (ports s0)) clk = Ok c -> In c T -> undriven s0 c ->
  signal_width s0 sig = Some wr -> (1 <= wr)%nat ->
  resolve (dict_keys (ports s0)) sig = Ok r -> In r T -> c <> r -> 0 <= v ->
  exists s',
    toggle_pos_edge clk [(sig, v)] s = (s', Ok tt) /\ frame_of s0 s' T /\
    dict_get c (ports s') = Some (render wc 1) /\
    dict_get r (ports s') = Some (render wr v).
Proof.
  intros St F W Hw R Hin Hu W' Hw' R' Hin' N Hv.
  destruct (frame_write s0 s T clk wc 1 c F W Hw ltac:(lia) R Hin)
    as (E1 & F1 & G1 & O1).
  destruct (frame_run s0 _ T 5000 St F1) as [F2 U2].
  destruct (frame_write s0 _ T sig wr v r F2 W' Hw' Hv R' Hin')
    as (E3 & F3 & G3 & O3).
  eexists. split; [|split; [exact F3|split; [|exact G3]]].
  - unfold toggle_pos_edge, bind, ret, comb_update_and_trace.
    rewrite E1, run_advanced.
    unfold apply_writes. cbn [dict_keys map fst for_each dict_get].
    rewrite String.eqb_refl. unfold bind. rewrite E3. reflexivity.
  - rewrite O3 by assumption. rewrite U2 by assumption. exact G1.
Qed.

(** The reset sequence from a handle that has the interface of [s0]. *)
Lemma reset_state s0 s rst active_low clk c r wc wr :
  steady s0 -> frame_of s0 s [c; r] ->
  resolve (dict_keys (ports s0)) clk = Ok c ->
  resolve (dict_keys (ports s0)) rst = Ok r -> c <> r ->
  signal_width s0 clk = Some wc -> (1 <= wc)%nat ->
  signal_width s0 rst = Some wr -> (1 <= wr)%nat ->
  undriven s0 c -> undriven s0 r ->
  exists s',
    reset_rtlsim rst active_low clk s = (s', Ok tt) /\
    frame_of s0 s' [c; r] /\
    dict_get c (ports s') = Some (render wc 1) /\
    dict_get r (ports s') = Some (render wr (if active_low then 1 else 0)).
Proof.
  intros St F Rc Rr N Wc Hwc Wr Hwr Uc Ur.
  assert (Ha : 0 <= (if active_low then 0 else 1)) by (destruct active_low; lia).
  assert (Hd : 0 <= (if active_low then 1 else 0)) by (destruct active_low; lia).
  assert (Ic : In c [c; r]) by (left; reflexivity).
  assert (Ir : In r [c; r]) by (right; left; reflexivity).
  destruct (frame_write s0 s _ clk wc 0 c F Wc Hwc ltac:(lia) Rc Ic)
    as (E1 & F1 & _).
  destruct (frame_write s0 _ _ rst wr _ r F1 Wr Hwr Ha Rr Ir) as (E2 & F2 & _).
  destruct (frame_neg_edge s0 _ _ clk c wc St F2 Wc Hwc Rc Ic Uc)
    as (s3 & E3 & F3 & _).
  destruct (frame_pos_edge_empty s0 _ _ clk c wc St F3 Wc Hwc Rc Ic Uc)
    as (s4 & E4 & F4 & _).
  destruct (frame_neg_edge s0 _ _ clk c wc St F4 Wc Hwc Rc Ic Uc)
    as (s5 & E5 & F5 & _).
  destruct (frame_pos_edge_empty s0 _ _ clk c wc St F5 Wc Hwc Rc Ic Uc)
    as (s6 & E6 & F6 & _).
  destruct (frame_neg_edge s0 _ _ clk c wc St F6 Wc Hwc Rc Ic Uc)
    as (s7 & E7 & F7 & _).
  destruct (frame_pos_edge_single s0 _ _ clk c wc rst r wr _ St F7 Wc Hwc Rc Ic
              Uc Wr Hwr Rr Ir N Hd) as (s8 & E8 & F8 & _ & G8).
  destruct (frame_neg_edge s0 _ _ clk c wc St F8 Wc Hwc Rc Ic Uc)
    as (s9 & E9 & F9 & _ & O9).
  destruct (frame_pos_edge_empty s0 _ _ clk c wc St F9 Wc Hwc Rc Ic Uc)
    as (s10 & E10 & F10 & G10 & O10).
  exists s10. split; [|split; [exact F10|split; [exact G10|]]].
  - unfold reset_rtlsim, bind.
    rewrite E1, E2. cbn [seq for_each]. unfold toggle_clk, bind.
    rewrite E3, E4, E5, E6. unfold ret. cbn [dict_set].
    rewrite E7, E8, E9, E10. reflexivity.
  - rewrite O10, O9 by (assumption || congruence). exact G8.
Qed.

(** X11. On a steady simulator whose design does not drive the clock
    port, a signal of at least one bit: after the falling edge the clock
    reads 0, after the rising edge it reads 1, and the two edges are what
    a full cycle does. *)
Theorem clock_reads_as_driven s clk c w :
  steady s -> _find_signal clk s = (s, Ok c) ->
  signal_width s clk = Some w -> (1 <= w)%nat -> undriven s c ->
  exists s1 s2,
    toggle_neg_edge clk s = (s1, Ok tt) /\
    _read_signal clk s1 = (s1, Ok 0) /\
    toggle_pos_edge clk [] s1 = (s2, Ok tt) /\
    _read_signal clk s2 = (s2, Ok 1) /\
    toggle_clk clk [] s = (s2, Ok tt).
Proof.
  intros St E W Hw Hu. apply find_signal_Ok in E. destruct E as [_ R].
  assert (Ic : In c [c]) by (left; reflexivity).
  destruct (frame_neg_edge s s [c] clk c w St (frame_of_refl s _) W Hw R Ic Hu)
    as (s1 & E1 & F1 & G1 & _).
  destruct (frame_pos_edge_empty s s1 [c] clk c w St F1 W Hw R Ic Hu)
    as (s2 & E2 & F2 & G2 & _).
  exists s1, s2. split; [exact E1|]. split.
  { rewrite (read_rendered s s1 clk c w 0 (proj1 F1) R G1 Hw ltac:(lia)).
    rewrite Z.mod_0_l; [reflexivity|].
    pose proof (Z.pow_pos_nonneg 2 (Z.of_nat w)). lia. }
  split; [exact E2|]. split.
  { rewrite (read_rendered s s2 clk c w 1 (proj1 F2) R G2 Hw ltac:(lia)).
    rewrite one_mod_pow by assumption. reflexivity. }
  unfold toggle_clk, bind. rewrite E1. exact E2.
Qed.

(** X12. On a steady simulator whose design drives neither the clock nor
    the reset port, two different ports of at least one bit: the reset
    sequence runs to its end, and afterwards the reset signal reads as
    deasserted and the clock reads 1, and every other port that the
    design does not drive holds what it held; a second reset leaves the
    clock and the reset port as the first one did. *)
Theorem reset_end_state s rst active_low clk c r wc wr :
  steady s -> _find_signal clk s = (s, Ok c) -> _find_signal rst s = (s, Ok r) ->
  c <> r ->
  signal_width s clk = Some wc -> (1 <= wc)%nat ->
  signal_width s rst = Some wr -> (1 <= wr)%nat ->
  undriven s c -> undriven s r ->
  exists s',
    reset_rtlsim rst active_low clk s = (s', Ok tt) /\
    _read_signal rst s' = (s', Ok (if active_low then 1 else 0)) /\
    _read_signal clk s' = (s', Ok 1) /\
    (forall p, p <> c -> p <> r -> undriven s p ->
               dict_get p (ports s') = dict_get p (ports s)) /\
    exists s'',
      reset_rtlsim rst active_low clk s' = (s'', Ok tt) /\
      dict_get c (ports s'') = dict_get c (ports s') /\
      dict_get r (ports s'') = dict_get r (ports s').
Proof.
  intros St Ec Er N Wc Hwc Wr Hwr Uc Ur.
  apply find_signal_Ok in Ec. destruct Ec as [_ Rc].
  apply find_signal_Ok in Er. destruct Er as [_ Rr].
  destruct (reset_state s s rst active_low clk c r wc wr St (frame_of_refl s _)
              Rc Rr N Wc Hwc Wr Hwr Uc Ur) as (s1 & E1 & F1 & Gc1 & Gr1).
  destruct (reset_state s s1 rst active_low clk c r wc wr St F1
              Rc Rr N Wc Hwc Wr Hwr Uc Ur) as (s2 & E2 & F2 & Gc2 & Gr2).
  exists s1. split; [exact E1|]. split.
  { rewrite (read_rendered s s1 rst r wr _ (proj1 F1) Rr Gr1 Hwr)
      by (destruct active_low; lia).
    destruct active_low; [rewrite one_mod_pow by assumption; reflexivity|].
    rewrite Z.mod_0_l; [reflexivity|].
    pose proof (Z.pow_pos_nonneg 2 (Z.of_nat wr)). lia. }
  split.
  { rewrite (read_rendered s s1 clk c wc 1 (proj1 F1) Rc Gc1 Hwc ltac:(lia)).
    rewrite one_mod_pow by assumption. reflexivity. }
  split.
  { intros p Hc Hr Hu. apply (proj2 F1); [|assumption].
    intros [->|[->|[]]]; congruence. }
  exists s2. split; [exact E2|]. split; congruence.
Qed.

(** X13. A reset on a handle without the clock signal does nothing and
    raises; on a handle with the clock signal and without the reset
    signal it sets the clock port to 0, advances no time, and raises. *)
Theorem reset_missing_signal s rst active_low clk :
  (signal_width s clk = None ->
   reset_rtlsim rst active_low clk s = (s, Raise (SignalNotFoundError clk))) /\
  (forall wc,
      signal_width s clk = Some wc -> signal_width s rst = None ->
      exists c,
        _find_signal clk s = (s, Ok c) /\
        reset_rtlsim rst active_low clk s
        = (written s c (render wc 0), Raise (SignalNotFoundError rst))).
Proof.
  split.
  - intros W. unfold reset_rtlsim, bind.
    rewrite write_signal_unresolved by assumption. reflexivity.
  - intros wc W Wr. apply signal_width_Some in W.
    destruct W as (c & pv & R & G & L).
    exists c. split; [rewrite find_signal_resolve, R; reflexivity|].
    unfold reset_rtlsim, bind.
    rewrite (write_signal_resolved s clk c pv 0 R G).
    change (0 <? 0) with false. cbv iota. rewrite L.
    rewrite write_signal_unresolved; [reflexivity|].
    apply signal_width_None. apply signal_width_None in Wr.
    rewrite written_keys; [assumption|]. eapply resolve_In; eauto.
Qed.

End PortLevels.

Lemma idle_sim_undriven c : undriven idle_sim c.
Proof. intros t p k. reflexivity. Qed.

(** The clock of the example. *)
Lemma clock_reads_as_driven_witness :
  exists s1 s2,
    toggle_neg_edge "ap_clk" idle_sim = (s1, Ok tt) /\
    _read_signal "ap_clk" s1 = (s1, Ok 0) /\
    toggle_pos_edge "ap_clk" [] s1 = (s2, Ok tt) /\
    _read_signal "ap_clk" s2 = (s2, Ok 1) /\
    toggle_clk "ap_clk" [] idle_sim = (s2, Ok tt).
Proof.
  apply (clock_reads_as_driven idle_sim "ap_clk" "ap_clk" 1).
  - exact idle_sim_steady.
  - reflexivity.
  - reflexivity.
  - lia.
  - apply idle_sim_undriven.
Defined.

(** The reset of the example, active low: the reset signal ends at 1. *)
Lemma reset_end_state_witness :
  exists s',
    reset_rtlsim "ap_rst_n" true "ap_clk" idle_sim = (s', Ok tt) /\
    _read_signal "ap_rst_n" s' = (s', Ok 1) /\
    _read_signal "ap_clk" s' = (s', Ok 1).
Proof.
  destruct (reset_end_state idle_sim "ap_rst_n" true "ap_clk" "ap_clk" "ap_rst_n"
              1 1 idle_sim_steady eq_refl eq_refl ltac:(discriminate)
              eq_refl (le_n 1) eq_refl (le_n 1)
              (idle_sim_undriven _) (idle_sim_undriven _))
    as (s' & H1 & H2 & H3 & _).
  exists s'. split; [exact H1|]. split; [exact H2|exact H3].
Defined.

(** A reset of the example through a reset signal that it does not have. *)
Lemma reset_missing_signal_witness :
  exists c,
    _find_signal "ap_clk" idle_sim = (idle_sim, Ok c) /\
    reset_rtlsim "rst" true "ap_clk" idle_sim
    = (written idle_sim c (render 1 0), Raise (SignalNotFoundError "rst")).
Proof.
  destruct (reset_missing_signal idle_sim "rst" true "ap_clk") as [_ H].
  apply (H 1%nat); reflexivity.
Defined.

(** ** The output channels *)

Lemma total_words_set k q q' : forall d,
  dict_get k d = Some q ->
  total_words (dict_set k q' d)
  = total_words d - Z.of_nat (List.length q) + Z.of_nat (List.length q').
Proof.
  induction d as [|[k0 q0] r IH]; simpl; [discriminate|].
  destruct (String.eqb k k0); simpl.
  - intros H. injection H as ->. lia.
  - intros H. rewrite IH by assumption. lia.
Qed.

Lemma extended_from_refl d : extended_from d d.
Proof.
  split; [reflexivity|]. intros outp q H. exists []. rewrite app_nil_r.
  assumption.
Qed.

Lemma extended_from_push d0 d outp q ws :
  extended_from d0 d -> dict_get outp d = Some q ->
  extended_from d0 (dict_set outp (q ++ ws)%list d).
Proof.
  intros [Hk Hq] G. split.
  - rewrite dict_keys_set; [assumption|]. eapply dict_get_Some_In; eauto.
  - intros outp' q0 G0. destruct (Hq outp' q0 G0) as [ws0 G1].
    destruct (String.eqb_spec outp outp') as [<-|N].
    + rewrite dict_get_set_same.
      assert (q = (q0 ++ ws0)%list) by congruence. subst q.
      exists (ws0 ++ ws)%list. rewrite app_assoc. reflexivity.
    + rewrite dict_get_set_other by assumption. eauto.
Qed.

Section OutputChannels.
Context {K : Type}.
Implicit Types (f g : frame K) (s : XSI K).

Lemma ready_valid_handshake s n :
  handshake n s = (s, Ok (ready_valid s n)) \/
  exists e, handshake n s = (s, Raise e) /\ ready_valid s n = false.
Proof.
  unfold ready_valid. pose proof (handshake_pure n s) as H.
  destruct (handshake n s) as [s' [b|e]]; simpl in H; subst s'; eauto.
Qed.

Lemma ready_valid_true s n :
  ready_valid s n = true <->
  _read_signal (n ++ "TREADY") s = (s, Ok 1) /\
  _read_signal (n ++ "TVALID") s = (s, Ok 1).
Proof.
  rewrite <- handshake_true. unfold ready_valid.
  pose proof (handshake_pure n s) as H.
  destruct (handshake n s) as [s' [b|e]]; simpl in H; subst s'.
  - split; [intros ->; reflexivity|congruence].
  - split; discriminate.
Qed.

(** The block that examines the output channels. *)
Lemma read_outputs_for sname ks : forall f f',
  NoDup ks ->
  for_each ks (read_output sname) f = (f', Ok tt) ->
  sim f' = sim f /\ inputs (io_dict f') = inputs (io_dict f) /\
  dict_keys (outputs (io_dict f')) = dict_keys (outputs (io_dict f)) /\
  (forall outp, ~ In outp ks ->
     dict_get outp (outputs (io_dict f'))
     = dict_get outp (outputs (io_dict f))) /\
  (forall outp q,
     In outp ks -> dict_get outp (outputs (io_dict f)) = Some q ->
     if ready_valid (sim f) (outp ++ sname) then
       exists word,
         _read_signal ((outp ++ sname) ++ "TDATA") (sim f) = (sim f, Ok word) /\
         dict_get outp (outputs (io_dict f')) = Some (q ++ [word])%list
     else dict_get outp (outputs (io_dict f')) = Some q) /\
  output_count f'
  = output_count f
    + Z.of_nat (List.length
                  (filter (fun outp => ready_valid (sim f) (outp ++ sname)) ks)).
Proof.
  induction ks as [|k ks IH]; intros f f' ND E.
  - simpl in E. injection E as <-. simpl.
    repeat split; auto; try lia; intros outp q [].
  - inversion ND as [|? ? Hk ND']; subst.
    cbn [for_each] in E. unfold bind in E. rewrite read_output_eq in E.
    destruct (dict_get k (outputs (io_dict f))) as [q0|] eqn:G; [|discriminate].
    assert (Hin : In k (dict_keys (outputs (io_dict f))))
      by (eapply dict_get_Some_In; eauto).
    destruct (ready_valid_handshake (sim f) (k ++ sname)) as [Hh|(e & Hh & Hb)];
      rewrite Hh in E; cbn [snd] in E; [|discriminate].
    cbn [filter].
    destruct (ready_valid (sim f) (k ++ sname)) eqn:B.
    + pose proof (read_signal_pure ((k ++ sname) ++ "TDATA") (sim f)) as Hp.
      destruct (_read_signal ((k ++ sname) ++ "TDATA") (sim f))
        as [s' [word|e]] eqn:Ed; simpl in Hp; subst s'; cbn [snd] in E;
        [|discriminate].
      set (f1 := set_io_dict _ _) in E.
      destruct (IH f1 f' ND' E) as (I1 & I2 & I3 & I4 & I5 & I6).
      split; [exact I1|]. split; [exact I2|].
      split; [rewrite I3; simpl; apply dict_keys_set; assumption|].
      split; [|split].
      * intros outp N. rewrite I4 by (intros H; apply N; right; assumption).
        simpl. apply dict_get_set_other. intros ->. apply N. left. reflexivity.
      * intros outp q [<-|H] Gq.
        -- rewrite B. exists word. split; [exact Ed|].
           rewrite I4 by assumption. simpl.
           assert (q0 = q) by congruence. subst q0. apply dict_get_set_same.
        -- assert (N : k <> outp) by (intros ->; contradiction).
           assert (Gq' : dict_get outp (outputs (io_dict f1)) = Some q).
           { simpl. rewrite dict_get_set_other; assumption. }
           exact (I5 outp q H Gq').
      * rewrite I6. simpl. lia.
    + set (f1 := set_io_dict _ _) in E.
      destruct (IH f1 f' ND' E) as (I1 & I2 & I3 & I4 & I5 & I6).
      split; [exact I1|]. split; [exact I2|].
      split; [rewrite I3; simpl; apply dict_keys_set; assumption|].
      split; [|split].
      * intros outp N. rewrite I4 by (intros H; apply N; right; assumption).
        simpl. apply dict_get_set_other. intros ->. apply N. left. reflexivity.
      * intros outp q [<-|H] Gq.
        -- rewrite B. rewrite I4 by assumption. simpl.
           assert (q0 = q) by congruence. subst q0. apply dict_get_set_same.
        -- assert (N : k <> outp) by (intros ->; contradiction).
           assert (Gq' : dict_get outp (outputs (io_dict f1)) = Some q).
           { simpl. rewrite dict_get_set_other; assumption. }
           exact (I5 outp q H Gq').
      * rewrite I6. simpl. lia.
Qed.

(** X14. When the output channels are examined and the block runs to
    its end: a channel whose TREADY and TVALID both read 1 gets the value
    read from its TDATA appended to its buffer, every other channel keeps
    its buffer, and the output word count goes up by the number of
    channels that were appended to; the handle and the input queues are
    left as they were. *)
Theorem output_channel_cycle sname f f' :
  NoDup (dict_keys (outputs (io_dict f))) ->
  read_outputs sname f = (f', Ok tt) ->
  sim f' = sim f /\ inputs (io_dict f') = inputs (io_dict f) /\
  dict_keys (outputs (io_dict f')) = dict_keys (outputs (io_dict f)) /\
  (forall outp q,
     dict_get outp (outputs (io_dict f)) = Some q ->
     (ready_valid (sim f) (outp ++ sname) = true <->
      _read_signal ((outp ++ sname) ++ "TREADY") (sim f) = (sim f, Ok 1) /\
      _read_signal ((outp ++ sname) ++ "TVALID") (sim f) = (sim f, Ok 1)) /\
     if ready_valid (sim f) (outp ++ sname) then
       exists word,
         _read_signal ((outp ++ sname) ++ "TDATA") (sim f) = (sim f, Ok word) /\
         dict_get outp (outputs (io_dict f')) = Some (q ++ [word])%list
     else dict_get outp (outputs (io_dict f')) = Some q) /\
  output_count f'
  = output_count f
    + Z.of_nat (List.length
                  (filter (fun outp => ready_valid (sim f) (outp ++ sname))
                          (dict_keys (outputs (io_dict f))))).
Proof.
  intros ND E. unfold read_outputs in E.
  destruct (read_outputs_for sname _ f f' ND E) as (I1 & I2 & I3 & _ & I5 & I6).
  split; [exact I1|]. split; [exact I2|]. split; [exact I3|].
  split; [|exact I6].
  intros outp q G. split; [apply ready_valid_true|].
  apply I5; [|assumption]. eapply dict_get_Some_In; eauto.
Qed.

(** *** What a run does to the output buffers *)

(** A property of the output buffers and the output word count that
    receiving a word keeps is kept by every block of a cycle. *)
Lemma read_outputs_keeps_outputs (Q : dict (list Z) -> Z -> Prop) sname :
  (forall o c outp q word,
      Q o c -> dict_get outp o = Some q ->
      Q (dict_set outp (q ++ [word])%list o) (c + 1)) ->
  keeps (fun g : frame K => Q (outputs (io_dict g)) (output_count g))
        (read_outputs sname).
Proof.
  intros HQ f Hf. unfold read_outputs.
  apply keeps_for_each; [|assumption].
  intros outp _ g Hg. rewrite read_output_eq.
  destruct (dict_get outp (outputs (io_dict g))) as [q|] eqn:G; [|assumption].
  destruct (snd (handshake _ _)) as [[|]|e]; simpl; auto.
  - destruct (snd (_read_signal _ _)); simpl; auto.
  - rewrite dict_set_same_value by assumption. assumption.
Qed.

Lemma read_inputs_keeps_outputs (Q : dict (list Z) -> Z -> Prop) sname :
  keeps (fun g : frame K => Q (outputs (io_dict g)) (output_count g))
        (read_inputs sname).
Proof.
  intros f Hf. unfold read_inputs.
  apply keeps_for_each; [|assumption].
  intros inp _ g Hg. rewrite read_input_eq.
  destruct (dict_get inp _); [|assumption].
  destruct (snd (handshake _ _)); simpl; auto.
Qed.

Lemma cycle_keeps_outputs (Q : dict (list Z) -> Z -> Prop) num sname t h1 h2 :
  (forall o c outp q word,
      Q o c -> dict_get outp o = Some q ->
      Q (dict_set outp (q ++ [word])%list o) (c + 1)) ->
  keeps (fun g : frame K => Q (outputs (io_dict g)) (output_count g))
        (cycle num sname t h1 h2).
Proof.
  intros HQ. unfold cycle, phases.
  assert (Hs : forall f s, Q (outputs (io_dict f)) (output_count f) ->
               Q (outputs (io_dict (set_sim f s)))
                 (output_count (set_sim f s)))
    by (intros f s H; exact H).
  apply keeps_bind.
  { apply keeps_bind; [apply keeps_call_hook; assumption|intros _].
    apply keeps_bind; [apply keeps_on_sim; assumption|intros _].
    apply keeps_bind; [apply read_inputs_keeps_outputs|intros _].
    apply keeps_bind; [apply read_outputs_keeps_outputs; assumption|intros _].
    apply keeps_bind.
    { apply keeps_stage_inputs. intros f d H. exact H. }
    intros _.
    apply keeps_bind; [apply keeps_pos_edge; assumption|intros _].
    apply keeps_call_hook; assumption. }
  intros _ f Hf. rewrite bookkeeping_spec. exact Hf.
Qed.

Lemma engine_keeps_outputs (Q : dict (list Z) -> Z -> Prop)
    fuel s d num sname t h1 h2 :
  (forall o c outp q word,
      Q o c -> dict_get outp o = Some q ->
      Q (dict_set outp (q ++ [word])%list o) (c + 1)) ->
  Q (outputs d) 0 ->
  Q (outputs (io_dict (fst (rtlsim_multi_io fuel s d num sname t h1 h2))))
    (output_count (fst (rtlsim_multi_io fuel s d num sname t h1 h2))).
Proof.
  intros HQ H0. unfold rtlsim_multi_io.
  pose proof (setup_counters sname s d) as C.
  destruct (setup sname (entry s d)) as [f0 [[]|e]]; simpl in C;
    destruct C as (_ & _ & C1 & _ & _ & C2 & _).
  - apply (while_loop_keeps
             (fun g => Q (outputs (io_dict g)) (output_count g))).
    + apply cycle_keeps_outputs. assumption.
    + rewrite C1, C2. assumption.
  - simpl. rewrite C1, C2. assumption.
Qed.

(** X15. Whatever the outcome of a call, return, exception or exhausted
    bound, the mapping it leaves has the same output channels, and each
    buffer is the one the caller passed with words appended. *)
Theorem outputs_extended_in_place fuel s d num sname t h1 h2 :
  extended_from (outputs d)
    (outputs (io_dict (fst (rtlsim_multi_io fuel s d num sname t h1 h2)))).
Proof.
  apply (engine_keeps_outputs (fun o _ => extended_from (outputs d) o)).
  - intros o c outp q word H G. apply extended_from_push; assumption.
  - apply extended_from_refl.
Qed.

(** X16. Whatever the outcome of a call, the output word count is the
    number of words the call has appended to the output buffers; so a
    call that returns has appended exactly the target number of words,
    over all output channels. *)
Theorem output_count_counts_words fuel s d num sname t h1 h2 :
  let f := fst (rtlsim_multi_io fuel s d num sname t h1 h2) in
  total_words (outputs (io_dict f)) = total_words (outputs d) + output_count f /\
  (forall n,
      snd (rtlsim_multi_io fuel s d num sname t h1 h2) = Returned n ->
      total_words (outputs (io_dict f)) = total_words (outputs d) + num).
Proof.
  assert (H : total_words
                (outputs (io_dict (fst (rtlsim_multi_io fuel s d num sname t
                                          h1 h2))))
              = total_words (outputs d)
                + output_count (fst (rtlsim_multi_io fuel s d num sname t
                                       h1 h2))).
  { apply (engine_keeps_outputs
             (fun o c => total_words o = total_words (outputs d) + c)).
    - intros o c outp q word H G.
      rewrite (total_words_set outp q _ o G), length_app. simpl. lia.
    - lia. }
  split; [exact H|].
  intros n E. cbv zeta. rewrite H. f_equal.
  unfold rtlsim_multi_io in *.
  pose proof (setup_counters sname s d) as C.
  destruct (setup sname (entry s d)) as [f0 [[]|e]]; [|discriminate].
  simpl in C. destruct C as (C1 & _).
  destruct (while_loop fuel (cycle num sname t h1 h2) f0) as [f' r] eqn:W.
  simpl in E. subst r.
  destruct (while_loop_returned num sname t h1 h2 fuel f0 f' n W)
    as (k & _ & _ & _ & _ & _ & Hc).
  simpl. apply Hc. assumption.
Qed.

End OutputChannels.

(** The first cycle on the two-output example: both channels offer a word
    once the set-up has raised their TREADY. *)
Lemma output_channel_cycle_witness :
  exists f' : frame unit,
    read_outputs "_V_V_" (fst (setup "_V_V_" (entry two_output_sim two_output_io)))
    = (f', Ok tt) /\
    dict_get "out0" (outputs (io_dict f')) = Some [3] /\
    output_count f' = 2.
Proof.
  pose (f := fst (setup "_V_V_" (entry two_output_sim two_output_io))).
  exists (fst (read_outputs "_V_V_" f)).
  assert (ND : NoDup (dict_keys (outputs (io_dict f)))).
  { repeat constructor; simpl; intuition discriminate. }
  destruct (output_channel_cycle "_V_V_" f (fst (read_outputs "_V_V_" f)) ND)
    as (_ & _ & _ & H & Hc).
  - vm_compute. reflexivity.
  - split; [vm_compute; reflexivity|]. split.
    + destruct (H "out0" [] eq_refl) as [_ H0].
      change (ready_valid (sim f) ("out0" ++ "_V_V_")) with true in H0.
      destruct H0 as (word & Hw & G). vm_compute in Hw.
      injection Hw as <-. exact G.
    + rewrite Hc. vm_compute. reflexivity.
Defined.

(** The pass-through example returns with two words in its output
    buffer. *)
Lemma output_count_counts_words_witness :
  total_words
    (outputs (io_dict (fst (rtlsim_multi_io 20 passthrough_sim stream_io 2
                              "_V_V_" 10000 None None))))
  = total_words (outputs stream_io) + 2.
Proof.
  destruct (output_count_counts_words 20 passthrough_sim stream_io 2 "_V_V_"
              10000 None None) as [_ H].
  apply (H 4). vm_compute. reflexivity.
Defined.

(** ** The loop as a whole *)

Section LoopFacts.
Context {K : Type}.
Implicit Types (f g : frame K) (s : XSI K).

(** An invariant of the starts of the iterations, indexed by their
    number, holds where the loop ends. *)
Lemma while_loop_inv (I : nat -> frame K -> Prop) (body : M (frame K) unit) :
  (forall k f f', I k f -> output_done f = false -> body f = (f', Ok tt) ->
                  I (S k) f') ->
  forall fuel k f f' r,
    I k f -> while_loop fuel body f = (f', r) ->
    match r with
    | Returned n =>
        exists j, (j <= fuel)%nat /\ I (k + j)%nat f' /\
                  output_done f' = true /\ n = total_cycle_count f'
    | OutOfFuel => I (k + fuel)%nat f' /\ output_done f' = false
    | Raised e =>
        exists j fp, (j < fuel)%nat /\ I (k + j)%nat fp /\
                     output_done fp = false /\ body fp = (f', Raise e)
    end.
Proof.
  intros Hstep. induction fuel as [|fuel IH]; intros k f f' r Hf E;
    simpl in E; destruct (output_done f) eqn:D.
  - injection E as <- <-. exists 0%nat. rewrite Nat.add_0_r. auto.
  - injection E as <- <-. rewrite Nat.add_0_r. auto.
  - injection E as <- <-. exists 0%nat. rewrite Nat.add_0_r.
    repeat split; auto. lia.
  - destruct (body f) as [f1 [[]|e]] eqn:B.
    + specialize (IH (S k) f1 f' r (Hstep k f f1 Hf D B) E).
      destruct r as [n|e|].
      * destruct IH as (j & Hj & H1 & H2 & H3). exists (S j).
        rewrite Nat.add_succ_r. repeat split; auto. lia.
      * destruct IH as (j & fp & Hj & H1 & H2 & H3). exists (S j), fp.
        rewrite Nat.add_succ_r. repeat split; auto. lia.
      * rewrite Nat.add_succ_r. exact IH.
    + injection E as <- <-. exists 0%nat, f. rewrite Nat.add_0_r.
      repeat split; auto. lia.
Qed.

(** A loop that returns from [f] returns from every start of iteration
    on its way. *)
Lemma while_loop_from_iterate (body : M (frame K) unit) k :
  forall fuel f fk f' n,
    iterate k body f = Some fk ->
    while_loop fuel body f = (f', Returned n) ->
    output_done fk = false ->
    exists fuel', while_loop fuel' body fk = (f', Returned n).
Proof.
  induction k as [|k IH]; intros fuel f fk f' n Hi E D; simpl in Hi.
  - injection Hi as <-. eauto.
  - destruct (output_done f) eqn:Df; [discriminate|].
    destruct (body f) as [f1 [[]|e]] eqn:B; [|discriminate].
    destruct fuel as [|fuel]; simpl in E; rewrite Df in E; [discriminate|].
    rewrite B in E. eapply IH; eauto.
Qed.

Variables (num : Z) (sname : string) (t : Z).
Variables (h1 h2 : option (M (XSI K) unit)).

(** One iteration that runs to its end, on the counters. *)
Lemma cycle_ok_counters f f' :
  cycle num sname t h1 h2 f = (f', Ok tt) ->
  output_count f <= output_count f' /\
  old_output_count f' = output_count f' /\
  total_cycle_count f' = total_cycle_count f + 1 /\
  output_done f'
  = (if output_count f' =? num then true else output_done f) /\
  no_change_count f'
  = (if output_count f' =? old_output_count f
     then no_change_count f + 1 else 0) /\
  no_change_count f' <> t.
Proof.
  intros E. destruct (cycle_ok_phases num sname t h1 h2 f f' E) as [f1 Hp].
  pose proof (phases_counters sname h1 h2 f) as C.
  rewrite Hp in C. simpl in C. destruct C as (_ & _ & _ & _ & C5).
  destruct (cycle_counters num sname t h1 h2 f f1 Hp)
    as (g & Eg & _ & _ & _ & Hdone & Htot & Hc & Ho & Hncc & Hnext).
  rewrite E in Eg.
  destruct (Z.eqb_spec (next_no_change f1) t) as [Et|Nt]; [discriminate|].
  injection Eg as <-.
  rewrite Hc, Ho, Hncc. repeat split; auto; congruence.
Qed.

(** One iteration that raises, on the counters. *)
Lemma cycle_raise_counters f f' e :
  cycle num sname t h1 h2 f = (f', Raise e) ->
  output_count f <= output_count f' /\
  ((total_cycle_count f' = total_cycle_count f /\
    phases sname h1 h2 f = (f', Raise e)) \/
   (total_cycle_count f' = total_cycle_count f + 1 /\
    e = SimulationStalledError /\ no_change_count f' = t /\
    no_change_count f'
    = (if output_count f' =? old_output_count f
       then no_change_count f + 1 else 0))).
Proof.
  intros E.
  pose proof (phases_counters sname h1 h2 f) as C.
  destruct (phases sname h1 h2 f) as [f1 [[]|e1]] eqn:Hp; simpl in C;
    destruct C as (_ & C2 & _ & _ & C5).
  - destruct (cycle_counters num sname t h1 h2 f f1 Hp)
      as (g & Eg & _ & _ & _ & Hdone & Htot & Hc & Ho & Hncc & Hnext).
    rewrite E in Eg.
    destruct (Z.eqb_spec (next_no_change f1) t) as [Et|Nt]; [|discriminate].
    injection Eg as <- ->. rewrite Hc. split; [assumption|]. right.
    repeat split; auto; congruence.
  - rewrite (cycle_phases_raise num sname t h1 h2 f f1 e1 Hp) in E.
    injection E as <- <-. split; [assumption|]. left. auto.
Qed.

(** What holds of the counters at the start of iteration [k] of a call. *)
Lemma budget_step k f f' :
  1 <= t ->
  (old_output_count f = output_count f /\
   0 <= no_change_count f < t /\ 0 <= output_count f /\
   total_cycle_count f = Z.of_nat k /\
   total_cycle_count f <= output_count f * t + no_change_count f /\
   (if output_done f
    then output_count f = num /\ (1 <= k)%nat /\
         (num <> 0 -> no_change_count f = 0) /\ (num = 0 -> k = 1%nat)
    else (num <> 0 -> output_count f <> num) /\
         (num = 0 -> k = 0%nat \/ 0 < output_count f))) ->
  output_done f = false ->
  cycle num sname t h1 h2 f = (f', Ok tt) ->
  old_output_count f' = output_count f' /\
  0 <= no_change_count f' < t /\ 0 <= output_count f' /\
  total_cycle_count f' = Z.of_nat (S k) /\
  total_cycle_count f' <= output_count f' * t + no_change_count f' /\
  (if output_done f'
   then output_count f' = num /\ (1 <= S k)%nat /\
        (num <> 0 -> no_change_count f' = 0) /\ (num = 0 -> S k = 1%nat)
   else (num <> 0 -> output_count f' <> num) /\
        (num = 0 -> S k = 0%nat \/ 0 < output_count f')).
Proof.
  intros Ht (Hold & Hn & Hoc & Htot & Hb & Hd) D E.
  rewrite D in Hd. destruct Hd as [Hd1 Hd2].
  destruct (cycle_ok_counters f f' E) as (C1 & C2 & C3 & C4 & C5 & C6).
  rewrite Hold in C5. rewrite D in C4.
  split; [assumption|].
  assert (Hn' : 0 <= no_change_count f' < t).
  { rewrite C5 in *. destruct (output_count f' =? output_count f); lia. }
  split; [assumption|]. split; [lia|]. split; [lia|]. split.
  - rewrite C5. destruct (Z.eqb_spec (output_count f') (output_count f)).
    + nia.
    + nia.
  - rewrite C4. destruct (Z.eqb_spec (output_count f') num) as [En|Nn].
    + split; [assumption|]. split; [lia|]. split.
      * intros Hnum. rewrite C5.
        destruct (Z.eqb_spec (output_count f') (output_count f)) as [Eo|No];
          [|reflexivity].
        elim (Hd1 Hnum). congruence.
      * intros Hnum. destruct (Hd2 Hnum); lia.
    + split; [auto|]. intros Hnum. right. lia.
Qed.

(** X17. With a threshold of at least 1, whatever the outcome of a call:
    the cycle counter is at most the threshold times one more than the
    output word count, so the loop runs on only as long as words arrive;
    a call that returns took at most the target times the threshold
    cycles, and at least one; and a loop cut short by the bound of the
    model has run that many iterations. *)
Theorem cycles_bounded_by_progress fuel s d f r :
  1 <= t ->
  rtlsim_multi_io fuel s d num sname t h1 h2 = (f, r) ->
  0 <= output_count f /\
  total_cycle_count f <= (output_count f + 1) * t /\
  (forall n, r = Returned n -> 1 <= n <= Z.max 1 (num * t)) /\
  (r = OutOfFuel -> total_cycle_count f = Z.of_nat fuel).
Proof.
  intros Ht E. unfold rtlsim_multi_io in E.
  pose proof (setup_counters sname s d) as C.
  destruct (setup sname (entry s d)) as [f0 [[]|e]]; simpl in C;
    destruct C as (C1 & C2 & C3 & C4 & C5 & _).
  2:{ injection E as <- <-. rewrite C2, C3.
      repeat split; try lia; discriminate. }
  pose proof (while_loop_inv
                (fun k g =>
                   old_output_count g = output_count g /\
                   0 <= no_change_count g < t /\ 0 <= output_count g /\
                   total_cycle_count g = Z.of_nat k /\
                   total_cycle_count g
                   <= output_count g * t + no_change_count g /\
                   (if output_done g
                    then output_count g = num /\ (1 <= k)%nat /\
                         (num <> 0 -> no_change_count g = 0) /\
                         (num = 0 -> k = 1%nat)
                    else (num <> 0 -> output_count g <> num) /\
                         (num = 0 -> k = 0%nat \/ 0 < output_count g)))
                (cycle num sname t h1 h2)
                (fun k g g' => budget_step k g g' Ht)
                fuel 0%nat f0 f r) as H.
  cbv beta in H. rewrite C1 in H. specialize (H ltac:(repeat split; lia) E).
  destruct r as [n|e|].
  - destruct H as (j & Hj & (I1 & I2 & I3 & I4 & I5 & I6) & D & Hn).
    rewrite D in I6. destruct I6 as (J1 & J2 & J3 & J4).
    split; [assumption|]. split; [nia|]. split; [|discriminate].
    intros n' Hr. injection Hr as <-. rewrite Hn, I4. simpl in *.
    destruct (Z.eq_dec num 0) as [Z0|NZ].
    + rewrite (J4 Z0). lia.
    + specialize (J3 NZ). split; [lia|]. nia.
  - destruct H as (j & fp & Hj & (I1 & I2 & I3 & I4 & I5 & _) & D & B).
    destruct (cycle_raise_counters fp f e B) as [R1 [[R2 _]|(R2 & _ & R3 & R4)]].
    + split; [lia|]. split; [nia|]. split; discriminate.
    + split; [lia|]. split; [|split; discriminate].
      rewrite I1 in R4. rewrite R4 in R3.
      destruct (Z.eqb_spec (output_count f) (output_count fp)); nia.
  - destruct H as [(I1 & I2 & I3 & I4 & I5 & _) D].
    split; [assumption|]. split; [nia|]. split; [discriminate|].
    intros _. simpl in I4. exact I4.
Qed.

(** A loop that starts a cycle with more output words than the target
    never returns. *)
Lemma past_target_never_returns fuel f f' n :
  output_done f = false -> num < output_count f ->
  while_loop fuel (cycle num sname t h1 h2) f <> (f', Returned n).
Proof.
  intros D Hc E.
  pose proof (while_loop_inv
                (fun _ g => output_done g = false /\ num < output_count g)
                (cycle num sname t h1 h2)) as H.
  cbv beta in H.
  destruct (H ltac:(
    intros k g g' [G1 G2] _ B;
    destruct (cycle_ok_counters g g' B) as (C1 & _ & _ & C4 & _);
    rewrite C4, G1; split; [|lia];
    destruct (Z.eqb_spec (output_count g') num); [lia|reflexivity])
    fuel 0%nat f f' (Returned n) (conj D Hc) E)
    as (j & _ & [G1 _] & G2 & _).
  congruence.
Qed.

(** X18. The loop ends only when the output word count equals the
    target: once a cycle starts with a count above the target, as after
    a cycle in which several output channels delivered a word and the
    count stepped over it, no later cycle ends the loop, and the call
    does not return; nor does a call with a negative target. *)
Theorem overshoot_never_returns s d :
  (forall f0 k fk,
      setup sname (entry s d) = (f0, Ok tt) ->
      iterate k (cycle num sname t h1 h2) f0 = Some fk ->
      output_done fk = false -> num < output_count fk ->
      forall fuel f n,
        rtlsim_multi_io fuel s d num sname t h1 h2 <> (f, Returned n)) /\
  (num < 0 ->
   forall fuel f n,
     rtlsim_multi_io fuel s d num sname t h1 h2 <> (f, Returned n)).
Proof.
  split.
  - intros f0 k fk Hs Hi D Hc fuel f n E.
    unfold rtlsim_multi_io in E. rewrite Hs in E.
    destruct (while_loop_from_iterate _ k fuel f0 fk f n Hi E D) as [fuel' E'].
    exact (past_target_never_returns fuel' fk f n D Hc E').
  - intros Hnum fuel f n E. unfold rtlsim_multi_io in E.
    pose proof (setup_counters sname s d) as C.
    destruct (setup sname (entry s d)) as [f0 [[]|e]]; [|discriminate].
    simpl in C. destruct C as (C1 & _ & C3 & _).
    apply (past_target_never_returns fuel f0 f n C1); [lia|assumption].
Qed.

End LoopFacts.

(** The pass-through example returns after 4 cycles, within its budget of
    2 * 10000. *)
Lemma cycles_bounded_by_progress_witness :
  exists f : frame unit,
    rtlsim_multi_io 20 passthrough_sim stream_io 2 "_V_V_" 10000 None None
    = (f, Returned 4) /\
    total_cycle_count f <= (output_count f + 1) * 10000 /\
    1 <= 4 <= Z.max 1 (2 * 10000).
Proof.
  exists (fst (rtlsim_multi_io 20 passthrough_sim stream_io 2 "_V_V_" 10000
                 None None)).
  destruct (cycles_bounded_by_progress 2 "_V_V_" 10000 None None 20
              passthrough_sim stream_io
              (fst (rtlsim_multi_io 20 passthrough_sim stream_io 2 "_V_V_"
                      10000 None None))
              (Returned 4) ltac:(lia)) as (_ & H1 & H2 & _).
  - vm_compute. reflexivity.
  - split; [vm_compute; reflexivity|]. split; [exact H1|exact (H2 4 eq_refl)].
Defined.

(** Two output channels that deliver a word each in the first cycle step
    over a target of one word. *)
Lemma overshoot_never_returns_witness :
  output_count
    (fst (cycle 1 "_V_V_" 10000 None None
            (fst (setup "_V_V_" (entry two_output_sim two_output_io))))) = 2 /\
  forall fuel f n,
    rtlsim_multi_io fuel two_output_sim two_output_io 1 "_V_V_" 10000 None None
    <> (f, Returned n).
Proof.
  split; [vm_compute; reflexivity|].
  destruct (overshoot_never_returns 1 "_V_V_" 10000 None None
              two_output_sim two_output_io) as [H _].
  pose (f0 := fst (setup "_V_V_" (entry two_output_sim two_output_io))).
  pose (f1 := fst (cycle 1 "_V_V_" 10000 None None f0)).
  apply (H f0 1%nat f1).
  - vm_compute. reflexivity.
  - vm_compute. reflexivity.
  - vm_compute. reflexivity.
  - vm_compute. reflexivity.
Defined.

(** ** The exceptions of the engine *)

Section Raises.
Context {S : Type}.

Lemma raises_only_ret {A : Type} (E : exn -> Prop) (a : A) :
  raises_only E (@ret S A a).
Proof. intros s s' e H. discriminate. Qed.

Lemma raises_only_bind {A B : Type} (E : exn -> Prop) (m : M S A)
    (k : A -> M S B) :
  raises_only E m -> (forall a, raises_only E (k a)) ->
  raises_only E (bind m k).
Proof.
  intros Hm Hk s s' e H. unfold bind in H.
  destruct (m s) as [s1 [a|e1]] eqn:Em.
  - eapply Hk; eauto.
  - injection H as <- <-. eapply Hm; eauto.
Qed.

(** A loop over [xs] whose steps keep [P] raises what its steps raise
    from states with [P]. *)
Lemma for_each_raises {X : Type} (P : S -> Prop) (E : exn -> Prop)
    (xs : list X) (body : X -> M S unit) :
  (forall x, In x xs -> keeps P (body x)) ->
  (forall x s s' e, In x xs -> P s -> body x s = (s', Raise e) -> E e) ->
  forall s s' e, P s -> for_each xs body s = (s', Raise e) -> E e.
Proof.
  induction xs as [|x r IH]; intros Hk Hb s s' e Hs H; cbn [for_each] in H.
  - discriminate.
  - unfold bind in H. pose proof (Hk x (or_introl eq_refl) s Hs) as Hs1.
    destruct (body x s) as [s1 [[]|e1]] eqn:B; simpl in Hs1.
    + apply (IH (fun y Hy => Hk y (or_intror Hy))
                (fun y a b c Hy => Hb y a b c (or_intror Hy)) s1 s' e Hs1 H).
    + injection H as <- <-. apply (Hb x s s1 e1 (or_introl eq_refl) Hs B).
Qed.
End Raises.

Section EngineErrors.
Context {K : Type}.
Implicit Types (f g : frame K) (s : XSI K).

Lemma read_signal_errors n : raises_only accessor_error (@_read_signal K n).
Proof.
  intros s s' e H. unfold _read_signal, bind in H.
  rewrite find_signal_resolve in H.
  destruct (resolve _ n) as [c|e0] eqn:R.
  - unfold get_port_value in H.
    destruct (dict_get_In c (ports s) (resolve_In _ _ _ R)) as [pv G].
    rewrite G in H. destruct (int_base2 pv); [discriminate|].
    injection H as <- <-. exact I.
  - injection H as <- <-. unfold resolve in R.
    destruct (str_in n _); [discriminate|].
    destruct (str_in (lower n) _); [discriminate|].
    injection R as <-. exact I.
Qed.

Lemma write_signal_errors n v : raises_only accessor_error (@_write_signal K n v).
Proof.
  intros s s' e H. destruct (signal_width s n) as [w|] eqn:W.
  - apply signal_width_Some in W. destruct W as (c & pv & R & G & _).
    rewrite (write_signal_resolved s n c pv v R G) in H.
    destruct (v <? 0); [|discriminate]. injection H as <- <-. exact I.
  - rewrite write_signal_unresolved in H by assumption.
    injection H as <- <-. exact I.
Qed.

Lemma handshake_errors n : raises_only accessor_error (@handshake K n).
Proof.
  unfold handshake. apply raises_only_bind; [apply read_signal_errors|].
  intros ready. destruct (ready =? 1); [|apply raises_only_ret].
  apply raises_only_bind; [apply read_signal_errors|].
  intros valid. apply raises_only_ret.
Qed.

Lemma run_errors (E : exn -> Prop) d : raises_only E (@run K d).
Proof. intros s s' e H. rewrite run_advanced in H. discriminate. Qed.

Lemma neg_edge_errors clk : raises_only accessor_error (@toggle_neg_edge K clk).
Proof.
  unfold toggle_neg_edge. apply raises_only_bind; [apply write_signal_errors|].
  intros _. apply run_errors.
Qed.

Lemma apply_writes_errors stw : raises_only accessor_error (@apply_writes K stw).
Proof.
  intros s s' e H. unfold apply_writes in H.
  eapply (for_each_raises (fun _ => True) accessor_error (dict_keys stw));
    [| |exact I|exact H].
  - intros sig _ a _. exact I.
  - intros sig a b c Hin _ Hb. cbv beta in Hb.
    destruct (dict_get_In sig stw Hin) as [v G]. rewrite G in Hb.
    exact (write_signal_errors sig v a b c Hb).
Qed.

Lemma pos_edge_errors clk stw :
  raises_only accessor_error (@toggle_pos_edge K clk stw).
Proof.
  unfold toggle_pos_edge.
  apply raises_only_bind; [apply write_signal_errors|intros _].
  apply raises_only_bind; [apply run_errors|intros _].
  apply raises_only_bind; [|intros _; apply raises_only_ret].
  destruct stw; [apply raises_only_ret|apply apply_writes_errors].
Qed.

Lemma on_sim_errors {A : Type} (E : exn -> Prop) (m : M (XSI K) A) :
  raises_only E m -> raises_only E (on_sim m).
Proof.
  intros Hm f f' e H. unfold on_sim in H.
  destruct (m (sim f)) as [s1 r] eqn:Em. injection H as <- ->.
  eapply Hm; eauto.
Qed.

Lemma read_inputs_errors sname :
  raises_only accessor_error (@read_inputs K sname).
Proof.
  intros f f' e H. unfold read_inputs in H.
  apply (for_each_raises
           (fun g => dict_keys (inputs (io_dict g))
                     = dict_keys (inputs (io_dict f)))
           accessor_error (dict_keys (inputs (io_dict f)))
           (read_input sname)) with (s := f) (s' := f'); auto.
  - intros inp Hin g Hg. rewrite read_input_eq.
    destruct (dict_get inp (inputs (io_dict g))) as [q|] eqn:G; [|assumption].
    destruct (snd (handshake _ _)); simpl; [|assumption].
    rewrite dict_keys_set; [assumption|]. eapply dict_get_Some_In; eauto.
  - intros inp g g' e' Hin Hg Hb. rewrite read_input_eq in Hb.
    rewrite <- Hg in Hin. destruct (dict_get_In inp _ Hin) as [q G].
    rewrite G in Hb.
    destruct (handshake (inp ++ sname) (sim g)) as [s1 [b|e1]] eqn:Hh;
      cbn [snd] in Hb; [discriminate|].
    injection Hb as <- <-. eapply handshake_errors; eauto.
Qed.

Lemma read_outputs_errors sname :
  raises_only accessor_error (@read_outputs K sname).
Proof.
  intros f f' e H. unfold read_outputs in H.
  apply (for_each_raises
           (fun g => dict_keys (outputs (io_dict g))
                     = dict_keys (outputs (io_dict f)))
           accessor_error (dict_keys (outputs (io_dict f)))
           (read_output sname)) with (s := f) (s' := f'); auto.
  - intros outp Hin g Hg. rewrite read_output_eq.
    destruct (dict_get outp (outputs (io_dict g))) as [q|] eqn:G; [|assumption].
    assert (Hq : In outp (dict_keys (outputs (io_dict g))))
      by (eapply dict_get_Some_In; eauto).
    destruct (snd (handshake _ _)) as [[|]|e1]; simpl; [| |assumption].
    + destruct (snd (_read_signal _ _)); simpl; [|assumption].
      rewrite dict_keys_set; assumption.
    + rewrite dict_keys_set; assumption.
  - intros outp g g' e' Hin Hg Hb. rewrite read_output_eq in Hb.
    rewrite <- Hg in Hin. destruct (dict_get_In outp _ Hin) as [q G].
    rewrite G in Hb.
    destruct (handshake (outp ++ sname) (sim g)) as [s1 [[|]|e1]] eqn:Hh;
      cbn [snd] in Hb; [|discriminate|].
    + destruct (_read_signal ((outp ++ sname) ++ "TDATA") (sim g))
        as [s2 [w|e2]] eqn:Hr; cbn [snd] in Hb; [discriminate|].
      injection Hb as <- <-. eapply read_signal_errors; eauto.
    + injection Hb as <- <-. eapply handshake_errors; eauto.
Qed.

Lemma stage_inputs_errors (E : exn -> Prop) sname :
  raises_only E (@stage_inputs K sname).
Proof.
  intros f f' e H. unfold stage_inputs in H.
  apply (for_each_raises
           (fun g => io_dict g = io_dict f)
           E (dict_keys (inputs (io_dict f)))
           (stage_input sname)) with (s := f) (s' := f'); auto.
  - intros inp Hin g Hg. rewrite stage_input_eq.
    destruct (dict_get inp (inputs (io_dict g))); assumption.
  - intros inp g g' e' Hin Hg Hb. rewrite stage_input_eq in Hb.
    rewrite <- Hg in Hin. destruct (dict_get_In inp _ Hin) as [q G].
    rewrite G in Hb. discriminate.
Qed.

Lemma phases_errors sname :
  raises_only accessor_error (@phases K sname None None).
Proof.
  unfold phases, call_hook.
  apply raises_only_bind; [apply raises_only_ret|intros _].
  apply raises_only_bind; [apply on_sim_errors, neg_edge_errors|intros _].
  apply raises_only_bind; [apply read_inputs_errors|intros _].
  apply raises_only_bind; [apply read_outputs_errors|intros _].
  apply raises_only_bind; [apply stage_inputs_errors|intros _].
  apply raises_only_bind; [|intros _; apply raises_only_ret].
  intros f f' e H. eapply on_sim_errors; [apply pos_edge_errors|exact H].
Qed.

Lemma setup_errors sname : raises_only accessor_error (@setup K sname).
Proof.
  intros f f' e H. unfold setup in H.
  eapply (for_each_raises (fun _ => True) accessor_error);
    [| |exact I|exact H].
  - intros outp _ a _. exact I.
  - intros outp a b c _ _ Hb. cbv beta in Hb.
    exact (on_sim_errors _ _ (write_signal_errors _ 1) a b c Hb).
Qed.

(** How a call without hooks can fail. *)
Lemma engine_raised fuel s d num sname t f e :
  rtlsim_multi_io fuel s d num sname t None None = (f, Raised e) ->
  accessor_error e \/
  (e = SimulationStalledError /\ 0 <= t /\ no_change_count f = t /\
   1 <= total_cycle_count f).
Proof.
  intros E. unfold rtlsim_multi_io in E.
  pose proof (setup_counters sname s d) as C.
  destruct (setup sname (entry s d)) as [f0 [[]|e0]] eqn:Hs; simpl in C;
    destruct C as (C1 & C2 & C3 & C4 & C5 & _).
  2:{ injection E as <- <-. left. eapply setup_errors; eauto. }
  pose proof (while_loop_inv
                (fun k g => old_output_count g = output_count g /\
                            0 <= no_change_count g /\
                            0 <= total_cycle_count g)
                (cycle num sname t None None)) as H.
  cbv beta in H.
  destruct (H ltac:(
    intros k g g' (G1 & G2 & G3) _ B;
    destruct (cycle_ok_counters num sname t None None g g' B)
      as (_ & D2 & D3 & _ & D5 & _);
    split; [assumption|]; split; [|lia];
    rewrite D5; destruct (output_count g' =? old_output_count g); lia)
    fuel 0%nat f0 f (Raised e) ltac:(lia) E)
    as (j & fp & _ & (G1 & G2 & G3) & _ & B).
  destruct (cycle_raise_counters num sname t None None fp f e B)
    as [_ [[_ Hp]|(R1 & -> & R3 & R4)]].
  - left. eapply phases_errors; eauto.
  - right. split; [reflexivity|]. split; [|split; [assumption|lia]].
    rewrite <- R3, R4.
    destruct (output_count f =? old_output_count fp); lia.
Qed.

(** X19. A call without hooks fails only with an error of the signal
    accessor, signal not found, value error or negative value, or with
    the stall error: no look-up in the caller's mapping or in the staged
    writes fails, and the simulator is never asked for a port it does
    not have. The stall error comes at the end of a cycle, with the
    no-progress counter equal to the threshold. *)
Theorem engine_errors fuel s d num sname t f e :
  rtlsim_multi_io fuel s d num sname t None None = (f, Raised e) ->
  (forall key, e <> KeyError key) /\ (forall p, e <> PortError p) /\
  (forall m, e <> HookError m) /\
  (e = SimulationStalledError ->
   no_change_count f = t /\ 1 <= total_cycle_count f).
Proof.
  intros E. destruct (engine_raised fuel s d num sname t f e E)
    as [H|(-> & _ & H1 & H2)].
  - destruct e; try contradiction; repeat split; discriminate.
  - repeat split; auto; discriminate.
Qed.

(** X20. With a negative threshold the stall check never fires: a call
    without hooks does not raise the stall error, however long the design
    stays silent. *)
Theorem negative_threshold_never_stalls fuel s d num sname t f :
  t < 0 ->
  rtlsim_multi_io fuel s d num sname t None None
  <> (f, Raised SimulationStalledError).
Proof.
  intros Ht E. destruct (engine_raised fuel s d num sname t f _ E)
    as [H|(_ & H & _)]; [contradiction|lia].
Qed.

End EngineErrors.

(** The design that never reacts, with threshold 3: the call fails with
    the stall error, its counter at 3. *)
Lemma engine_errors_witness :
  exists f : frame unit,
    rtlsim_multi_io 3 idle_sim stream_io 2 "_V_V_" 3 None None
    = (f, Raised SimulationStalledError) /\
    no_change_count f = 3.
Proof.
  exists (fst (rtlsim_multi_io 3 idle_sim stream_io 2 "_V_V_" 3 None None)).
  destruct (engine_errors 3 idle_sim stream_io 2 "_V_V_" 3
              (fst (rtlsim_multi_io 3 idle_sim stream_io 2 "_V_V_" 3 None None))
              SimulationStalledError) as (_ & _ & _ & H).
  - vm_compute. reflexivity.
  - split; [vm_compute; reflexivity|exact (proj1 (H eq_refl))].
Defined.

(** The design that never reacts, with threshold -1. *)
Lemma negative_threshold_never_stalls_witness :
  -1 < 0 /\
  forall fuel f,
    rtlsim_multi_io fuel idle_sim stream_io 2 "_V_V_" (-1) None None
    <> (f, Raised SimulationStalledError).
Proof.
  split; [lia|]. intros fuel f.
  apply (negative_threshold_never_stalls fuel idle_sim stream_io 2 "_V_V_" (-1)).
  lia.
Defined.

(** ** The set-up of the output channels *)

Section Setup.
Context {K : Type}.
Implicit Types (f g : frame K) (s : XSI K).

Lemma render_one_length w : (1 <= w)%nat -> String.length (render w 1) = w.
Proof. intros Hw. apply render_spec; [assumption|lia]. Qed.

Lemma on_sim_eq {A : Type} (m : M (XSI K) A) f s' r :
  m (sim f) = (s', r) -> on_sim m f = (set_sim f s', r).
Proof. intros H. unfold on_sim. rewrite H. reflexivity. Qed.

(** The set-up loop on a handle that has the interface of [s0], when
    the TREADY of every channel resolves to a port of at least one
    bit. *)
Lemma setup_for s0 sname ks : forall f,
  same_iface s0 (sim f) ->
  (forall outp, In outp ks ->
     exists w, signal_width s0 ((outp ++ sname) ++ "TREADY") = Some w /\
               (1 <= w)%nat) ->
  exists f',
    for_each ks
      (fun outp => on_sim (_write_signal ((outp ++ sname) ++ "TREADY") 1)) f
    = (f', Ok tt) /\
    same_iface s0 (sim f') /\ kernel (sim f') = kernel (sim f) /\
    (forall c v, dict_get c (ports (sim f)) = Some v ->
       dict_get c (ports (sim f')) = Some v \/
       dict_get c (ports (sim f')) = Some (render (String.length v) 1)) /\
    (forall outp, In outp ks ->
       exists c w,
         resolve (dict_keys (ports s0)) ((outp ++ sname) ++ "TREADY") = Ok c /\
         (1 <= w)%nat /\
         dict_get c (ports (sim f')) = Some (render w 1)) /\
    exists W,
      calls (sim f') = (calls (sim f) ++ W)%list /\
      forallb is_set_port_value W = true /\
      List.length W = List.length ks.
Proof.
  induction ks as [|k ks IH]; intros f If Hw.
  - exists f. split; [reflexivity|]. split; [assumption|].
    split; [reflexivity|]. split; [auto|]. split; [intros outp []|].
    exists []. rewrite app_nil_r. auto.
  - destruct (Hw k (or_introl eq_refl)) as (w & W & Hw1).
    destruct (write_iface s0 (sim f) _ w 1 If W Hw1 ltac:(lia))
      as (c & R & E & I1).
    cbn [for_each]. unfold bind. rewrite (on_sim_eq _ f _ _ E).
    set (f1 := set_sim f (written (sim f) c (render w 1))).
    destruct (IH f1 I1 (fun outp H => Hw outp (or_intror H)))
      as (f' & E' & I' & K' & S' & T' & W' & C' & F' & L').
    assert (G1 : dict_get c (ports (sim f1)) = Some (render w 1))
      by apply dict_get_set_same.
    assert (Wc : forall v, dict_get c (ports (sim f)) = Some v ->
                           String.length v = w).
    { intros v G. apply signal_width_Some in W.
      destruct W as (c' & pv & R' & G' & L).
      assert (c' = c) by congruence. subst c'.
      pose proof (shape_get (ports s0) (ports (sim f)) c (proj1 If)) as Hs.
      rewrite G, G' in Hs. simpl in Hs. congruence. }
    assert (Stay : dict_get c (ports (sim f')) = Some (render w 1)).
    { destruct (S' c _ G1) as [H|H]; [assumption|].
      rewrite render_one_length in H; assumption. }
    exists f'. split; [exact E'|]. split; [exact I'|].
    split; [rewrite K'; reflexivity|]. split; [|split].
    + intros c0 v G. destruct (String.eqb_spec c0 c) as [->|N].
      * right. rewrite (Wc v G). exact Stay.
      * apply S'. simpl. rewrite dict_get_set_other; [assumption|congruence].
    + intros outp [<-|H].
      * exists c, w. auto.
      * apply T'. assumption.
    + exists (SetPortValue c (render w 1) :: W'). split; [|split].
      * rewrite C'. simpl. rewrite <- app_assoc. reflexivity.
      * exact F'.
      * simpl. rewrite L'. reflexivity.
Qed.

(** X21. When the TREADY of every output channel resolves to a port of
    at least one bit, the set-up runs to its end and every output
    channel's TREADY then reads 1; it leaves the caller's mapping and the
    state of the design as they were, makes one port write per output
    channel and no advance of time, and each port holds its old value or
    the value 1. *)
Theorem setup_asserts_tready s d sname :
  (forall outp, In outp (dict_keys (outputs d)) ->
     exists w, signal_width s ((outp ++ sname) ++ "TREADY") = Some w /\
               (1 <= w)%nat) ->
  exists f0,
    setup sname (entry s d) = (f0, Ok tt) /\
    io_dict f0 = d /\ kernel (sim f0) = kernel s /\
    (forall outp, In outp (dict_keys (outputs d)) ->
       _read_signal ((outp ++ sname) ++ "TREADY") (sim f0) = (sim f0, Ok 1)) /\
    (forall c v, dict_get c (ports s) = Some v ->
       dict_get c (ports (sim f0)) = Some v \/
       dict_get c (ports (sim f0)) = Some (render (String.length v) 1)) /\
    exists W,
      calls (sim f0) = (calls s ++ W)%list /\
      forallb is_set_port_value W = true /\
      List.length W = List.length (dict_keys (outputs d)).
Proof.
  intros Hw.
  destruct (setup_for s sname (dict_keys (outputs d)) (entry s d)
              (same_iface_refl s) Hw)
    as (f0 & E & I0 & K0 & S0 & T0 & W0).
  pose proof (setup_counters sname s d) as C.
  unfold setup in *. cbn [entry io_dict] in *. rewrite E in C. simpl in C.
  destruct C as (_ & _ & _ & _ & _ & C & _).
  exists f0. split; [exact E|]. split; [exact C|]. split; [exact K0|].
  split; [|split; [exact S0|exact W0]].
  intros outp Hin. destruct (T0 outp Hin) as (c & w & R & Hw1 & G).
  rewrite (read_rendered s (sim f0) _ c w 1 I0 R G Hw1 ltac:(lia)).
  rewrite one_mod_pow by assumption. reflexivity.
Qed.

(** The set-up loop up to a channel whose TREADY does not resolve. *)
Lemma setup_until_missing (names : list string) sname bad post pre : forall f,
  dict_keys (ports (sim f)) = names ->
  (forall outp, In outp pre ->
     resolve names ((outp ++ sname) ++ "TREADY")
     <> Raise (SignalNotFoundError ((outp ++ sname) ++ "TREADY"))) ->
  resolve names ((bad ++ sname) ++ "TREADY")
  = Raise (SignalNotFoundError ((bad ++ sname) ++ "TREADY")) ->
  exists f',
    for_each (pre ++ bad :: post)
      (fun outp => on_sim (_write_signal ((outp ++ sname) ++ "TREADY") 1)) f
    = (f', Raise (SignalNotFoundError ((bad ++ sname) ++ "TREADY"))) /\
    kernel (sim f') = kernel (sim f) /\
    exists W,
      calls (sim f') = (calls (sim f) ++ W)%list /\
      forallb is_set_port_value W = true /\
      List.length W = List.length pre.
Proof.
  induction pre as [|k pre IH]; intros f Hn Hpre Hbad.
  - cbn [app for_each]. unfold bind.
    assert (E : _write_signal ((bad ++ sname) ++ "TREADY") 1 (sim f)
                = (sim f, Raise (SignalNotFoundError
                                   ((bad ++ sname) ++ "TREADY")))).
    { apply write_signal_unresolved, signal_width_None. rewrite Hn.
      assumption. }
    rewrite (on_sim_eq _ f _ _ E), set_sim_same.
    exists f. split; [reflexivity|]. split; [reflexivity|].
    exists []. rewrite app_nil_r. auto.
  - cbn [app for_each]. unfold bind.
    destruct (signal_width (sim f) ((k ++ sname) ++ "TREADY")) as [w|] eqn:W.
    2:{ apply signal_width_None in W. rewrite Hn in W.
        elim (Hpre k (or_introl eq_refl)). assumption. }
    apply signal_width_Some in W. destruct W as (c & pv & R & G & L).
    pose proof (write_signal_resolved (sim f) _ c pv 1 R G) as E.
    change (1 <? 0) with false in E. cbv iota in E.
    rewrite (on_sim_eq _ f _ _ E).
    set (f1 := set_sim f (written (sim f) c (render (String.length pv) 1))).
    destruct (IH f1) as (f' & E' & K' & W' & C' & F' & L').
    + simpl. rewrite dict_keys_set; [assumption|]. eapply resolve_In; eauto.
    + intros outp H. apply Hpre. right. assumption.
    + assumption.
    + exists f'. split; [exact E'|]. split; [rewrite K'; reflexivity|].
      exists (SetPortValue c (render (String.length pv) 1) :: W').
      split; [|split].
      * rewrite C'. simpl. rewrite <- app_assoc. reflexivity.
      * exact F'.
      * simpl. rewrite L'. reflexivity.
Qed.

(** X22. When the TREADY of an output channel does not resolve, the
    call fails in the set-up with the signal-not-found error for the
    first such channel: no cycle has run and no time has advanced, the
    caller's mapping is as it was, and only the TREADY of the channels
    before that one has been written. *)
Theorem engine_fails_at_setup fuel s d num sname t h1 h2 pre bad post :
  dict_keys (outputs d) = (pre ++ bad :: post)%list ->
  (forall outp, In outp pre ->
     signal_width s ((outp ++ sname) ++ "TREADY") <> None) ->
  signal_width s ((bad ++ sname) ++ "TREADY") = None ->
  exists f,
    rtlsim_multi_io fuel s d num sname t h1 h2
    = (f, Raised (SignalNotFoundError ((bad ++ sname) ++ "TREADY"))) /\
    total_cycle_count f = 0 /\ io_dict f = d /\ kernel (sim f) = kernel s /\
    exists W,
      calls (sim f) = (calls s ++ W)%list /\
      forallb is_set_port_value W = true /\
      List.length W = List.length pre.
Proof.
  intros Hk Hpre Hbad.
  destruct (setup_until_missing (dict_keys (ports s)) sname bad post pre
              (entry s d) eq_refl) as (f & E & K0 & W0).
  - intros outp H H'. apply (Hpre outp H). apply signal_width_None.
    assumption.
  - apply signal_width_None. assumption.
  - pose proof (setup_counters sname s d) as C.
    unfold rtlsim_multi_io, setup in *. cbn [entry io_dict] in *.
    rewrite Hk, E in *. simpl in C.
    destruct C as (_ & C2 & _ & _ & _ & C & _).
    exists f. repeat split; auto.
Qed.

End Setup.

(** The set-up on the example raises the TREADY of its output channel. *)
Lemma setup_asserts_tready_witness :
  exists f0 : frame unit,
    setup "_V_V_" (entry idle_sim stream_io) = (f0, Ok tt) /\
    _read_signal "out0_V_V_TREADY" (sim f0) = (sim f0, Ok 1).
Proof.
  destruct (setup_asserts_tready idle_sim stream_io "_V_V_")
    as (f0 & E & _ & _ & H & _).
  - intros outp [<-|[]]. exists 1%nat. split; [reflexivity|lia].
  - exists f0. split; [exact E|]. apply (H "out0"). left. reflexivity.
Defined.

(** A call for an output channel that the example does not have. *)
Lemma engine_fails_at_setup_witness :
  exists f : frame unit,
    rtlsim_multi_io 5 idle_sim (mkIo [] [("out0", []); ("out9", [])]) 1 "_V_V_"
      10000 None None
    = (f, Raised (SignalNotFoundError "out9_V_V_TREADY")) /\
    total_cycle_count f = 0.
Proof.
  destruct (engine_fails_at_setup 5 idle_sim
              (mkIo [] [("out0", []); ("out9", [])]) 1 "_V_V_" 10000 None None
              ["out0"] "out9" [])
    as (f & E & Ht & _).
  - reflexivity.
  - intros outp [<-|[]]. discriminate.
  - reflexivity.
  - exists f. split; [exact E|exact Ht].
Defined.

(** ** Building the simulation object *)

Lemma string_app_assoc a : forall b c : string, (a ++ b) ++ c = a ++ (b ++ c).
Proof.
  induction a as [|x a IH]; intros b c; simpl; [reflexivity|].
  rewrite IH. reflexivity.
Qed.

Lemma string_app_nil_r a : a ++ EmptyString = a.
Proof. induction a as [|x a IH]; simpl; [reflexivity|]. rewrite IH. reflexivity. Qed.

(** The loop that writes the project file, on sources of known
    extensions. *)
Lemma write_prj_known srcs : forall text,
  forallb known_extension srcs = true ->
  write_prj srcs text = (text ++ project_text srcs, None).
Proof.
  induction srcs as [|src rest IH]; intros text H.
  - simpl. rewrite string_app_nil_r. reflexivity.
  - cbn [forallb] in H. apply andb_true_iff in H. destruct H as [H1 H2].
    cbn [write_prj project_text fold_right]. fold (project_text rest).
    unfold known_extension in H1. unfold prj_line.
    destruct (endswith src ".v").
    + rewrite IH by assumption. rewrite string_app_assoc. reflexivity.
    + cbn [orb] in H1. rewrite H1, IH by assumption.
      rewrite string_app_assoc. reflexivity.
Qed.

Lemma write_prj_app pre : forall rest text,
  forallb known_extension pre = true ->
  write_prj (pre ++ rest) text = write_prj rest (text ++ project_text pre).
Proof.
  induction pre as [|src pre IH]; intros rest text H.
  - simpl. rewrite string_app_nil_r. reflexivity.
  - cbn [forallb] in H. apply andb_true_iff in H. destruct H as [H1 H2].
    cbn [app write_prj project_text fold_right]. fold (project_text pre).
    unfold known_extension in H1. unfold prj_line.
    destruct (endswith src ".v").
    + rewrite IH by assumption. rewrite string_app_assoc. reflexivity.
    + cbn [orb] in H1. rewrite H1, IH by assumption.
      rewrite string_app_assoc. reflexivity.
Qed.

(** A loop that ends without exception has seen known extensions only. *)
Lemma write_prj_None srcs : forall text text',
  write_prj srcs text = (text', None) -> forallb known_extension srcs = true.
Proof.
  induction srcs as [|src rest IH]; intros text text' H; simpl in *;
    [reflexivity|].
  unfold known_extension.
  destruct (endswith src ".v"); simpl; [eauto|].
  destruct (endswith src ".vhd"); simpl; [eauto|discriminate].
Qed.

(** X23. A source whose name ends neither in [.v] nor in [.vhd] ends the
    build with the unknown-extension error for the first such source:
    [xelab] is not launched, the project file holds the lines of the
    sources before it, and every other file is as it was. *)
Theorem unknown_extension_aborts_build top pre bad post dir h :
  creatable h (dir ++ "/rtlsim.prj") = true ->
  forallb known_extension pre = true -> known_extension bad = false ->
  exists h',
    compile_sim_obj top (pre ++ bad :: post) dir h
    = (h', inl (UnknownExtensionError bad)) /\
    launched h' = launched h /\
    dict_get (dir ++ "/rtlsim.prj") (files h') = Some (project_text pre) /\
    (forall p, p <> dir ++ "/rtlsim.prj" ->
               dict_get p (files h') = dict_get p (files h)).
Proof.
  intros Hc Hpre Hbad. unfold compile_sim_obj. rewrite Hc.
  rewrite write_prj_app by assumption. cbn [write_prj].
  unfold known_extension in Hbad. apply orb_false_iff in Hbad.
  destruct Hbad as [-> ->]. cbn [append].
  eexists. split; [reflexivity|]. split; [reflexivity|]. split.
  - apply dict_get_set_same.
  - intros p Hp. simpl. apply dict_get_set_other. congruence.
Qed.

(** X24. On a host where writing to the opened project file and to the
    streams of the interpreter succeeds, as the model of the host takes it:
    the build returns exactly when the project file can be opened,
    every source has a known extension, [xelab] can be launched, what it
    printed on both of its streams decodes as UTF-8, and the shared object
    exists once it has ended; the exit status of [xelab] plays no part.
    [xelab] is then launched once, in the output directory, on the project
    file that lists every source in order, what it printed is echoed on
    the streams of the interpreter, and the call returns the output
    directory with the path of the shared object relative to it.
    When [xelab] ran and what it printed on one of its streams does not
    decode, the call raises [UnicodeDecodeError] after the launch, with
    the files as [xelab] left them, whether the shared object exists or
    not. *)
Theorem build_returns_iff top srcs dir h h' r :
  (compile_sim_obj top srcs dir h = (h', inr r) <->
   creatable h (dir ++ "/rtlsim.prj") = true /\
   forallb known_extension srcs = true /\
   exists fs cmd_out cmd_err,
     spawn h (cmd_xelab top) dir
           (dict_set (dir ++ "/rtlsim.prj") (project_text srcs) (files h))
     = Some (mkProcess fs (Some cmd_out) (Some cmd_err)) /\
     dict_get ((dir ++ "/") ++ "xsim.dir/" ++ top ++ "/xsimk.so") fs <> None /\
     h' = mkHost fs (creatable h) (spawn h)
                 (launched h ++ [(cmd_xelab top, dir)])
                 (stdout h ++ cmd_out) (stderr h ++ cmd_err) /\
     r = (dir, "xsim.dir/" ++ top ++ "/xsimk.so")) /\
  (creatable h (dir ++ "/rtlsim.prj") = true ->
   forallb known_extension srcs = true ->
   forall proc,
     spawn h (cmd_xelab top) dir
           (dict_set (dir ++ "/rtlsim.prj") (project_text srcs) (files h))
     = Some proc ->
     printed_out proc = None \/ printed_err proc = None ->
     exists h'',
       compile_sim_obj top srcs dir h = (h'', inl UnicodeDecodeError) /\
       files h'' = files_after proc /\
       launched h'' = (launched h ++ [(cmd_xelab top, dir)])%list /\
       stderr h'' = stderr h).
Proof.
  unfold compile_sim_obj. split; [split|].
  - destruct (creatable h (dir ++ "/rtlsim.prj")) eqn:Hc; [|discriminate].
    destruct (write_prj srcs "") as [text [e|]] eqn:W; [discriminate|].
    pose proof (write_prj_None _ _ _ W) as Hk.
    rewrite (write_prj_known srcs "" Hk) in W. cbn [append] in W.
    injection W as <-.
    unfold launch_process_helper.
    cbn [files spawn creatable launched stdout stderr].
    destruct (spawn h (cmd_xelab top) dir _) as [[fs [out|] [err|]]|] eqn:Sp;
      cbn [files_after printed_out printed_err files]; try discriminate.
    destruct (dict_get _ fs) eqn:G; [|discriminate].
    intros H. injection H as <- <-.
    split; [reflexivity|]. split; [assumption|].
    exists fs, out, err. split; [reflexivity|]. split; [congruence|]. auto.
  - intros (Hc & Hk & fs & out & err & Sp & G & -> & ->).
    rewrite Hc, (write_prj_known srcs "" Hk). cbn [append].
    unfold launch_process_helper.
    cbn [files spawn creatable launched stdout stderr].
    rewrite Sp. cbn [files_after printed_out printed_err files].
    destruct (dict_get _ fs); [reflexivity|congruence].
  - intros Hc Hk proc Sp Hd.
    rewrite Hc, (write_prj_known srcs "" Hk). cbn [append].
    unfold launch_process_helper.
    cbn [files spawn creatable launched stdout stderr].
    rewrite Sp. destruct proc as [fs [out|] [err|]];
      cbn [files_after printed_out printed_err files] in *;
      try (eexists; split; [reflexivity|]; repeat split; reflexivity).
    destruct Hd; discriminate.
Qed.

(** A source list with a SystemVerilog file after a Verilog file. *)
Lemma unknown_extension_aborts_build_witness :
  exists h',
    compile_sim_obj "top" ["a.v"; "b.sv"; "c.vhd"] "out" building_host
    = (h', inl (UnknownExtensionError "b.sv")) /\
    launched h' = [] /\
    dict_get "out/rtlsim.prj" (files h') = Some (project_text ["a.v"]).
Proof.
  destruct (unknown_extension_aborts_build "top" ["a.v"] "b.sv" ["c.vhd"] "out"
              building_host eq_refl eq_refl eq_refl) as (h' & E & L & G & _).
  exists h'. split; [exact E|]. split; [exact L|exact G].
Defined.

(** A Verilog and a VHDL source on a host where [xelab] succeeds: the
    call returns, and what [xelab] printed is echoed. On the host where
    [xelab] prints bytes that are not UTF-8, the call raises although the
    shared object is there. *)
Lemma build_returns_iff_witness :
  (exists h',
      compile_sim_obj "top" ["a.v"; "b.vhd"] "out" building_host
      = (h', inr ("out", "xsim.dir/top/xsimk.so")) /\
      stdout h' = "Built simulation snapshot" /\
      launched h' = [(cmd_xelab "top", "out")]) /\
  (exists h',
      compile_sim_obj "top" ["a.v"; "b.vhd"] "out" garbled_host
      = (h', inl UnicodeDecodeError) /\
      dict_get "out/xsim.dir/top/xsimk.so" (files h') = Some "ELF" /\
      launched h' = [(cmd_xelab "top", "out")]).
Proof.
  split.
  - eexists. split; [|split].
    + apply (build_returns_iff "top" ["a.v"; "b.vhd"] "out" building_host).
      split; [reflexivity|]. split; [reflexivity|].
      eexists. eexists. eexists. split; [reflexivity|].
      split; [discriminate|]. split; reflexivity.
    + reflexivity.
    + reflexivity.
  - destruct (build_returns_iff "top" ["a.v"; "b.vhd"] "out" garbled_host
                garbled_host ("", "")) as [_ H].
    destruct (H eq_refl eq_refl _ eq_refl (or_introl eq_refl))
      as (h' & E & F & L & _).
    exists h'. split; [exact E|]. split.
    + rewrite F. reflexivity.
    + rewrite L. reflexivity.
Defined.

(** ** Simulated time *)

Lemma elapsed_app a : forall b, elapsed (a ++ b) = elapsed a + elapsed b.
Proof.
  induction a as [|[p v|d] a IH]; intros b; simpl; [reflexivity|apply IH|].
  rewrite IH. lia.
Qed.

Lemma elapsed_writes W : forallb is_set_port_value W = true -> elapsed W = 0.
Proof.
  induction W as [|[p v|d] W IH]; simpl; [reflexivity|assumption|discriminate].
Qed.

Section Time.
Context {K : Type}.
Implicit Types (f g : frame K) (s : XSI K).

(** The set-up writes ports and lets no time pass, whatever its
    outcome. *)
Lemma setup_elapsed sname s d :
  elapsed (calls (sim (fst (setup sname (entry s d))))) = elapsed (calls s).
Proof.
  unfold setup.
  apply (keeps_for_each
           (fun g : frame K => elapsed (calls (sim g)) = elapsed (calls s)));
    [|reflexivity].
  intros outp _ g Hg. unfold on_sim.
  destruct (write_signal_calls ((outp ++ sname) ++ "TREADY") 1 (sim g))
    as (W & E & F).
  destruct (_write_signal _ 1 (sim g)) as [s' r]. simpl in *.
  rewrite E, elapsed_app, (elapsed_writes W F). lia.
Qed.

(** A cycle without hooks that runs to its end takes a clock period. *)
Lemma cycle_elapsed num sname t f f' :
  NoDup (dict_keys (inputs (io_dict f))) ->
  cycle num sname t None None f = (f', Ok tt) ->
  elapsed (calls (sim f')) = elapsed (calls (sim f)) + 10000.
Proof.
  intros ND E.
  destruct (cycle_ok_phases num sname t None None f f' E) as [f1 Hp].
  destruct (cycle_counters num sname t None None f f1 Hp)
    as (g & Eg & Hsim & _).
  rewrite E in Eg. injection Eg as <- _. rewrite Hsim.
  destruct (phases_spec sname None None f f1 ND Hp)
    as (fa & fd & Ea & _ & _ & c & w & s3 & W & _ & _ & _ & Hc & HW & Hh & _).
  cbn [call_hook] in Hh. injection Hh as <-. cbn [set_sim sim].
  rewrite Hc, !elapsed_app, (elapsed_writes W HW).
  unfold bind, call_hook, ret, on_sim in Ea.
  pose proof (toggle_neg_edge_spec (sim f) "ap_clk") as Hn.
  destruct (signal_width (sim f) "ap_clk") as [w0|].
  - destruct Hn as (c0 & _ & Hn). rewrite Hn in Ea. injection Ea as <-.
    cbn [set_sim sim advanced written calls]. rewrite !elapsed_app.
    simpl. lia.
  - rewrite Hn in Ea. discriminate.
Qed.

Lemma iterate_elapsed num sname t k : forall f fk,
  NoDup (dict_keys (inputs (io_dict f))) ->
  iterate k (cycle num sname t None None) f = Some fk ->
  elapsed (calls (sim fk)) = elapsed (calls (sim f)) + 10000 * Z.of_nat k.
Proof.
  induction k as [|k IH]; intros f fk ND E; simpl in E.
  - injection E as <-. simpl. lia.
  - destruct (output_done f); [discriminate|].
    destruct (cycle num sname t None None f) as [f' [[]|e]] eqn:B;
      [|discriminate].
    assert (ND' : NoDup (dict_keys (inputs (io_dict f')))).
    { pose proof (cycle_consumed (inputs (io_dict f)) num sname t None None f
                    (consumed_from_refl _)) as [Hk _].
      rewrite B in Hk. simpl in Hk. rewrite Hk. exact ND. }
    rewrite (IH f' fk ND' E), (cycle_elapsed num sname t f f' ND B). lia.
Qed.

(** X25. Without hooks, every iteration that runs to its end advances
    the simulation by one clock period of 10000 time units, in two
    halves, and nothing else advances it: after [k] iterations the
    simulation has advanced by [10000 * k], and a call that returns [n]
    has advanced it by [10000 * n]. *)
Theorem simulated_time_per_cycle s d num sname t :
  NoDup (dict_keys (inputs d)) ->
  (forall f0 k fk,
      setup sname (entry s d) = (f0, Ok tt) ->
      iterate k (cycle num sname t None None) f0 = Some fk ->
      elapsed (calls (sim fk)) = elapsed (calls s) + 10000 * Z.of_nat k) /\
  (forall fuel f n,
      rtlsim_multi_io fuel s d num sname t None None = (f, Returned n) ->
      elapsed (calls (sim f)) = elapsed (calls s) + 10000 * n).
Proof.
  intros ND.
  assert (H : forall f0 k fk,
             setup sname (entry s d) = (f0, Ok tt) ->
             iterate k (cycle num sname t None None) f0 = Some fk ->
             elapsed (calls (sim fk))
             = elapsed (calls s) + 10000 * Z.of_nat k).
  { intros f0 k fk Hs Hi.
    pose proof (setup_elapsed sname s d) as He.
    pose proof (setup_counters sname s d) as C.
    rewrite Hs in He, C. simpl in He, C.
    destruct C as (_ & _ & _ & _ & _ & C & _).
    rewrite (iterate_elapsed num sname t k f0 fk), He;
      [reflexivity|rewrite C; assumption|assumption]. }
  split; [exact H|].
  intros fuel f n E. unfold rtlsim_multi_io in E.
  destruct (setup sname (entry s d)) as [f0 [[]|e]] eqn:Hs; [|discriminate].
  pose proof (setup_counters sname s d) as C. rewrite Hs in C. simpl in C.
  destruct C as (_ & C2 & _).
  destruct (while_loop_returned num sname t None None fuel f0 f n E)
    as (k & _ & Hi & Hn & _).
  rewrite (H f0 k f eq_refl Hi). lia.
Qed.

End Time.

(** The pass-through example returns 4 after 40000 time units. *)
Lemma simulated_time_per_cycle_witness :
  elapsed (calls (sim (fst (rtlsim_multi_io 20 passthrough_sim stream_io 2
                              "_V_V_" 10000 None None))))
  = elapsed (calls passthrough_sim) + 10000 * 4.
Proof.
  destruct (simulated_time_per_cycle passthrough_sim stream_io 2 "_V_V_" 10000)
    as [_ H].
  - repeat constructor. intros [].
  - apply (H 20%nat). vm_compute. reflexivity.
Defined.

(** ** The ports that the engine writes *)

Lemma dict_keys_set_In {V : Type} (k : string) (v : V) (d : dict V) x :
  In x (dict_keys (dict_set k v d)) -> x = k \/ In x (dict_keys d).
Proof.
  induction d as [|[k0 v0] r IH]; simpl.
  - intros [H|[]]. auto.
  - destruct (String.eqb k k0); simpl; intros [H|H]; auto.
    destruct (IH H); auto.
Qed.

Lemma driven_clock d sname : In "ap_clk" (driven_signals d sname).
Proof. left. reflexivity. Qed.

Lemma driven_tready d sname outp :
  In outp (dict_keys (outputs d)) ->
  In ((outp ++ sname) ++ "TREADY") (driven_signals d sname).
Proof.
  intros H. right. apply in_or_app. left.
  apply (in_map (fun outp => (outp ++ sname) ++ "TREADY")). assumption.
Qed.

Lemma driven_input d sname inp :
  In inp (dict_keys (inputs d)) ->
  In ((inp ++ sname) ++ "TVALID") (driven_signals d sname) /\
  In ((inp ++ sname) ++ "TDATA") (driven_signals d sname).
Proof.
  intros H. split; right; apply in_or_app; right; apply in_flat_map;
    exists inp; (split; [assumption|]); simpl; auto.
Qed.

Section Driven.
Context {K : Type}.
Variables (names : list string) (s0 : XSI K).
Implicit Types (f g : frame K) (s : XSI K).

Lemma since_refl : engine_calls_since names s0 s0.
Proof. exists []. rewrite app_nil_r. auto. Qed.

Lemma since_snoc s s' c :
  engine_calls_since names s0 s -> calls s' = (calls s ++ [c])%list ->
  engine_call names c -> engine_calls_since names s0 s'.
Proof.
  intros (W & E & F) E' Hc. exists (W ++ [c])%list.
  rewrite E', E, app_assoc. split; [reflexivity|].
  apply Forall_app. auto.
Qed.

Lemma write_since n v :
  In n names -> keeps (engine_calls_since names s0) (@_write_signal K n v).
Proof.
  intros Hn s Hs. destruct (signal_width s n) as [w|] eqn:W.
  - apply signal_width_Some in W. destruct W as (c & pv & R & G & _).
    rewrite (write_signal_resolved s n c pv v R G).
    destruct (v <? 0); [assumption|]. simpl.
    apply (since_snoc s _ (SetPortValue c (render (String.length pv) v)) Hs);
      [reflexivity|].
    exists n. split; [assumption|].
    destruct (resolve_cases _ _ _ R) as [H|[H _]]; auto.
  - rewrite write_signal_unresolved by assumption. assumption.
Qed.

Lemma run_since : keeps (engine_calls_since names s0) (@run K 5000).
Proof.
  intros s Hs. rewrite run_advanced. simpl.
  apply (since_snoc s _ (Run 5000) Hs); reflexivity.
Qed.

Lemma neg_edge_since clk :
  In clk names -> keeps (engine_calls_since names s0) (@toggle_neg_edge K clk).
Proof.
  intros H. unfold toggle_neg_edge.
  apply keeps_bind; [apply write_since; assumption|intros _; apply run_since].
Qed.

Lemma apply_writes_since stw :
  (forall sig, In sig (dict_keys stw) -> In sig names) ->
  keeps (engine_calls_since names s0) (@apply_writes K stw).
Proof.
  intros H. unfold apply_writes. apply keeps_for_each. intros sig Hin.
  destruct (dict_get sig stw); [apply write_since; auto|apply keeps_raise].
Qed.

Lemma pos_edge_since clk stw :
  In clk names -> (forall sig, In sig (dict_keys stw) -> In sig names) ->
  keeps (engine_calls_since names s0) (@toggle_pos_edge K clk stw).
Proof.
  intros H Hw. unfold toggle_pos_edge.
  apply keeps_bind; [apply write_since; assumption|intros _].
  apply keeps_bind; [apply run_since|intros _].
  apply keeps_bind; [|intros _; apply keeps_ret].
  destruct stw; [apply keeps_ret|apply apply_writes_since; assumption].
Qed.

Variables (ins : list string) (sname : string).
Hypothesis names_inputs :
  forall inp, In inp ins ->
              In ((inp ++ sname) ++ "TVALID") names /\
              In ((inp ++ sname) ++ "TDATA") names.
Hypothesis names_clock : In "ap_clk" names.

(** What every block of a cycle keeps: the calls are calls of the
    engine, the input channels are the same, and the staged writes are
    for driven signals. *)
Lemma on_sim_since {A : Type} (m : M (XSI K) A) :
  keeps (engine_calls_since names s0) m ->
  keeps (fun g => engine_calls_since names s0 (sim g) /\
                  dict_keys (inputs (io_dict g)) = ins /\
                  forall sig, In sig (dict_keys (signals_to_write g)) ->
                              In sig names)
        (on_sim m).
Proof.
  intros Hm f (H1 & H2 & H3). unfold on_sim. specialize (Hm (sim f) H1).
  destruct (m (sim f)) as [s r]. simpl in *. auto.
Qed.

Lemma cycle_since num t :
  keeps (fun g => engine_calls_since names s0 (sim g) /\
                  dict_keys (inputs (io_dict g)) = ins /\
                  forall sig, In sig (dict_keys (signals_to_write g)) ->
                              In sig names)
        (cycle num sname t None None).
Proof.
  unfold cycle, phases, call_hook.
  apply keeps_bind.
  { apply keeps_bind; [apply keeps_ret|intros _].
    apply keeps_bind;
      [apply on_sim_since, neg_edge_since; assumption|intros _].
    apply keeps_bind.
    { intros f Hf. unfold read_inputs. apply keeps_for_each; [|assumption].
      intros inp _ g (G1 & G2 & G3). rewrite read_input_eq.
      destruct (dict_get inp (inputs (io_dict g))) as [q|] eqn:G; [|auto].
      destruct (snd (handshake _ _)); simpl; [|auto].
      split; [assumption|]. split; [|assumption].
      rewrite dict_keys_set; [assumption|]. eapply dict_get_Some_In; eauto. }
    intros _. apply keeps_bind.
    { intros f Hf. unfold read_outputs. apply keeps_for_each; [|assumption].
      intros outp _ g Hg. rewrite read_output_eq.
      destruct (dict_get outp (outputs (io_dict g))); [|assumption].
      destruct (snd (handshake _ _)) as [[|]|e]; simpl; auto.
      destruct (snd (_read_signal _ _)); simpl; auto. }
    intros _. apply keeps_bind.
    { intros f Hf. unfold stage_inputs. apply keeps_for_each; [|assumption].
      intros inp _ g (G1 & G2 & G3). rewrite stage_input_eq.
      destruct (dict_get inp (inputs (io_dict g))) as [q|] eqn:G; [|auto].
      simpl. split; [assumption|]. split; [assumption|].
      assert (Hin : In inp ins).
      { rewrite <- G2. eapply dict_get_Some_In; eauto. }
      destruct (names_inputs inp Hin) as [N1 N2].
      intros sig Hs. apply dict_keys_set_In in Hs.
      destruct Hs as [->|Hs]; [assumption|].
      apply dict_keys_set_In in Hs.
      destruct Hs as [->|Hs]; [assumption|auto]. }
    intros _. apply keeps_bind; [|intros _; apply keeps_ret].
    intros f Hf. pose proof Hf as (_ & _ & H3).
    apply (on_sim_since _ (pos_edge_since "ap_clk" (signals_to_write f)
                             names_clock H3) f Hf). }
  intros _ f Hf. rewrite bookkeeping_spec. exact Hf.
Qed.

End Driven.

Section DrivenEngine.
Context {K : Type}.

(** X26. Whatever the outcome of a call without hooks, every call it
    made on the handle is an advance of the time by half a clock period
    or a write to the port that one of its signals resolves to: the
    clock, the TREADY of an output channel, the TVALID or the TDATA of an
    input channel. It writes no other port, such as the reset, the
    TREADY of an input channel or the TVALID and TDATA of an output
    channel, unless one of its signals resolves to it. *)
Theorem engine_drives_its_signals_only fuel (s : XSI K) d num sname t :
  engine_calls_since (driven_signals d sname) s
    (sim (fst (rtlsim_multi_io fuel s d num sname t None None))).
Proof.
  set (names := driven_signals d sname).
  set (P := fun g : frame K =>
              engine_calls_since names s (sim g) /\
              dict_keys (inputs (io_dict g)) = dict_keys (inputs d) /\
              forall sig, In sig (dict_keys (signals_to_write g)) ->
                          In sig names).
  assert (H0 : P (entry s d)).
  { split; [apply since_refl|]. split; [reflexivity|intros sig []]. }
  assert (Hs : P (fst (setup sname (entry s d)))).
  { unfold setup. cbn [entry io_dict].
    apply (keeps_for_each P); [|exact H0].
    intros outp Hin.
    apply (on_sim_since names s (dict_keys (inputs d))).
    apply write_since. apply driven_tready. assumption. }
  assert (Hc : keeps P (cycle num sname t None None)).
  { apply (cycle_since names s (dict_keys (inputs d)) sname).
    - intros inp Hin. apply driven_input. assumption.
    - apply driven_clock. }
  unfold rtlsim_multi_io.
  destruct (setup sname (entry s d)) as [f0 [[]|e]]; simpl in Hs.
  - apply (while_loop_keeps P _ Hc fuel f0 Hs).
  - apply Hs.
Qed.

End DrivenEngine.

(** ** Port values at the edge of the accessor *)

(** A minus sign before binary digits is a literal of [int(s, 2)]. *)
Lemma int_base2_minus b :
  is_bits b = true -> b <> EmptyString ->
  int_base2 (String "-" b) = Some (- bits_value 0 b).
Proof.
  intros H Hne. unfold int_base2.
  change (lstrip (String "-" b)) with (String "-" b).
  assert (R : rstrip (String "-" b) = String "-" b).
  { cbn [rstrip]. rewrite rstrip_bits by assumption.
    destruct b; [congruence|reflexivity]. }
  rewrite R. change (split_sign (String "-" b)) with (true, b).
  destruct b as [|c r]; [congruence|].
  pose proof H as H'. simpl in H'. apply andb_true_iff in H'.
  destruct H' as [Hc Hr].
  assert (Hp : skip_prefix (String c r) = String c r).
  { destruct r as [|c1 r1]; [reflexivity|].
    simpl in Hr. apply andb_true_iff in Hr. destruct Hr as [Hc1 _].
    destruct (is_bit_cases c Hc); destruct (is_bit_cases c1 Hc1); subst;
      reflexivity. }
  rewrite Hp.
  assert (Hu : Ascii.eqb c "_" = false).
  { destruct (is_bit_cases c Hc); subst c; reflexivity. }
  rewrite Hu, digits2_bits by assumption. reflexivity.
Qed.

Section EdgeValues.
Context {K : Type}.
Implicit Types (s : XSI K) (n c : string).

(** X27. A port value that is a minus sign followed by binary digits is
    not rejected by a read: it reads as the negative of the number the
    digits denote, and that number, when it is not zero, cannot be
    written back. *)
Theorem read_accepts_signed_value s n c b :
  _find_signal n s = (s, Ok c) ->
  dict_get c (ports s) = Some (String "-" b) ->
  is_bits b = true -> b <> EmptyString ->
  _read_signal n s = (s, Ok (- bits_value 0 b)) /\
  - bits_value 0 b <= 0 /\
  (0 < bits_value 0 b ->
   _write_signal n (- bits_value 0 b) s
   = (s, Raise NegativeValueUnsupportedError)).
Proof.
  intros E G Hb Hne. apply find_signal_Ok in E. destruct E as [_ R].
  pose proof (bits_value_range b) as Hr.
  split; [|split; [lia|]].
  - rewrite (read_signal_resolved s n c _ R G), int_base2_minus by assumption.
    reflexivity.
  - intros Hpos. rewrite (write_signal_resolved s n c _ _ R G).
    destruct (Z.ltb_spec (- bits_value 0 b) 0); [reflexivity|lia].
Qed.

(** X28. A write of a value that is not negative to a signal whose port
    holds no character stores all the binary digits of the value, at
    least one: nothing is cut off, the port no longer has width 0, and
    the signal reads as the value written. *)
Theorem zero_width_port_takes_all_digits s n v :
  signal_width s n = Some 0%nat -> 0 <= v ->
  exists s' c,
    _write_signal n v s = (s', Ok tt) /\
    _find_signal n s' = (s', Ok c) /\
    dict_get c (ports s') = Some (format_0b 0 v) /\
    (1 <= String.length (format_0b 0 v))%nat /\
    signal_width s' n = Some (String.length (format_0b 0 v)) /\
    _read_signal n s' = (s', Ok v).
Proof.
  intros W Hv. apply signal_width_Some in W.
  destruct W as (c & pv & R & G & L).
  destruct (format_0b_spec 0 v Hv) as (Hb & _ & Hl & Hval).
  pose proof (write_signal_resolved s n c pv v R G) as E.
  destruct (Z.ltb_spec v 0); [lia|]. rewrite L in E.
  change (render 0 v) with (format_0b 0 v) in E.
  set (s' := written s c (format_0b 0 v)) in *.
  assert (R' : resolve (dict_keys (ports s')) n = Ok c).
  { unfold s'. rewrite written_keys; [assumption|]. eapply resolve_In; eauto. }
  assert (G' : dict_get c (ports s') = Some (format_0b 0 v))
    by apply dict_get_set_same.
  exists s', c. split; [exact E|].
  split; [rewrite find_signal_resolve, R'; reflexivity|].
  split; [exact G'|]. split; [exact Hl|]. split.
  - apply signal_width_Some. exists c, (format_0b 0 v). auto.
  - rewrite (read_signal_resolved s' n c _ R' G'), int_base2_bits, Hval;
      [reflexivity|assumption|].
    intros E0. rewrite E0 in Hl. simpl in Hl. lia.
Qed.

End EdgeValues.

(** A port that holds a minus sign and two digits. *)
Lemma read_accepts_signed_value_witness :
  _read_signal "p" (mkXSI [("p", "-10")] tt idle_design [])
  = (mkXSI [("p", "-10")] tt idle_design [], Ok (-2)) /\
  _write_signal "p" (-2) (mkXSI [("p", "-10")] tt idle_design [])
  = (mkXSI [("p", "-10")] tt idle_design [],
     Raise NegativeValueUnsupportedError).
Proof.
  destruct (read_accepts_signed_value (mkXSI [("p", "-10")] tt idle_design [])
              "p" "p" "10" eq_refl eq_refl eq_refl ltac:(discriminate))
    as (H1 & _ & H2).
  split; [exact H1|]. apply H2. simpl. lia.
Defined.

(** 5 written to the port of no bits of the example. *)
Lemma zero_width_port_takes_all_digits_witness :
  exists s' c,
    _write_signal "p" 5 empty_port_sim = (s', Ok tt) /\
    _find_signal "p" s' = (s', Ok c) /\
    dict_get c (ports s') = Some "101" /\
    _read_signal "p" s' = (s', Ok 5).
Proof.
  destruct (zero_width_port_takes_all_digits empty_port_sim "p" 5 eq_refl
              ltac:(lia)) as (s' & c & H1 & H2 & H3 & _ & _ & H6).
  exists s', c. split; [exact H1|]. split; [exact H2|].
  split; [exact H3|exact H6].
Defined.
